(** * ICPC management system: a shallow embedding of [src/main.cpp]

    The program keeps a registry of teams, an append-only submission log, a
    cached ranking order and, while the board is frozen, the set of problems
    whose result is withheld.  Every method of [ICPCManagementSystem] is a
    function on an explicit [System] value that also returns the lines it
    prints.

    Conventions of the embedding:
    - [int] is [Z].  Signed overflow is undefined behaviour in C++; the model
      covers the executions in which no [int] overflows.
    - [std::map<string, V>] is [gmap string V].  [m[k]] reads the entry or
      the value-initialised default ([mapGet]) and leaves a missing key
      bound to that default ([touch]); [m.at(k)] throws
      [std::out_of_range] when [k] is missing ([mapAt]).
    - [teams[name]] in the comparator, in the printer and in the output of
      the ranking changes is read with [getTeam] and inserts nothing: the
      names it is applied to come from [teamOrder], which only [addTeam]
      extends, together with [teams].
    - an uncaught exception ends the program: a method that throws returns
      [Throw]; the lines printed before the exception are not kept.
    - output is the list of the lines printed.
    - [std::sort] with a comparator is [sortBy]; on a strict total order the
      sorted permutation is unique ([sorted_perm_unique]), so the choice of
      algorithm is not observable there.
    - the [while (true)] loop of [scrollScoreboard] takes a budget of
      iterations and returns [Fuel] when it is used up; the budget it is
      given is never used up ([scrollLoop_enough_fuel]), and on contest
      input every command returns ([run_total]).
    - the input of [main] is the list of its lines; [istringstream >>]
      works on what is left of the line ([readWord], [readInt]), with the
      white space of the "C" locale and the rules of C++11 for a numeral
      that cannot be read. *)

From Stdlib Require Import ZArith Lia Bool List Ascii String DecimalString.
From Stdlib Require Import DecimalPos DecimalZ.
From Stdlib Require Import Sorting.Permutation Sorting.Sorted.
From stdpp Require Import base option list sorting gmap sets strings fin_maps.

Local Open Scope Z_scope.

(** ** Results of code that may throw *)

Inductive Res (A : Type) : Type :=
| Ok (a : A)
| Throw          (* std::out_of_range left uncaught *)
| Fuel.          (* the loop budget of the model ran out (never happens) *)
Arguments Ok {A} a.
Arguments Throw {A}.
Arguments Fuel {A}.

Definition bindR {A B} (m : Res A) (k : A → Res B) : Res B :=
  match m with
  | Ok a => k a
  | Throw => Throw
  | Fuel => Fuel
  end.

Global Instance Res_bind : MBind Res := λ A B k m, bindR m k.

Fixpoint mapR {A B} (f : A → Res B) (l : list A) : Res (list B) :=
  match l with
  | [] => Ok []
  | a :: l' => b ← f a; bs ← mapR f l'; Ok (b :: bs)
  end.

(** ** Judge status *)

Inductive Status := ACCEPTED | WRONG_ANSWER | RUNTIME_ERROR | TIME_LIMIT_EXCEED.

Global Instance Status_eq_dec : EqDecision Status.
Proof. solve_decision. Defined.

Definition stringToStatus (statusStr : string) : Status :=
  if String.eqb statusStr "Accepted" then ACCEPTED
  else if String.eqb statusStr "Wrong_Answer" then WRONG_ANSWER
  else if String.eqb statusStr "Runtime_Error" then RUNTIME_ERROR
  else if String.eqb statusStr "Time_Limit_Exceed" then TIME_LIMIT_EXCEED
  else WRONG_ANSWER.

Definition statusToString (status : Status) : string :=
  match status with
  | ACCEPTED => "Accepted"
  | WRONG_ANSWER => "Wrong_Answer"
  | RUNTIME_ERROR => "Runtime_Error"
  | TIME_LIMIT_EXCEED => "Time_Limit_Exceed"
  end.

(** ** Records *)

Record Submission := mkSubmission {
  sub_teamName : string;
  sub_problemName : string;
  sub_status : Status;
  sub_time : Z
}.

Record Team := mkTeam {
  name : string;
  solvedCount : Z;
  penaltyTime : Z;
  wrongSubmissions : gmap string Z;
  firstAcceptTime : gmap string Z;
  isSolved : gmap string bool;
  totalSubmissions : gmap string Z;
  frozenSubmissions : gmap string Z
}.

(** [Team(n)]: counters zero, every map empty. *)
Definition newTeam (n : string) : Team :=
  mkTeam n 0 0 ∅ ∅ ∅ ∅ ∅.

(** ** [std::map] access *)

(** [m.at(k)] *)
Definition mapAt {V} (m : gmap string V) (k : string) : Res V :=
  match m !! k with
  | Some v => Ok v
  | None => Throw
  end.

(** The value [m[k]] reads: the entry, or the value-initialised default. *)
Definition mapGet {V} (d : V) (m : gmap string V) (k : string) : V :=
  default d (m !! k).

(** The map after [m[k]] was evaluated: a missing key is now bound to the
    default. *)
Definition touch {V} (d : V) (m : gmap string V) (k : string) : gmap string V :=
  match m !! k with
  | Some _ => m
  | None => <[k := d]> m
  end.

(** [m[k]++] *)
Definition mapIncr (m : gmap string Z) (k : string) : gmap string Z :=
  <[k := mapGet 0 m k + 1]> m.

(** ** The system state *)

Record System := mkSystem {
  competitionStarted : bool;
  isFrozen : bool;
  durationTime : Z;
  problemCount : Z;
  problemNames : list string;
  teams : gmap string Team;
  submissions : list Submission;
  teamOrder : list string;            (* current ranking order *)
  frozenProblems : gmap string (gset string)
}.

Definition initialSystem : System :=
  mkSystem false false 0 0 [] ∅ [] [] ∅.

Definition setTeams (s : System) (ts : gmap string Team) : System :=
  mkSystem (competitionStarted s) (isFrozen s) (durationTime s) (problemCount s)
           (problemNames s) ts (submissions s) (teamOrder s) (frozenProblems s).

Definition setTeamOrder (s : System) (o : list string) : System :=
  mkSystem (competitionStarted s) (isFrozen s) (durationTime s) (problemCount s)
           (problemNames s) (teams s) (submissions s) o (frozenProblems s).

Definition setFrozenProblems (s : System) (fp : gmap string (gset string)) : System :=
  mkSystem (competitionStarted s) (isFrozen s) (durationTime s) (problemCount s)
           (problemNames s) (teams s) (submissions s) (teamOrder s) fp.

Definition setSubmissions (s : System) (l : list Submission) : System :=
  mkSystem (competitionStarted s) (isFrozen s) (durationTime s) (problemCount s)
           (problemNames s) (teams s) l (teamOrder s) (frozenProblems s).

Definition setIsFrozen (s : System) (b : bool) : System :=
  mkSystem (competitionStarted s) b (durationTime s) (problemCount s)
           (problemNames s) (teams s) (submissions s) (teamOrder s) (frozenProblems s).

(** The team a read of [teams[n]] sees: the entry, or [Team()]. *)
Definition getTeam (s : System) (n : string) : Team :=
  mapGet (newTeam "") (teams s) n.

(** The frozen-problem set a read of [frozenProblems[n]] sees. *)
Definition frozenSet (fp : gmap string (gset string)) (n : string) : gset string :=
  mapGet ∅ fp n.

(** ** Team methods *)

Definition getProblemPenalty (t : Team) (problem : string) : Res Z :=
  solved ← mapAt (isSolved t) problem;
  if negb (solved : bool) then Ok 0
  else w ← mapAt (wrongSubmissions t) problem;
       f ← mapAt (firstAcceptTime t) problem;
       Ok (20 * w + f).

(** Insertion sort of integers, largest first: [sort(rbegin, rend)]. *)
Fixpoint insertDesc (x : Z) (l : list Z) : list Z :=
  match l with
  | [] => [x]
  | y :: l' => if y <? x then x :: y :: l' else y :: insertDesc x l'
  end.

Definition sortDesc (l : list Z) : list Z := foldr insertDesc [] l.

(** The problems whose [isSolved] entry is [true]. *)
Definition solvedProblems (t : Team) : list string :=
  (filter (λ kv : string * bool, kv.2 = true) (map_to_list (isSolved t))).*1.

Definition getSolveTimes (t : Team) : Res (list Z) :=
  times ← mapR (mapAt (firstAcceptTime t)) (solvedProblems t);
  Ok (sortDesc times).

(** ** Printing *)

(** [cout << int] *)
Definition showZ (z : Z) : string := NilZero.string_of_int (Z.to_int z).

Definition line (parts : list string) : string := String.concat "" parts.

(** ** Ranking *)

(** The first position, below the shorter length, at which two lists
    differ. *)
Fixpoint firstDiff (xs ys : list Z) : option (Z * Z) :=
  match xs, ys with
  | x :: xs', y :: ys' => if x =? y then firstDiff xs' ys' else Some (x, y)
  | _, _ => None
  end.

(** The comparator handed to [std::sort] in [updateRankings]:
    [rankBefore s a b] is [true] when team [a] ranks before team [b]. *)
Definition rankBefore (s : System) (a b : string) : Res bool :=
  let teamA := getTeam s a in
  let teamB := getTeam s b in
  if negb (solvedCount teamA =? solvedCount teamB)
  then Ok (solvedCount teamA >? solvedCount teamB)
  else if negb (penaltyTime teamA =? penaltyTime teamB)
  then Ok (penaltyTime teamA <? penaltyTime teamB)
  else
    timesA ← getSolveTimes teamA;
    timesB ← getSolveTimes teamB;
    match firstDiff timesA timesB with
    | Some (x, y) => Ok (x <? y)
    | None => Ok (String.ltb a b)
    end.

(** [std::sort] as an insertion sort whose comparator may throw. *)
Fixpoint insertBy {A} (lt : A → A → Res bool) (x : A) (l : list A) : Res (list A) :=
  match l with
  | [] => Ok [x]
  | y :: l' =>
      b ← lt x y;
      if (b : bool) then Ok (x :: y :: l')
      else r ← insertBy lt x l'; Ok (y :: r)
  end.

Fixpoint sortBy {A} (lt : A → A → Res bool) (l : list A) : Res (list A) :=
  match l with
  | [] => Ok []
  | x :: l' => r ← sortBy lt l'; insertBy lt x r
  end.

Definition updateRankings (s : System) : Res System :=
  o ← sortBy (rankBefore s) (teamOrder s);
  Ok (setTeamOrder s o).

(** One per-problem cell of a scoreboard row.  The second component is
    [frozenProblems] after the cell was printed: [frozenProblems[teamName]]
    is evaluated exactly when the problem is not solved. *)
Definition printCell (team : Team) (teamName : string)
    (fp : gmap string (gset string)) (problem : string)
    : Res (string * gmap string (gset string)) :=
  solved ← mapAt (isSolved team) problem;
  if (solved : bool) then
    wrongBefore ← mapAt (wrongSubmissions team) problem;
    if wrongBefore =? 0 then Ok ("+", fp)
    else Ok (line ["+"; showZ wrongBefore], fp)
  else if decide (problem ∈ frozenSet fp teamName) then
    wrongBefore ← mapAt (wrongSubmissions team) problem;
    frozenCount ← mapAt (frozenSubmissions team) problem;
    if wrongBefore =? 0 then Ok (line ["0/"; showZ frozenCount], touch ∅ fp teamName)
    else Ok (line ["-"; showZ wrongBefore; "/"; showZ frozenCount], touch ∅ fp teamName)
  else
    wrongCount ← mapAt (wrongSubmissions team) problem;
    if wrongCount =? 0 then Ok (".", touch ∅ fp teamName)
    else Ok (line ["-"; showZ wrongCount], touch ∅ fp teamName).

Fixpoint printCells (team : Team) (teamName : string)
    (fp : gmap string (gset string)) (problems : list string)
    : Res (list string * gmap string (gset string)) :=
  match problems with
  | [] => Ok ([], fp)
  | problem :: rest =>
      '(c, fp1) ← printCell team teamName fp problem;
      '(cs, fp2) ← printCells team teamName fp1 rest;
      Ok (c :: cs, fp2)
  end.

(** The rows for the teams [order], the first of which has 0-based
    position [i]. *)
Fixpoint printRows (s : System) (i : nat) (order : list string)
    (fp : gmap string (gset string))
    : Res (list string * gmap string (gset string)) :=
  match order with
  | [] => Ok ([], fp)
  | teamName :: rest =>
      let team := getTeam s teamName in
      '(cells, fp1) ← printCells team teamName fp (problemNames s);
      let row := line ([teamName; " "; showZ (Z.of_nat (i + 1)); " ";
                        showZ (solvedCount team); " "; showZ (penaltyTime team)]
                       ++ List.map (λ c, line [" "; c]) cells) in
      '(rows, fp2) ← printRows s (S i) rest fp1;
      Ok (row :: rows, fp2)
  end.

Definition printScoreboard (s : System) : Res (System * list string) :=
  '(rows, fp) ← printRows s 0 (teamOrder s) (frozenProblems s);
  Ok (setFrozenProblems s fp, rows).

(** ** Registration and start *)

Definition addTeam (teamName : string) (s : System) : System * list string :=
  if competitionStarted s then
    (s, ["[Error]Add failed: competition has started."])
  else if decide (is_Some (teams s !! teamName)) then
    (s, ["[Error]Add failed: duplicated team name."])
  else
    (mkSystem (competitionStarted s) (isFrozen s) (durationTime s) (problemCount s)
              (problemNames s) (<[teamName := newTeam teamName]> (teams s))
              (submissions s) (teamOrder s ++ [teamName]) (frozenProblems s),
     ["[Info]Add successfully."]).

(** [string(1, 'A' + i)] for [i] in [0 .. problemCnt - 1]. *)
Definition generatedNames (problemCnt : Z) : list string :=
  List.map (λ i, String (ascii_of_nat (65 + i)) EmptyString)
           (seq 0 (Z.to_nat problemCnt)).

(** The body of the initialisation loop for one problem. *)
Definition initProblem (t : Team) (problem : string) : Team :=
  mkTeam (name t) (solvedCount t) (penaltyTime t)
         (<[problem := 0]> (wrongSubmissions t))
         (<[problem := 0]> (firstAcceptTime t))
         (<[problem := false]> (isSolved t))
         (<[problem := 0]> (totalSubmissions t))
         (<[problem := 0]> (frozenSubmissions t)).

Definition initTeam (problems : list string) (t : Team) : Team :=
  fold_left initProblem problems t.

Definition startCompetition (duration problemCnt : Z) (s : System)
    : System * list string :=
  if competitionStarted s then
    (s, ["[Error]Start failed: competition has started."])
  else
    let names := problemNames s ++ generatedNames problemCnt in
    (mkSystem true (isFrozen s) duration problemCnt names
              (initTeam names <$> teams s)
              (submissions s) (teamOrder s) (frozenProblems s),
     ["[Info]Competition starts."]).

(** ** Submissions *)

Definition setTotalSubmissions (t : Team) (m : gmap string Z) : Team :=
  mkTeam (name t) (solvedCount t) (penaltyTime t) (wrongSubmissions t)
         (firstAcceptTime t) (isSolved t) m (frozenSubmissions t).

Definition setFrozenSubmissions (t : Team) (m : gmap string Z) : Team :=
  mkTeam (name t) (solvedCount t) (penaltyTime t) (wrongSubmissions t)
         (firstAcceptTime t) (isSolved t) (totalSubmissions t) m.

Definition setWrongSubmissions (t : Team) (m : gmap string Z) : Team :=
  mkTeam (name t) (solvedCount t) (penaltyTime t) m
         (firstAcceptTime t) (isSolved t) (totalSubmissions t) (frozenSubmissions t).

Definition setIsSolved (t : Team) (m : gmap string bool) : Team :=
  mkTeam (name t) (solvedCount t) (penaltyTime t) (wrongSubmissions t)
         (firstAcceptTime t) m (totalSubmissions t) (frozenSubmissions t).

(** The three assignments that precede the penalty update, in both
    [submitProblem] and [scrollScoreboard]:
    [isSolved[p] = true; firstAcceptTime[p] = time; solvedCount++]. *)
Definition markSolved (t : Team) (problem : string) (time : Z) : Team :=
  mkTeam (name t) (solvedCount t + 1) (penaltyTime t) (wrongSubmissions t)
         (<[problem := time]> (firstAcceptTime t))
         (<[problem := true]> (isSolved t))
         (totalSubmissions t) (frozenSubmissions t).

(** [penaltyTime += getProblemPenalty(p)] *)
Definition addPenalty (t : Team) (problem : string) : Res Team :=
  pen ← getProblemPenalty t problem;
  Ok (mkTeam (name t) (solvedCount t) (penaltyTime t + pen) (wrongSubmissions t)
             (firstAcceptTime t) (isSolved t) (totalSubmissions t)
             (frozenSubmissions t)).

(** The solved-state transition. *)
Definition solveProblem (t : Team) (problem : string) (time : Z) : Res Team :=
  addPenalty (markSolved t problem time) problem.

Definition submitProblem (problemName teamName statusStr : string) (time : Z)
    (s : System) : Res System :=
  let status := stringToStatus statusStr in
  let subs := submissions s ++ [mkSubmission teamName problemName status time] in
  let team0 := getTeam s teamName in
  let team1 := setTotalSubmissions team0 (mapIncr (totalSubmissions team0) problemName) in
  let solved := mapGet false (isSolved team1) problemName in
  let team2 := setIsSolved team1 (touch false (isSolved team1) problemName) in
  if isFrozen s && negb solved then
    let team3 := setFrozenSubmissions team2 (mapIncr (frozenSubmissions team2) problemName) in
    let fp := if decide (status = ACCEPTED)
              then <[teamName := {[problemName]} ∪ frozenSet (frozenProblems s) teamName]>
                     (frozenProblems s)
              else frozenProblems s in
    Ok (mkSystem (competitionStarted s) (isFrozen s) (durationTime s) (problemCount s)
                 (problemNames s) (<[teamName := team3]> (teams s)) subs
                 (teamOrder s) fp)
  else
    team3 ← (if negb solved then
               if decide (status = ACCEPTED) then solveProblem team2 problemName time
               else Ok (setWrongSubmissions team2
                          (mapIncr (wrongSubmissions team2) problemName))
             else Ok team2);
    Ok (mkSystem (competitionStarted s) (isFrozen s) (durationTime s) (problemCount s)
                 (problemNames s) (<[teamName := team3]> (teams s)) subs
                 (teamOrder s) (frozenProblems s)).

(** ** Flush and freeze *)

Definition flushScoreboard (s : System) : Res (System * list string) :=
  s1 ← updateRankings s;
  '(s2, rows) ← printScoreboard s1;
  Ok (s2, "[Info]Flush scoreboard." :: rows).

Definition freezeScoreboard (s : System) : System * list string :=
  if isFrozen s then
    (s, ["[Error]Freeze failed: scoreboard has been frozen."])
  else
    (setIsFrozen s true, ["[Info]Freeze scoreboard."]).

(** ** Scroll *)

(** The least element of a frozen-problem set under [std::string]'s [<]:
    the loop of the source starts from [*begin()] and keeps any smaller
    element it meets. *)
Definition smallest (set : gset string) : string :=
  match elements set with
  | [] => ""
  | x :: xs => fold_left (λ m p, if String.ltb p m then p else m) xs x
  end.

(** The scan [for (i = size - 1; i >= 0; --i)], on the reversed order: the
    first team with a non-empty set and its smallest problem, or two empty
    strings.  Every team looked at gets an entry in [frozenProblems]. *)
Fixpoint findFrozenTeam (revOrder : list string) (fp : gmap string (gset string))
    : string * string * gmap string (gset string) :=
  match revOrder with
  | [] => ("", "", fp)
  | teamName :: rest =>
      if decide (frozenSet fp teamName = ∅)
      then findFrozenTeam rest (touch ∅ fp teamName)
      else (teamName, smallest (frozenSet fp teamName), touch ∅ fp teamName)
  end.

(** The search of the log for the first accepted submission: [-1] when
    there is none. *)
Definition firstACStep (teamToUnfreeze problemToUnfreeze : string)
    (firstACTime : Z) (submission : Submission) : Z :=
  if String.eqb (sub_teamName submission) teamToUnfreeze
     && String.eqb (sub_problemName submission) problemToUnfreeze
     && bool_decide (sub_status submission = ACCEPTED)
     && (sub_time submission >? 0)
  then if (firstACTime =? -1) || (sub_time submission <? firstACTime)
       then sub_time submission else firstACTime
  else firstACTime.

Definition findFirstAC (subs : list Submission)
    (teamToUnfreeze problemToUnfreeze : string) : Z :=
  fold_left (firstACStep teamToUnfreeze problemToUnfreeze) subs (-1).

(** The team just before the first occurrence of [t] in [oldOrder]; the
    empty string when [t] is first or absent. *)
Fixpoint findReplaced (prev : string) (oldOrder : list string) (t : string) : string :=
  match oldOrder with
  | [] => ""
  | x :: rest => if String.eqb x t then prev else findReplaced x rest t
  end.

(** One iteration of the [while (true)] loop after the team and problem
    were chosen: the reveal of [problemToUnfreeze] for [teamToUnfreeze].
    Returns the new state and the ranking changes recorded (none or one). *)
Definition revealStep (teamToUnfreeze problemToUnfreeze : string) (s : System)
    : Res (System * list (string * string)) :=
  let team0 := getTeam s teamToUnfreeze in
  let fp := <[teamToUnfreeze :=
                frozenSet (frozenProblems s) teamToUnfreeze ∖ {[problemToUnfreeze]}]>
              (frozenProblems s) in
  let frozenCount := mapGet 0 (frozenSubmissions team0) problemToUnfreeze in
  let team1 := setFrozenSubmissions team0
                 (touch 0 (frozenSubmissions team0) problemToUnfreeze) in
  let s1 := setFrozenProblems s fp in
  '(s2, changes) ←
    (if frozenCount >? 0 then
       let firstACTime :=
         findFirstAC (submissions s) teamToUnfreeze problemToUnfreeze in
       if negb (firstACTime =? -1) then
         team2 ← solveProblem team1 problemToUnfreeze firstACTime;
         let oldOrder := teamOrder s1 in
         s' ← updateRankings (setTeams s1 (<[teamToUnfreeze := team2]> (teams s1)));
         if decide (oldOrder = teamOrder s') then Ok (s', [])
         else
           let replacedTeam := findReplaced "" oldOrder teamToUnfreeze in
           if String.eqb replacedTeam "" then Ok (s', [])
           else Ok (s', [(teamToUnfreeze, replacedTeam)])
       else Ok (setTeams s1 (<[teamToUnfreeze := team1]> (teams s1)), [])
     else Ok (setTeams s1 (<[teamToUnfreeze := team1]> (teams s1)), []));
  let team := getTeam s2 teamToUnfreeze in
  Ok (setTeams s2 (<[teamToUnfreeze :=
                       setFrozenSubmissions team
                         (<[problemToUnfreeze := 0]> (frozenSubmissions team))]>
                     (teams s2)),
      changes).

(** The [while (true)] loop.  [fuel] bounds the number of iterations; see
    [scrollLoop_enough_fuel]. *)
Fixpoint scrollLoop (fuel : nat) (s : System) (rankingChanges : list (string * string))
    : Res (System * list (string * string)) :=
  match fuel with
  | O => Fuel
  | S fuel' =>
      let '(teamToUnfreeze, problemToUnfreeze, fp) :=
        findFrozenTeam (rev (teamOrder s)) (frozenProblems s) in
      let s0 := setFrozenProblems s fp in
      if String.eqb teamToUnfreeze "" then Ok (s0, rankingChanges)
      else
        '(s1, changes) ← revealStep teamToUnfreeze problemToUnfreeze s0;
        scrollLoop fuel' s1 (rankingChanges ++ changes)
  end.

(** The number of reveals still to come: frozen problems of ranked teams. *)
Definition frozenTotal (s : System) : nat :=
  sum_list (List.map (λ t, size (frozenSet (frozenProblems s) t)) (teamOrder s)).

Definition changeLine (s : System) (c : string * string) : string :=
  line [c.1; " "; c.2; " "; showZ (solvedCount (getTeam s c.1)); " ";
        showZ (penaltyTime (getTeam s c.1))].

Definition scrollScoreboard (s : System) : Res (System * list string) :=
  if negb (isFrozen s) then
    Ok (s, ["[Error]Scroll failed: scoreboard has not been frozen."])
  else
    s1 ← updateRankings s;
    '(s2, before) ← printScoreboard s1;
    '(s3, rankingChanges) ← scrollLoop (S (frozenTotal s2)) s2 [];
    '(s4, after) ← printScoreboard s3;
    Ok (setFrozenProblems (setIsFrozen s4 false) ∅,
        "[Info]Scroll scoreboard." :: before
          ++ List.map (changeLine s3) rankingChanges ++ after).

(** ** Queries *)

Fixpoint findRank (ranking : Z) (order : list string) (teamName : string) : option Z :=
  match order with
  | [] => None
  | n :: rest =>
      if String.eqb n teamName then Some ranking
      else findRank (ranking + 1) rest teamName
  end.

Definition queryRanking (teamName : string) (s : System) : list string :=
  if decide (teams s !! teamName = None) then
    ["[Error]Query ranking failed: cannot find the team."]
  else
    "[Info]Complete query ranking."
    :: (if isFrozen s
        then ["[Warning]Scoreboard is frozen. The ranking may be inaccurate until it were scrolled."]
        else [])
    ++ match findRank 1 (teamOrder s) teamName with
       | Some ranking => [line [teamName; " NOW AT RANKING "; showZ ranking]]
       | None => []
       end.

Definition submissionMatches (teamName problemName statusStr : string)
    (it : Submission) : bool :=
  let targetStatus :=
    if String.eqb statusStr "ALL" then ACCEPTED else stringToStatus statusStr in
  let allProblems := String.eqb problemName "ALL" in
  let allStatuses := String.eqb statusStr "ALL" in
  String.eqb (sub_teamName it) teamName
  && (allProblems || String.eqb (sub_problemName it) problemName)
  && (allStatuses || bool_decide (sub_status it = targetStatus)).

Definition submissionLine (m : Submission) : string :=
  line [sub_teamName m; " "; sub_problemName m; " ";
        statusToString (sub_status m); " "; showZ (sub_time m)].

Definition querySubmission (teamName problemName statusStr : string) (s : System)
    : list string :=
  if decide (teams s !! teamName = None) then
    ["[Error]Query submission failed: cannot find the team."]
  else
    "[Info]Complete query submission."
    :: match List.find (submissionMatches teamName problemName statusStr)
                       (rev (submissions s)) with
       | None => ["Cannot find any submission."]
       | Some lastMatch => [submissionLine lastMatch]
       end.

Definition endCompetition : list string := ["[Info]Competition ends."].

(** ** The command loop of [main] *)

Inductive Command :=
| ADDTEAM (teamName : string)
| START (duration problemCnt : Z)
| SUBMIT (problemName teamName statusStr : string) (time : Z)
| FLUSH
| FREEZE
| SCROLL
| QUERY_RANKING (teamName : string)
| QUERY_SUBMISSION (teamName problemName statusStr : string)
| END.

Definition step (c : Command) (s : System) : Res (System * list string) :=
  match c with
  | ADDTEAM teamName => Ok (addTeam teamName s)
  | START duration problemCnt => Ok (startCompetition duration problemCnt s)
  | SUBMIT problemName teamName statusStr time =>
      s' ← submitProblem problemName teamName statusStr time s; Ok (s', [])
  | FLUSH => flushScoreboard s
  | FREEZE => Ok (freezeScoreboard s)
  | SCROLL => scrollScoreboard s
  | QUERY_RANKING teamName => Ok (s, queryRanking teamName s)
  | QUERY_SUBMISSION teamName problemName statusStr =>
      Ok (s, querySubmission teamName problemName statusStr s)
  | END => Ok (s, endCompetition)
  end.

(** [run cs s]: the state and the output after the commands [cs]; [END]
    leaves the loop. *)
Fixpoint run (cs : list Command) (s : System) : Res (System * list string) :=
  match cs with
  | [] => Ok (s, [])
  | END :: _ => Ok (s, endCompetition)
  | c :: rest =>
      '(s1, out1) ← step c s;
      '(s2, out2) ← run rest s1;
      Ok (s2, out1 ++ out2)
  end.

(** ** Specification-level vocabulary *)

(** A boolean comparator read as a relation. *)
Definition holds {A} (f : A → A → bool) : relation A := λ a b, f a b = true.

(** What the per-problem maps of a team say about a problem; a missing
    entry reads as the value-initialised default. *)
Definition solved (t : Team) (p : string) : bool := mapGet false (isSolved t) p.
Definition wrongCount (t : Team) (p : string) : Z := mapGet 0 (wrongSubmissions t) p.
Definition acceptTime (t : Team) (p : string) : Z := mapGet 0 (firstAcceptTime t) p.
Definition frozenPending (t : Team) (p : string) : Z := mapGet 0 (frozenSubmissions t) p.
Definition submitted (t : Team) (p : string) : Z := mapGet 0 (totalSubmissions t) p.

(** The share of a solved problem in the penalty time. *)
Definition contribution (t : Team) (p : string) : Z :=
  20 * wrongCount t p + acceptTime t p.

Definition sumZ (l : list Z) : Z := foldr Z.add 0 l.

(** The acceptance times of the solved problems, largest first: the value
    of [getSolveTimes] when it does not throw ([getSolveTimes_pure]). *)
Definition solveTimes (t : Team) : list Z :=
  sortDesc (acceptTime t <$> solvedProblems t).

(** The comparator of [updateRankings] when it does not throw
    ([rankBefore_pure]). *)
Definition ranksBefore (s : System) (a b : string) : bool :=
  let teamA := getTeam s a in
  let teamB := getTeam s b in
  if negb (solvedCount teamA =? solvedCount teamB)
  then solvedCount teamA >? solvedCount teamB
  else if negb (penaltyTime teamA =? penaltyTime teamB)
  then penaltyTime teamA <? penaltyTime teamB
  else match firstDiff (solveTimes teamA) (solveTimes teamB) with
       | Some (x, y) => x <? y
       | None => String.ltb a b
       end.

(** The ranking rule in the words of the specification: more problems
    solved; then less penalty time; then the smaller acceptance time at the
    first position where the descending lists of acceptance times differ;
    then the lexicographically smaller name. *)
Definition RankedBefore (s : System) (a b : string) : Prop :=
  let teamA := getTeam s a in
  let teamB := getTeam s b in
  solvedCount teamA > solvedCount teamB
  ∨ (solvedCount teamA = solvedCount teamB
     ∧ (penaltyTime teamA < penaltyTime teamB
        ∨ (penaltyTime teamA = penaltyTime teamB
           ∧ ((∃ (i : nat) (x y : Z),
                  take i (solveTimes teamA) = take i (solveTimes teamB)
                  ∧ solveTimes teamA !! i = Some x
                  ∧ solveTimes teamB !! i = Some y
                  ∧ x < y)
              ∨ (solveTimes teamA = solveTimes teamB
                 ∧ String.ltb a b = true))))).

(** The last two levels of the comparator: solve times, then names. *)
Definition tieBreak (a b : string) (timesA timesB : list Z) : bool :=
  match firstDiff timesA timesB with
  | Some (x, y) => x <? y
  | None => String.ltb a b
  end.

(** The solved counter of the team named [a] agrees with its [isSolved]
    map. *)
Definition countOk (s : System) (a : string) : Prop :=
  solvedCount (getTeam s a) = Z.of_nat (length (solvedProblems (getTeam s a))).

(** What membership in a frozen-problem set records: submissions of the
    team on the problem are pending, and one of them, in the log, is
    Accepted. *)
Record FrozenInv (s : System) : Prop := {
  fz_nonneg : ∀ n p, 0 ≤ frozenPending (getTeam s n) p;
  fz_pending : ∀ n p, p ∈ frozenSet (frozenProblems s) n →
                      0 < frozenPending (getTeam s n) p;
  fz_logged : ∀ n p, p ∈ frozenSet (frozenProblems s) n →
                     ∃ time, mkSubmission n p ACCEPTED time ∈ submissions s
}.

(** ** The cases of a submission

    The record of the submitting team after [submitProblem], case by case
    ([submitProblem_cases]). *)

(** Board frozen, problem not solved: the submission is parked. *)
Definition applyFrozen (t : Team) (p : string) : Team :=
  mkTeam (name t) (solvedCount t) (penaltyTime t) (wrongSubmissions t)
         (firstAcceptTime t) (touch false (isSolved t) p)
         (mapIncr (totalSubmissions t) p) (mapIncr (frozenSubmissions t) p).

(** Problem already solved: only the submission counter moves. *)
Definition applySolved (t : Team) (p : string) : Team :=
  mkTeam (name t) (solvedCount t) (penaltyTime t) (wrongSubmissions t)
         (firstAcceptTime t) (touch false (isSolved t) p)
         (mapIncr (totalSubmissions t) p) (frozenSubmissions t).

(** Board not frozen, problem not solved, outcome not Accepted. *)
Definition applyWrong (t : Team) (p : string) : Team :=
  mkTeam (name t) (solvedCount t) (penaltyTime t)
         (mapIncr (wrongSubmissions t) p)
         (firstAcceptTime t) (touch false (isSolved t) p)
         (mapIncr (totalSubmissions t) p) (frozenSubmissions t).

(** Board not frozen, problem not solved, outcome Accepted. *)
Definition applyAccepted (t : Team) (p : string) (time : Z) : Team :=
  mkTeam (name t) (solvedCount t + 1)
         (penaltyTime t + (20 * wrongCount t p + time))
         (wrongSubmissions t)
         (<[p := time]> (firstAcceptTime t))
         (<[p := true]> (touch false (isSolved t) p))
         (mapIncr (totalSubmissions t) p) (frozenSubmissions t).

(** The state in which team [n] has the record [t], the log is [subs] and
    the frozen-problem sets are [fp]; everything else as in [s]. *)
Definition updated (s : System) (n : string) (t : Team)
    (subs : list Submission) (fp : gmap string (gset string)) : System :=
  mkSystem (competitionStarted s) (isFrozen s) (durationTime s) (problemCount s)
           (problemNames s) (<[n := t]> (teams s)) subs (teamOrder s) fp.

(** The log after a submission. *)
Definition logged (s : System) (problemName teamName statusStr : string) (time : Z)
    : list Submission :=
  submissions s ++ [mkSubmission teamName problemName (stringToStatus statusStr) time].

(** ** The scoreboard as a function of the state *)

(** The text of one cell, given what the team's maps say and the team's
    frozen-problem set: what [printCell] prints when the slots exist
    ([printCell_pure]). *)
Definition cellText (t : Team) (frozen : gset string) (p : string) : string :=
  if solved t p then
    if wrongCount t p =? 0 then "+" else line ["+"; showZ (wrongCount t p)]
  else if decide (p ∈ frozen) then
    if wrongCount t p =? 0 then line ["0/"; showZ (frozenPending t p)]
    else line ["-"; showZ (wrongCount t p); "/"; showZ (frozenPending t p)]
  else
    if wrongCount t p =? 0 then "." else line ["-"; showZ (wrongCount t p)].

(** The row of team [n] at 0-based position [i]. *)
Definition rowText (s : System) (i : nat) (n : string) : string :=
  line ([n; " "; showZ (Z.of_nat (i + 1)); " ";
         showZ (solvedCount (getTeam s n)); " ";
         showZ (penaltyTime (getTeam s n))]
        ++ List.map (λ c, line [" "; c])
             (cellText (getTeam s n) (frozenSet (frozenProblems s) n)
                <$> problemNames s)).

Definition boardText (s : System) : list string :=
  imap (rowText s) (teamOrder s).

(** Two [frozenProblems] maps that read the same. *)
Definition sameFrozen (fp fp' : gmap string (gset string)) : Prop :=
  ∀ n, frozenSet fp' n = frozenSet fp n.

(** ** The cases of a reveal

    The record of the revealed team after [revealStep]
    ([revealStep_Ok]). *)

(** The reveal found an accepted submission: the solved-state transition
    with its time, and the frozen counter back to zero. *)
Definition revealSolved (t : Team) (p : string) (time : Z) : Team :=
  mkTeam (name t) (solvedCount t + 1)
         (penaltyTime t + (20 * wrongCount t p + time))
         (wrongSubmissions t)
         (<[p := time]> (firstAcceptTime t))
         (<[p := true]> (isSolved t))
         (totalSubmissions t)
         (<[p := 0]> (frozenSubmissions t)).

(** The reveal found none: only the frozen counter goes back to zero. *)
Definition revealUnsolved (t : Team) (p : string) : Team :=
  setFrozenSubmissions t (<[p := 0]> (frozenSubmissions t)).

(** The frozen-problem sets after the reveal of [p] for team [n]. *)
Definition revealedFrozen (s : System) (n p : string) : gmap string (gset string) :=
  <[n := frozenSet (frozenProblems s) n ∖ {[p]}]> (frozenProblems s).

(** The ranking changes [revealStep] records when the order goes from
    [oldOrder] to [newOrder]. *)
Definition recordedChanges (oldOrder newOrder : list string) (n : string)
    : list (string * string) :=
  if decide (oldOrder = newOrder) then []
  else if String.eqb (findReplaced "" oldOrder n) "" then []
  else [(n, findReplaced "" oldOrder n)].

(** ** Invariants *)

(** What every team record satisfies in a contest run. *)
Record TeamInv (t : Team) : Prop := {
  wrong_nonneg : ∀ p, 0 ≤ wrongCount t p;
  solved_has_wrong : ∀ p, solved t p = true → is_Some (wrongSubmissions t !! p);
  solved_has_time : ∀ p, solved t p = true → is_Some (firstAcceptTime t !! p);
  count_ok : solvedCount t = Z.of_nat (length (solvedProblems t));
  penalty_ok : penaltyTime t = sumZ (contribution t <$> solvedProblems t)
}.

(** [t] has an entry for [p] in each of the maps the scoreboard reads
    with [at]. *)
Definition hasSlots (t : Team) (p : string) : Prop :=
  is_Some (isSolved t !! p) ∧ is_Some (wrongSubmissions t !! p)
  ∧ is_Some (frozenSubmissions t !! p).

Record Inv (s : System) : Prop := {
  inv_teams : ∀ n t, teams s !! n = Some t → TeamInv t;
  inv_order : ∀ n, n ∈ teamOrder s → is_Some (teams s !! n);
  inv_nodup : NoDup (teamOrder s);
  inv_slots : ∀ n p, n ∈ teamOrder s → p ∈ problemNames s →
                     hasSlots (getTeam s n) p;
  inv_frozen_unsolved : ∀ n p, p ∈ frozenSet (frozenProblems s) n →
                               solved (getTeam s n) p = false;
  inv_unfrozen : isFrozen s = false → ∀ n, frozenSet (frozenProblems s) n = ∅;
  inv_prestart : competitionStarted s = false →
                 problemNames s = []
                 ∧ (∀ n t, teams s !! n = Some t → t = newTeam n)
                 ∧ (∀ n, frozenSet (frozenProblems s) n = ∅)
}.

(** ** Contest runs *)

(** No [SUBMIT] comes before the first [START] (commands after [END] are
    never run).  [submitProblem] itself does not look at
    [competitionStarted]; a contest feeds submissions only once the contest
    has started, and the invariants are stated for such runs. *)
Fixpoint submitsAfterStart (cs : list Command) : bool :=
  match cs with
  | [] => true
  | START _ _ :: _ => true
  | END :: _ => true
  | SUBMIT _ _ _ _ :: _ => false
  | _ :: rest => submitsAfterStart rest
  end.

(** The states of contest runs. *)
Definition reachable (s : System) : Prop :=
  ∃ cs out, submitsAfterStart cs = true ∧ run cs initialSystem = Ok (s, out).

(** The state after the commands [cs], when they run without throwing. *)
Definition stateAfter (cs : list Command) : System :=
  match run cs initialSystem with
  | Ok (s, _) => s
  | _ => initialSystem
  end.

(** The output of the commands [cs], when they run without throwing. *)
Definition outputOf (cs : list Command) : list string :=
  match run cs initialSystem with
  | Ok (_, out) => out
  | _ => []
  end.

(** ** Errors and filters *)

Inductive ErrorKind :=
| DuplicateTeam
| CompetitionAlreadyStarted
| AlreadyFrozen
| NotFrozen
| TeamNotFoundRanking
| TeamNotFoundSubmission.

(** The line each error is reported with. *)
Definition errorMessage (e : ErrorKind) : string :=
  match e with
  | DuplicateTeam => "[Error]Add failed: duplicated team name."
  | CompetitionAlreadyStarted => "[Error]Add failed: competition has started."
  | AlreadyFrozen => "[Error]Freeze failed: scoreboard has been frozen."
  | NotFrozen => "[Error]Scroll failed: scoreboard has not been frozen."
  | TeamNotFoundRanking => "[Error]Query ranking failed: cannot find the team."
  | TeamNotFoundSubmission => "[Error]Query submission failed: cannot find the team."
  end.

(** A logged submission matches a query for [teamName], a problem filter
    (a problem name or ["ALL"]) and the status [status]. *)
Definition matchesFilter (teamName problemFilter : string) (status : Status)
    (m : Submission) : Prop :=
  sub_teamName m = teamName
  ∧ (problemFilter = "ALL" ∨ sub_problemName m = problemFilter)
  ∧ sub_status m = status.

(** [m] is the newest entry of [log] with the property [P]. *)
Definition newestWith (P : Submission → Prop) (log : list Submission)
    (m : Submission) : Prop :=
  ∃ older newer, log = older ++ m :: newer ∧ P m ∧ Forall (λ x, ¬ P x) newer.

(** ** What the reveal looks for in the log *)


(** ** Sample runs *)

(** One team, one problem; the board is frozen before anything was
    submitted and the team's Accepted submission carries the time 0. *)
Definition acceptedAtZero : list Command :=
  [ADDTEAM "t"; START 10 1; FREEZE; SUBMIT "A" "t" "Accepted" 0].

(** ** The scoreboard cells in the words of the specification *)

(** Solved: [+], with the wrong count when it is positive. *)
Definition solvedForm (wrong : Z) : string :=
  if 0 <? wrong then line ["+"; showZ wrong] else "+".

(** Frozen-pending: wrong count before the freeze, a slash, the pending
    count; the wrong count is written [-w] when positive and [0]
    otherwise. *)
Definition frozenForm (wrongBefore frozenCount : Z) : string :=
  if 0 <? wrongBefore then line ["-"; showZ wrongBefore; "/"; showZ frozenCount]
  else line ["0/"; showZ frozenCount].

(** Unsolved and not frozen: [.], or [-w] when the wrong count is
    positive. *)
Definition plainForm (wrong : Z) : string :=
  if 0 <? wrong then line ["-"; showZ wrong] else ".".

(** The cell of problem [p]; [frozen] is the team's frozen-problem set. *)
Definition cellSpec (t : Team) (frozen : gset string) (p : string) : string :=
  if solved t p then solvedForm (wrongCount t p)
  else if decide (p ∈ frozen) then frozenForm (wrongCount t p) (frozenPending t p)
  else plainForm (wrongCount t p).

Definition rowSpec (s : System) (i : nat) (n : string) : string :=
  line ([n; " "; showZ (Z.of_nat (i + 1)); " ";
         showZ (solvedCount (getTeam s n)); " ";
         showZ (penaltyTime (getTeam s n))]
        ++ List.map (λ c, line [" "; c])
             (cellSpec (getTeam s n) (frozenSet (frozenProblems s) n)
                <$> problemNames s)).

Definition boardSpec (s : System) : list string :=
  imap (rowSpec s) (teamOrder s).

(** One team, one problem; the team's only submission is a wrong answer
    received while the board is frozen. *)
Definition wrongWhileFrozen : list Command :=
  [ADDTEAM "t"; START 10 1; FREEZE; SUBMIT "A" "t" "Wrong_Answer" 5].

(** ** Monotonicity vocabulary *)

(** No wrong count is negative. *)
Definition wrongNonneg (s : System) : Prop :=
  ∀ n p, 0 ≤ wrongCount (getTeam s n) p.








(** ** The states a contest passes through *)

(** The registry after a command: a name joins it when its ADDTEAM was
    acknowledged. *)
Definition registryAfter (registry : list string) (c : Command) (out : list string)
    : list string :=
  match c with
  | ADDTEAM n =>
      if decide (out = ["[Info]Add successfully."]) then registry ++ [n] else registry
  | _ => registry
  end.

(** [visited registry s]: the program is in state [s], between two
    commands or between two steps of SCROLL, in a run in which no
    submission came before the start, and [registry] lists the teams whose
    registration was acknowledged. *)
Inductive visited : list string → System → Prop :=
| visited_initial : visited [] initialSystem
| visited_command registry c s s' out :
    visited registry s →
    (∀ p n st time, c = SUBMIT p n st time → competitionStarted s = true) →
    step c s = Ok (s', out) →
    visited (registryAfter registry c out) s'
| visited_ranking registry s s' :
    visited registry s → updateRankings s = Ok s' → visited registry s'
| visited_scan registry s fp :
    visited registry s → sameFrozen (frozenProblems s) fp →
    visited registry (setFrozenProblems s fp)
| visited_reveal registry s n p s' changes :
    visited registry s →
    n ∈ teamOrder s → p ∈ frozenSet (frozenProblems s) n →
    revealStep n p s = Ok (s', changes) →
    visited registry s'.

(** The registry after the commands [cs], run from [s]. *)
Fixpoint registryOf (cs : list Command) (s : System) (registry : list string)
    : list string :=
  match cs with
  | [] => registry
  | END :: _ => registry
  | c :: rest =>
      match step c s with
      | Ok (s', out) => registryOf rest s' (registryAfter registry c out)
      | _ => registry
      end
  end.

(** The commands [cs] run without throwing. *)
Definition runsOk (cs : list Command) : bool :=
  match run cs initialSystem with
  | Ok _ => true
  | _ => false
  end.

(** Three teams; the last in the ranking solves both problems while the
    board is frozen, the first of them earlier than anyone else. *)
Definition threeTeams : list Command :=
  [ADDTEAM "a"; ADDTEAM "b"; ADDTEAM "c"; START 100 2;
   SUBMIT "A" "a" "Accepted" 10; SUBMIT "A" "b" "Accepted" 20;
   FLUSH; FREEZE;
   SUBMIT "A" "c" "Accepted" 5; SUBMIT "B" "c" "Accepted" 40].


(** The ranking order agrees with the ranking rule. *)
Definition Ranked (s : System) : Prop :=
  StronglySorted (RankedBefore s) (teamOrder s).



(** ** Counting wrong attempts along a run *)

(** The command [c], applied in state [s], is a submission of team [n] on
    problem [p] with an outcome other than Accepted, applied while the
    board is not frozen and before the team has solved the problem. *)
Definition wrongApplied (c : Command) (s : System) (n p : string) : bool :=
  match c with
  | SUBMIT problemName teamName statusStr _ =>
      String.eqb problemName p && String.eqb teamName n
      && negb (bool_decide (stringToStatus statusStr = ACCEPTED))
      && negb (isFrozen s) && negb (solved (getTeam s n) p)
  | _ => false
  end.

(** The number of such submissions among the commands [cs], run from
    [s]. *)
Fixpoint countWrong (n p : string) (cs : list Command) (s : System) : Z :=
  match cs with
  | [] => 0
  | END :: _ => 0
  | c :: rest =>
      match step c s with
      | Ok (s', _) =>
          (if wrongApplied c s n p then 1 else 0) + countWrong n p rest s'
      | _ => 0
      end
  end.


(** ** Contest input *)

(** [accepts s c]: in state [s] the command [c] is one a contest feeds.  A
    submission names a team of the ranking and a problem of the contest;
    nothing is asked of the other commands. *)
Definition accepts (s : System) (c : Command) : bool :=
  match c with
  | SUBMIT problemName teamName _ _ =>
      bool_decide (teamName ∈ teamOrder s) && bool_decide (problemName ∈ problemNames s)
  | _ => true
  end.

(** Every command of [cs], run from [s], is accepted by the state it is
    applied in.  Nothing is asked of the commands after one that throws, so
    the definition does not say that the run goes through: that is
    [run_total]. *)
Fixpoint contestInput (cs : list Command) (s : System) : bool :=
  match cs with
  | [] => true
  | END :: _ => true
  | c :: rest =>
      accepts s c
      && match step c s with
         | Ok (s', _) => contestInput rest s'
         | _ => true
         end
  end.

(** Every frozen problem has a wrong-count entry in its team's record, the
    entry [getProblemPenalty] reads with [at] when the problem is
    revealed. *)
Definition Revealable (s : System) : Prop :=
  ∀ n p, p ∈ frozenSet (frozenProblems s) n →
         is_Some (wrongSubmissions (getTeam s n) !! p).

(** A short contest: two teams, a freeze, a scroll, queries. *)
Definition shortContest : list Command :=
  [ADDTEAM "x"; ADDTEAM "y"; START 60 2;
   SUBMIT "A" "x" "Wrong_Answer" 3; SUBMIT "A" "x" "Accepted" 9;
   FREEZE; SUBMIT "B" "y" "Accepted" 20; SUBMIT "A" "y" "Time_Limit_Exceed" 25;
   FLUSH; SCROLL; QUERY_RANKING "y"; QUERY_SUBMISSION "y" "ALL" "ALL"; END].

(** Every name of the ranking order has a record in [teams]: what makes
    the reads [teams[name]] of the comparator and of the printer plain
    lookups ([run_orderRegistered]). *)
Definition orderRegistered (s : System) : Prop :=
  ∀ n, n ∈ teamOrder s → is_Some (teams s !! n).

(** ** The latest solve time *)



(** ** Queries in the words of their filters *)

(** A logged submission answers the query of [teamName] with the problem
    filter [problemName] and the status filter [statusStr]; either filter
    may be ["ALL"]. *)
Definition matchesQuery (teamName problemName statusStr : string) (m : Submission) : Prop :=
  sub_teamName m = teamName
  ∧ (problemName = "ALL" ∨ sub_problemName m = problemName)
  ∧ (statusStr = "ALL" ∨ sub_status m = stringToStatus statusStr).

(** The line [queryRanking] prints for a team at position [ranking]. *)
Definition rankingLine (teamName : string) (ranking : Z) : string :=
  line [teamName; " NOW AT RANKING "; showZ ranking].

(** The warning [queryRanking] adds while the board is frozen. *)
Definition frozenWarning (s : System) : list string :=
  if isFrozen s
  then ["[Warning]Scoreboard is frozen. The ranking may be inaccurate until it were scrolled."]
  else [].

(** The five per-problem entries of [t] for [p] are the ones START
    writes. *)
Definition freshSlots (t : Team) (p : string) : Prop :=
  wrongSubmissions t !! p = Some 0 ∧ firstAcceptTime t !! p = Some 0
  ∧ isSolved t !! p = Some false ∧ totalSubmissions t !! p = Some 0
  ∧ frozenSubmissions t !! p = Some 0.
(** One team and two problems; while the board is frozen the team gets a
    wrong answer on A and is accepted on B. *)
Definition wrongAndAcceptedWhileFrozen : list Command :=
  [ADDTEAM "t"; START 10 2; FREEZE;
   SUBMIT "A" "t" "Wrong_Answer" 5; SUBMIT "B" "t" "Accepted" 6].

(** From [s] to [s'] the record of every solved problem is kept: it is
    still solved, with the same acceptance time and the same wrong
    count. *)
Definition solvedRecordsKept (s s' : System) : Prop :=
  ∀ n p, solved (getTeam s n) p = true →
         solved (getTeam s' n) p = true
         ∧ acceptTime (getTeam s' n) p = acceptTime (getTeam s n) p
         ∧ wrongCount (getTeam s' n) p = wrongCount (getTeam s n) p.

(** ** Reading the command stream

    [main] reads the input line by line and takes every line apart with
    [istringstream >>].  A line is a [string] without a newline. *)

(** [std::isspace] in the "C" locale: the space and the characters 9 to
    13. *)
Definition isSpace (c : ascii) : bool :=
  let n := nat_of_ascii c in
  ((n =? 32) || ((9 <=? n) && (n <=? 13)))%nat.

Fixpoint skipSpaces (input : string) : string :=
  match input with
  | EmptyString => EmptyString
  | String c rest => if isSpace c then skipSpaces rest else input
  end.

(** The characters up to the next white space, and what follows them. *)
Fixpoint takeWord (input : string) : string * string :=
  match input with
  | EmptyString => (EmptyString, EmptyString)
  | String c rest =>
      if isSpace c then (EmptyString, input)
      else let '(w, rest') := takeWord rest in (String c w, rest')
  end.

(** [iss >> word] for a [std::string] that was empty before: white space
    is skipped, then the characters up to the next white space are taken.
    At the end of the input the extraction fails and the word stays empty,
    as every later one does. *)
Definition readWord (input : string) : string * string :=
  takeWord (skipSpaces input).

Definition isDigit (c : ascii) : bool :=
  let n := nat_of_ascii c in ((48 <=? n) && (n <=? 57))%nat.

Fixpoint takeDigits (input : string) : string * string :=
  match input with
  | EmptyString => (EmptyString, EmptyString)
  | String c rest =>
      if isDigit c then let '(d, rest') := takeDigits rest in (String c d, rest')
      else (EmptyString, input)
  end.

(** What [iss >> n] does for an [int n] that was not initialised. *)
Inductive IntRead :=
| IntValue (z : Z) (rest : string)   (* a numeral was read *)
| IntZero        (* no numeral at this place: 0 is stored and the stream fails *)
| IntUntouched   (* end of input: [n] keeps its indeterminate value *)
| IntClamped (z : Z).
    (* the numeral does not fit 32 bits: the nearest bound is stored and
       the stream fails *)

(** White space is skipped; then come an optional sign and the decimal
    digits. *)
Definition readInt (input : string) : IntRead :=
  match skipSpaces input with
  | EmptyString => IntUntouched
  | String c rest as s =>
      let '(negative, body) :=
        if Ascii.eqb c "-" then (true, rest)
        else if Ascii.eqb c "+" then (false, rest)
        else (false, s) in
      let '(digits, rest') := takeDigits body in
      match NilZero.uint_of_string digits with
      | None => IntZero
      | Some d =>
          let z := if negative then - Z.of_uint d else Z.of_uint d in
          if (-2147483648 <=? z) && (z <=? 2147483647) then IntValue z rest'
          else IntClamped (if negative then -2147483648 else 2147483647)
      end
  end.

(** [s] without [prefix] when it starts with it. *)
Fixpoint afterPrefix (prefix s : string) : option string :=
  match prefix, s with
  | EmptyString, _ => Some s
  | String a prefix', String b s' =>
      if Ascii.eqb a b then afterPrefix prefix' s' else None
  | String _ _, EmptyString => None
  end.

(** [if (s.find(prefix) == 0) s = s.substr(prefix.size());] *)
Definition stripPrefix (prefix s : string) : string :=
  default s (afterPrefix prefix s).

(** What the body of the loop of [main] does with one line: it runs a
    command, or nothing (an empty line, an unknown first word), or it uses
    an [int] that no extraction has written ([Undefined]): once an
    extraction has failed, the later ones of the line write nothing. *)
Inductive Parsed :=
| Run (c : Command)
| Skip
| Undefined.

(** The chain of comparisons on the first word of a line; [r0] is what
    follows that word. *)
Definition dispatch (command r0 : string) : Parsed :=
  if String.eqb command "ADDTEAM" then
    let '(teamName, _) := readWord r0 in Run (ADDTEAM teamName)
  else if String.eqb command "START" then
    let '(_, r1) := readWord r0 in
    match readInt r1 with
    | IntValue duration r2 =>
        let '(_, r3) := readWord r2 in
        match readInt r3 with
        | IntValue problemCount _ => Run (START duration problemCount)
        | IntZero => Run (START duration 0)
        | IntClamped bound => Run (START duration bound)
        | IntUntouched => Undefined
        end
    | _ => Undefined
    end
  else if String.eqb command "SUBMIT" then
    let '(problemName, r1) := readWord r0 in
    let '(_, r2) := readWord r1 in
    let '(teamName, r3) := readWord r2 in
    let '(_, r4) := readWord r3 in
    let '(statusStr, r5) := readWord r4 in
    let '(_, r6) := readWord r5 in
    match readInt r6 with
    | IntValue time _ => Run (SUBMIT problemName teamName statusStr time)
    | IntZero => Run (SUBMIT problemName teamName statusStr 0)
    | IntClamped bound => Run (SUBMIT problemName teamName statusStr bound)
    | IntUntouched => Undefined
    end
  else if String.eqb command "FLUSH" then Run FLUSH
  else if String.eqb command "FREEZE" then Run FREEZE
  else if String.eqb command "SCROLL" then Run SCROLL
  else if String.eqb command "QUERY_RANKING" then
    let '(teamName, _) := readWord r0 in Run (QUERY_RANKING teamName)
  else if String.eqb command "QUERY_SUBMISSION" then
    let '(teamName, r1) := readWord r0 in
    let '(_, r2) := readWord r1 in
    let '(_, r3) := readWord r2 in
    let '(problemName, r4) := readWord r3 in
    let '(_, r5) := readWord r4 in
    let '(_, r6) := readWord r5 in
    let '(statusStr, _) := readWord r6 in
    Run (QUERY_SUBMISSION teamName (stripPrefix "PROBLEM=" problemName)
           (stripPrefix "STATUS=" statusStr))
  else if String.eqb command "END" then Run END
  else Skip.

(** One turn of the loop: [if (line.empty()) continue;], then the first
    word decides. *)
Definition parseLine (l : string) : Parsed :=
  if String.eqb l "" then Skip
  else let '(command, r0) := readWord l in dispatch command r0.

(** The loop of [main] on the lines [getline] gives it: every line is
    taken apart and its command is run before the next line is read; END
    leaves the loop.  [None] when the loop comes to a line that is
    [Undefined]. *)
Fixpoint mainLoop (lines : list string) (s : System)
    : option (Res (System * list string)) :=
  match lines with
  | [] => Some (Ok (s, []))
  | l :: rest =>
      match parseLine l with
      | Skip => mainLoop rest s
      | Undefined => None
      | Run END => Some (Ok (s, endCompetition))
      | Run c =>
          match step c s with
          | Ok (s1, out1) =>
              match mainLoop rest s1 with
              | Some (Ok (s2, out2)) => Some (Ok (s2, out1 ++ out2))
              | other => other
              end
          | Throw => Some Throw
          | Fuel => Some Fuel
          end
      end
  end.

Definition main (lines : list string) : option (Res (System * list string)) :=
  mainLoop lines initialSystem.

(** The commands of the lines, all of them taken apart first. *)
Fixpoint commandsOf (lines : list string) : option (list Command) :=
  match lines with
  | [] => Some []
  | l :: rest =>
      match parseLine l with
      | Skip => commandsOf rest
      | Undefined => None
      | Run c => cs ← commandsOf rest; Some (c :: cs)
      end
  end.

(** A word: not empty, no white space in it. *)
Fixpoint noSpace (w : string) : bool :=
  match w with
  | EmptyString => true
  | String c rest => negb (isSpace c) && noSpace rest
  end.

Definition isWord (w : string) : Prop := w ≠ EmptyString ∧ noSpace w = true.

(** Words with one space between them. *)
Fixpoint joinWords (ws : list string) : string :=
  match ws with
  | [] => EmptyString
  | [w] => w
  | w :: rest => String.append w (String " " (joinWords rest))
  end.

(** What may follow a word: nothing, or white space. *)
Definition wordEnds (rest : string) : bool :=
  match rest with
  | EmptyString => true
  | String c _ => isSpace c
  end.

(** The first words the loop of [main] knows. *)
Definition commandWords : list string :=
  ["ADDTEAM"; "START"; "SUBMIT"; "FLUSH"; "FREEZE"; "SCROLL";
   "QUERY_RANKING"; "QUERY_SUBMISSION"; "END"].

(** The value fits an [int] of 32 bits. *)
Definition fitsInt (z : Z) : Prop := -2147483648 ≤ z ≤ 2147483647.

(** The word does not open a numeral: its first character is neither a
    digit nor a sign. *)
Definition opensNoNumeral (x : string) : bool :=
  match x with
  | EmptyString => false
  | String c _ => negb (isDigit c) && negb (Ascii.eqb c "-") && negb (Ascii.eqb c "+")
  end.

(** * Properties *)

(** ** The result monad *)

Lemma bindR_Ok {A B} (m : Res A) (k : A → Res B) (b : B) :
  m ≫= k = Ok b → ∃ a, m = Ok a ∧ k a = Ok b.
Proof. destruct m as [a| |]; simpl; [eauto | done | done]. Qed.

Lemma mapR_pure {A B} (f : A → Res B) (g : A → B) (l : list A) :
  (∀ a, a ∈ l → f a = Ok (g a)) → mapR f l = Ok (g <$> l).
Proof.
  induction l as [|a l IH]; intros Hf; simpl; [done|].
  rewrite Hf by left. simpl. rewrite IH; [done|].
  intros b Hb. apply Hf. by right.
Qed.

(** ** Sorting with a comparator that may throw *)

Section sorting.
Context {A : Type} (ltR : A → A → Res bool) (ltb : A → A → bool).

(** Where [insertBy] puts the new element: before the first element it
    compares less than. *)
Lemma insertBy_split (x : A) (l : list A) :
  (∀ y, y ∈ l → ltR x y = Ok (ltb x y)) →
  ∃ l1 l2, l = l1 ++ l2 ∧ insertBy ltR x l = Ok (l1 ++ x :: l2)
           ∧ (∀ y, y ∈ l1 → ltb x y = false)
           ∧ (∀ y, head l2 = Some y → ltb x y = true).
Proof.
  induction l as [|y l IH]; intros Hpure.
  - exists [], []. simpl. repeat split; [set_solver | done].
  - simpl. rewrite (Hpure y) by left. simpl.
    destruct (ltb x y) eqn:Hxy.
    + exists [], (y :: l). simpl. repeat split; [set_solver|].
      intros ? [= <-]. done.
    + destruct IH as (l1 & l2 & -> & Hins & H1 & H2).
      { intros z Hz. apply Hpure. by right. }
      exists (y :: l1), l2. rewrite Hins. simpl. repeat split; [|done].
      intros z [->|Hz]%elem_of_cons; auto.
Qed.

Lemma insertBy_sorted (x : A) (l l' : list A) :
  (∀ y, y ∈ l → ltR x y = Ok (ltb x y)) →
  (∀ y, y ∈ l → x ≠ y → ltb x y = false → ltb y x = true) →
  (∀ y z, y ∈ l → z ∈ l → ltb x y = true → ltb y z = true → ltb x z = true) →
  x ∉ l →
  StronglySorted (holds ltb) l →
  insertBy ltR x l = Ok l' →
  l' ≡ₚ x :: l ∧ StronglySorted (holds ltb) l'.
Proof.
  intros Hpure Htotal Htrans Hnotin Hsorted Hins.
  destruct (insertBy_split x l Hpure) as (l1 & l2 & -> & Hins' & H1 & H2).
  rewrite Hins' in Hins. injection Hins as <-. split.
  { by rewrite Permutation_middle. }
  apply StronglySorted_app in Hsorted as (H12 & Hs1 & Hs2).
  apply StronglySorted_app_2; [|done|].
  - intros y z Hy [->|Hz]%elem_of_cons; [|by apply H12].
    apply Htotal; [set_solver| |by apply H1].
    intros ->. apply Hnotin. set_solver.
  - constructor; [done|]. destruct l2 as [|y l2]; [constructor|].
    assert (ltb x y = true) as Hxy by by apply H2.
    constructor; [done|].
    apply StronglySorted_cons in Hs2 as [Hy _].
    rewrite Forall_forall in Hy |- *. intros z Hz.
    apply (Htrans y z); [set_solver|set_solver|done|]. by apply Hy.
Qed.

(** On a list without duplicates whose elements the comparator orders
    totally and transitively, [sortBy] returns the sorted permutation. *)
Lemma sortBy_sorted (l : list A) :
  (∀ x y, x ∈ l → y ∈ l → ltR x y = Ok (ltb x y)) →
  (∀ x y, x ∈ l → y ∈ l → x ≠ y → ltb x y = false → ltb y x = true) →
  (∀ x y z, x ∈ l → y ∈ l → z ∈ l →
            ltb x y = true → ltb y z = true → ltb x z = true) →
  NoDup l →
  ∃ l', sortBy ltR l = Ok l' ∧ l' ≡ₚ l ∧ StronglySorted (holds ltb) l'.
Proof.
  induction l as [|x l IH]; intros Hpure Htotal Htrans Hnodup.
  - exists []. repeat split; constructor.
  - apply NoDup_cons in Hnodup as [Hx Hnodup].
    destruct IH as (r & Hr & Hperm & Hsorted); [set_solver..|done|].
    simpl. rewrite Hr. simpl.
    destruct (insertBy_split x r) as (l1 & l2 & Hrsplit & Hins & _).
    { intros y Hy. rewrite Hperm in Hy. apply Hpure; set_solver. }
    destruct (insertBy_sorted x r (l1 ++ x :: l2)) as [Hp Hs]; try done.
    + intros y Hy. rewrite Hperm in Hy. apply Hpure; set_solver.
    + intros y Hy. rewrite Hperm in Hy. apply Htotal; set_solver.
    + intros y z Hy Hz. rewrite Hperm in Hy, Hz. apply Htrans; set_solver.
    + by rewrite Hperm.
    + exists (l1 ++ x :: l2). repeat split; [done| |done].
      by rewrite Hp, Hperm.
Qed.

(** A list that is already in order is left as it is. *)
Lemma sortBy_sorted_id (l : list A) :
  (∀ x y, x ∈ l → y ∈ l → ltR x y = Ok (ltb x y)) →
  StronglySorted (holds ltb) l →
  sortBy ltR l = Ok l.
Proof.
  induction l as [|x l IH]; intros Hpure Hsorted; [done|].
  apply StronglySorted_cons in Hsorted as [Hx Hsorted].
  simpl. rewrite IH; [|set_solver|done]. simpl.
  destruct l as [|y l]; [done|]. simpl.
  rewrite Hpure; [|set_solver..]. simpl.
  apply Forall_cons in Hx as [Hxy _]. unfold holds in Hxy. by rewrite Hxy.
Qed.

(** Whatever the comparator, a result of [sortBy] rearranges its input. *)
Lemma insertBy_perm (x : A) (l l' : list A) :
  insertBy ltR x l = Ok l' → l' ≡ₚ x :: l.
Proof.
  revert l'. induction l as [|y l IH]; intros l'; simpl.
  - by intros [= <-].
  - intros (b & Hb & Hk)%bindR_Ok. destruct b.
    + by injection Hk as <-.
    + apply bindR_Ok in Hk as (r & Hr & [= <-]).
      rewrite (IH r Hr). apply perm_swap.
Qed.

Lemma sortBy_perm (l l' : list A) :
  sortBy ltR l = Ok l' → l' ≡ₚ l.
Proof.
  revert l'. induction l as [|x l IH]; intros l'; simpl.
  - by intros [= <-].
  - intros (r & Hr & Hins)%bindR_Ok.
    rewrite (insertBy_perm _ _ _ Hins). by rewrite (IH r Hr).
Qed.
End sorting.

(** ** Maps *)

(** The maps compute: two increments of a missing key. *)
Example gmap_string_computes :
  mapGet 0 (mapIncr (mapIncr ∅ "A") "A") "A" = 2.
Proof. vm_compute. reflexivity. Qed.

Lemma mapGet_touch {V} (d : V) (m : gmap string V) (k k' : string) :
  mapGet d (touch d m k) k' = mapGet d m k'.
Proof.
  unfold mapGet, touch. destruct (m !! k) eqn:Hk; [done|].
  destruct (decide (k = k')) as [<-|Hne].
  - by rewrite lookup_insert_eq, Hk.
  - by rewrite lookup_insert_ne.
Qed.

Lemma touch_is_Some {V} (d : V) (m : gmap string V) (k k' : string) :
  is_Some (m !! k') → is_Some (touch d m k !! k').
Proof.
  unfold touch. destruct (m !! k) eqn:Hk; [done|]. intros Hk'.
  destruct (decide (k = k')) as [<-|Hne].
  - rewrite lookup_insert_eq. eauto.
  - by rewrite lookup_insert_ne.
Qed.

Lemma touch_lookup_true (m : gmap string bool) (k k' : string) :
  touch false m k !! k' = Some true ↔ m !! k' = Some true.
Proof.
  unfold touch. destruct (m !! k) eqn:Hk; [done|].
  destruct (decide (k = k')) as [<-|Hne].
  - rewrite lookup_insert_eq, Hk. split; intros; simplify_eq.
  - by rewrite lookup_insert_ne.
Qed.

Lemma mapGet_incr_eq (m : gmap string Z) (k : string) :
  mapGet 0 (mapIncr m k) k = mapGet 0 m k + 1.
Proof. unfold mapGet at 1, mapIncr. by rewrite lookup_insert_eq. Qed.

Lemma mapGet_incr_ne (m : gmap string Z) (k k' : string) :
  k ≠ k' → mapGet 0 (mapIncr m k) k' = mapGet 0 m k'.
Proof. intros. unfold mapGet, mapIncr. by rewrite lookup_insert_ne. Qed.

Lemma mapGet_insert_eq {V} (d v : V) (m : gmap string V) (k : string) :
  mapGet d (<[k := v]> m) k = v.
Proof. unfold mapGet. by rewrite lookup_insert_eq. Qed.

Lemma mapGet_insert_ne {V} (d v : V) (m : gmap string V) (k k' : string) :
  k ≠ k' → mapGet d (<[k := v]> m) k' = mapGet d m k'.
Proof. intros. unfold mapGet. by rewrite lookup_insert_ne. Qed.

Lemma mapAt_Some {V} (d : V) (m : gmap string V) (k : string) :
  is_Some (m !! k) → mapAt m k = Ok (mapGet d m k).
Proof. intros [v Hv]. unfold mapAt, mapGet. by rewrite Hv. Qed.

(** ** Solved problems *)

Lemma solved_lookup (t : Team) (p : string) :
  solved t p = true ↔ isSolved t !! p = Some true.
Proof.
  unfold solved, mapGet. destruct (isSolved t !! p) as [[]|]; simpl; naive_solver.
Qed.

Lemma elem_of_solvedProblems (t : Team) (p : string) :
  p ∈ solvedProblems t ↔ solved t p = true.
Proof.
  rewrite solved_lookup. unfold solvedProblems.
  rewrite list_elem_of_fmap. split.
  - intros ([q b] & -> & [Hb Hin]%list_elem_of_filter). simpl in *. subst b.
    by apply elem_of_map_to_list in Hin.
  - intros Hp. exists (p, true). split; [done|].
    apply list_elem_of_filter. split; [done|]. by apply elem_of_map_to_list.
Qed.

Lemma NoDup_solvedProblems (t : Team) : NoDup (solvedProblems t).
Proof.
  unfold solvedProblems.
  eapply sublist_NoDup; [apply (NoDup_fst_map_to_list (isSolved t))|].
  apply fmap_sublist, sublist_filter.
Qed.

(** Two teams with the same solved problems list them in some order. *)
Lemma solvedProblems_perm (t t' : Team) :
  (∀ p, solved t' p = solved t p) → solvedProblems t' ≡ₚ solvedProblems t.
Proof.
  intros H. apply NoDup_Permutation; [apply NoDup_solvedProblems..|].
  intros p. by rewrite !elem_of_solvedProblems, H.
Qed.

(** A newly solved problem joins the list. *)
Lemma solvedProblems_perm_cons (t t' : Team) (p : string) :
  solved t p = false → solved t' p = true →
  (∀ q, q ≠ p → solved t' q = solved t q) →
  solvedProblems t' ≡ₚ p :: solvedProblems t.
Proof.
  intros Hp Hp' Hq. apply NoDup_Permutation.
  - apply NoDup_solvedProblems.
  - apply NoDup_cons. split; [|apply NoDup_solvedProblems].
    rewrite elem_of_solvedProblems. congruence.
  - intros q. rewrite elem_of_cons, !elem_of_solvedProblems.
    destruct (decide (q = p)) as [->|Hne]; [naive_solver|].
    rewrite Hq by done. split; [by right | by intros [?|?]].
Qed.

Lemma sumZ_perm (l k : list Z) : l ≡ₚ k → sumZ l = sumZ k.
Proof. induction 1; simpl; lia. Qed.

Lemma sumZ_cons (x : Z) (l : list Z) : sumZ (x :: l) = x + sumZ l.
Proof. reflexivity. Qed.

(** ** Descending sort *)

Lemma insertDesc_perm (x : Z) (l : list Z) : insertDesc x l ≡ₚ x :: l.
Proof.
  induction l as [|y l IH]; simpl; [done|].
  destruct (y <? x); [done|]. rewrite IH. apply perm_swap.
Qed.

Lemma sortDesc_perm (l : list Z) : sortDesc l ≡ₚ l.
Proof.
  induction l as [|x l IH]; simpl; [done|].
  by rewrite insertDesc_perm, IH.
Qed.

Lemma insertDesc_sorted (x : Z) (l : list Z) :
  StronglySorted Z.ge l → StronglySorted Z.ge (insertDesc x l).
Proof.
  induction 1 as [|y l Hl IH Hy]; simpl.
  - repeat constructor.
  - destruct (Z.ltb_spec y x).
    + constructor; [by constructor|]. constructor; [lia|].
      rewrite Forall_forall in Hy |- *. intros z Hz. specialize (Hy z Hz). lia.
    + constructor; [done|]. rewrite insertDesc_perm. constructor; [lia|done].
Qed.

Lemma sortDesc_sorted (l : list Z) : StronglySorted Z.ge (sortDesc l).
Proof.
  induction l as [|x l IH]; simpl; [constructor|]. by apply insertDesc_sorted.
Qed.

Lemma solveTimes_length (t : Team) :
  length (solveTimes t) = length (solvedProblems t).
Proof.
  unfold solveTimes. by rewrite (Permutation_length (sortDesc_perm _)), length_fmap.
Qed.

(** The solve times are the acceptance times of the solved problems, in
    descending order. *)
Lemma solveTimes_spec (t : Team) :
  solveTimes t ≡ₚ acceptTime t <$> solvedProblems t
  ∧ StronglySorted Z.ge (solveTimes t).
Proof. split; [apply sortDesc_perm | apply sortDesc_sorted]. Qed.

Lemma getSolveTimes_pure (t : Team) :
  (∀ p, solved t p = true → is_Some (firstAcceptTime t !! p)) →
  getSolveTimes t = Ok (solveTimes t).
Proof.
  intros H. unfold getSolveTimes, solveTimes.
  rewrite (mapR_pure _ (acceptTime t)); [done|].
  intros p Hp%elem_of_solvedProblems. by apply mapAt_Some, H.
Qed.

(** ** The order on names *)

Lemma ascii_compare_N (a b : ascii) :
  Ascii.compare a b = N.compare (N_of_ascii a) (N_of_ascii b).
Proof. reflexivity. Qed.

Lemma string_compare_refl (a : string) : String.compare a a = Eq.
Proof.
  induction a as [|x a IH]; simpl; [done|].
  by rewrite ascii_compare_N, N.compare_refl.
Qed.

Lemma string_ltb_irrefl (a : string) : String.ltb a a = false.
Proof. unfold String.ltb. by rewrite string_compare_refl. Qed.

Lemma string_ltb_total (a b : string) :
  a ≠ b → String.ltb a b = false → String.ltb b a = true.
Proof.
  unfold String.ltb. intros Hne. rewrite (String.compare_antisym a b).
  destruct (String.compare b a) eqn:Hc; simpl; try done.
  apply String.compare_eq_iff in Hc. congruence.
Qed.

Lemma string_ltb_asym (a b : string) :
  String.ltb a b = true → String.ltb b a = false.
Proof.
  unfold String.ltb. rewrite (String.compare_antisym a b).
  by destruct (String.compare b a).
Qed.

Lemma string_compare_lt_trans (a b c : string) :
  String.compare a b = Lt → String.compare b c = Lt → String.compare a c = Lt.
Proof.
  revert b c. induction a as [|x a IH]; intros [|y b] [|z c]; simpl; try done.
  rewrite !ascii_compare_N.
  destruct (N.compare_spec (N_of_ascii x) (N_of_ascii y)) as [Hxy|Hxy|Hxy];
    destruct (N.compare_spec (N_of_ascii y) (N_of_ascii z)) as [Hyz|Hyz|Hyz];
    try done; intros Hab Hbc.
  - rewrite Hxy, Hyz, N.compare_refl. by apply (IH b c).
  - rewrite Hxy. by apply N.compare_lt_iff in Hyz as ->.
  - rewrite <- Hyz. by apply N.compare_lt_iff in Hxy as ->.
  - assert (N_of_ascii x < N_of_ascii z)%N as Hxz by lia.
    by apply N.compare_lt_iff in Hxz as ->.
Qed.

Lemma string_ltb_trans (a b c : string) :
  String.ltb a b = true → String.ltb b c = true → String.ltb a c = true.
Proof.
  unfold String.ltb. intros Hab Hbc.
  rewrite (string_compare_lt_trans a b c); [done| |].
  - by destruct (String.compare a b).
  - by destruct (String.compare b c).
Qed.

(** ** Comparing lists of solve times *)

Lemma firstDiff_refl (xs : list Z) : firstDiff xs xs = None.
Proof. induction xs as [|x xs IH]; simpl; [done|]. by rewrite Z.eqb_refl. Qed.

Lemma firstDiff_None (xs ys : list Z) :
  length xs = length ys → firstDiff xs ys = None → xs = ys.
Proof.
  revert ys. induction xs as [|x xs IH]; intros [|y ys]; simpl; try done.
  intros [= Hlen]. destruct (Z.eqb_spec x y) as [->|]; [|done].
  intros H. f_equal. by apply IH.
Qed.

Lemma firstDiff_Some (xs ys : list Z) (x y : Z) :
  firstDiff xs ys = Some (x, y) ↔
  ∃ i : nat, take i xs = take i ys ∧ xs !! i = Some x ∧ ys !! i = Some y ∧ x ≠ y.
Proof.
  revert ys. induction xs as [|a xs IH]; intros [|b ys]; simpl.
  - split; [done|]. by intros (i & _ & ? & _).
  - split; [done|]. by intros (i & _ & ? & _).
  - split; [done|]. intros (i & _ & _ & ? & _). by destruct i.
  - destruct (Z.eqb_spec a b) as [->|Hne].
    + rewrite IH. split.
      * intros (i & Ht & Hx & Hy & Hxy). exists (S i). simpl. by rewrite Ht.
      * intros ([|i] & Ht & Hx & Hy & Hxy); simpl in *; [congruence|].
        exists i. injection Ht as Ht. done.
    + split.
      * intros [= <- <-]. by exists 0%nat.
      * intros ([|i] & Ht & Hx & Hy & Hxy); simpl in *; [congruence|].
        injection Ht as Ht. done.
Qed.

(** "Smaller at the first differing position" is transitive. *)
Lemma firstDiff_trans (xs ys zs : list Z) (x y y' z : Z) :
  firstDiff xs ys = Some (x, y) → x < y →
  firstDiff ys zs = Some (y', z) → y' < z →
  ∃ x' z', firstDiff xs zs = Some (x', z') ∧ x' < z'.
Proof.
  revert ys zs. induction xs as [|a xs IH]; intros [|b ys] [|c zs]; simpl; try done.
  destruct (Z.eqb_spec a b) as [Hab|Hab], (Z.eqb_spec b c) as [Hbc|Hbc],
           (Z.eqb_spec a c) as [Hac|Hac]; try lia.
  - apply IH.
  - intros H1 Hxy [= <- <-] Hyz. exists a, c. split; [done|lia].
  - intros [= <- <-] Hxy H2 Hyz. exists a, c. split; [done|lia].
  - intros [= <- <-] Hxy [= <- <-] Hyz. lia.
  - intros [= <- <-] Hxy [= <- <-] Hyz. exists a, c. split; [done|lia].
Qed.

Lemma firstDiff_sym (xs ys : list Z) (x y : Z) :
  firstDiff xs ys = Some (x, y) → firstDiff ys xs = Some (y, x).
Proof.
  revert ys. induction xs as [|a xs IH]; intros [|b ys]; simpl; try done.
  rewrite (Z.eqb_sym b a). destruct (a =? b); [apply IH|]. by intros [= <- <-].
Qed.

Lemma firstDiff_sym_None (xs ys : list Z) :
  firstDiff xs ys = None → firstDiff ys xs = None.
Proof.
  revert ys. induction xs as [|a xs IH]; intros [|b ys]; simpl; try done.
  rewrite (Z.eqb_sym b a). destruct (a =? b); [apply IH|done].
Qed.

(** ** The ranking comparator is a strict total order *)

Lemma tieBreak_trans (a b c : string) (ta tb tc : list Z) :
  length ta = length tb → length tb = length tc →
  tieBreak a b ta tb = true → tieBreak b c tb tc = true →
  tieBreak a c ta tc = true.
Proof.
  unfold tieBreak. intros Hab Hbc.
  destruct (firstDiff ta tb) as [[x y]|] eqn:H1,
           (firstDiff tb tc) as [[y' z]|] eqn:H2; intros Hlt1 Hlt2.
  - destruct (firstDiff_trans ta tb tc x y y' z) as (x' & z' & -> & Hlt); [done|lia|done|lia|].
    lia.
  - apply firstDiff_None in H2 as <-; [|done]. by rewrite H1.
  - apply firstDiff_None in H1 as ->; [|done]. by rewrite H2.
  - apply firstDiff_None in H1 as ->; [|done].
    apply firstDiff_None in H2 as ->; [|done].
    rewrite firstDiff_refl. by apply (string_ltb_trans a b c).
Qed.

Lemma tieBreak_total (a b : string) (ta tb : list Z) :
  a ≠ b → tieBreak a b ta tb = false → tieBreak b a tb ta = true.
Proof.
  unfold tieBreak. intros Hne.
  destruct (firstDiff ta tb) as [[x y]|] eqn:H1.
  - rewrite (firstDiff_sym _ _ _ _ H1).
    apply firstDiff_Some in H1 as (i & _ & _ & _ & Hxy). lia.
  - rewrite (firstDiff_sym_None _ _ H1). by apply string_ltb_total.
Qed.

Lemma tieBreak_asym (a b : string) (ta tb : list Z) :
  tieBreak a b ta tb = true → tieBreak b a tb ta = false.
Proof.
  unfold tieBreak.
  destruct (firstDiff ta tb) as [[x y]|] eqn:H1.
  - rewrite (firstDiff_sym _ _ _ _ H1). lia.
  - rewrite (firstDiff_sym_None _ _ H1). apply string_ltb_asym.
Qed.

Lemma ranksBefore_unfold (s : System) (a b : string) :
  ranksBefore s a b =
  if negb (solvedCount (getTeam s a) =? solvedCount (getTeam s b))
  then solvedCount (getTeam s a) >? solvedCount (getTeam s b)
  else if negb (penaltyTime (getTeam s a) =? penaltyTime (getTeam s b))
  then penaltyTime (getTeam s a) <? penaltyTime (getTeam s b)
  else tieBreak a b (solveTimes (getTeam s a)) (solveTimes (getTeam s b)).
Proof. reflexivity. Qed.

Lemma ranksBefore_irrefl (s : System) (a : string) : ranksBefore s a a = false.
Proof.
  rewrite ranksBefore_unfold, !Z.eqb_refl. simpl.
  unfold tieBreak. rewrite firstDiff_refl. apply string_ltb_irrefl.
Qed.

Lemma ranksBefore_total (s : System) (a b : string) :
  a ≠ b → ranksBefore s a b = false → ranksBefore s b a = true.
Proof.
  intros Hne. rewrite !ranksBefore_unfold.
  destruct (Z.eqb_spec (solvedCount (getTeam s a)) (solvedCount (getTeam s b))) as [Hc|Hc];
    simpl.
  2:{ destruct (Z.eqb_spec (solvedCount (getTeam s b)) (solvedCount (getTeam s a)));
        simpl; lia. }
  rewrite Hc, Z.eqb_refl. simpl.
  destruct (Z.eqb_spec (penaltyTime (getTeam s a)) (penaltyTime (getTeam s b))) as [Hp|Hp];
    simpl.
  2:{ destruct (Z.eqb_spec (penaltyTime (getTeam s b)) (penaltyTime (getTeam s a)));
        simpl; lia. }
  rewrite Hp, Z.eqb_refl. simpl. by apply tieBreak_total.
Qed.

Lemma ranksBefore_asym (s : System) (a b : string) :
  ranksBefore s a b = true → ranksBefore s b a = false.
Proof.
  rewrite !ranksBefore_unfold.
  destruct (Z.eqb_spec (solvedCount (getTeam s a)) (solvedCount (getTeam s b))) as [Hc|Hc];
    simpl.
  2:{ destruct (Z.eqb_spec (solvedCount (getTeam s b)) (solvedCount (getTeam s a)));
        simpl; lia. }
  rewrite Hc, Z.eqb_refl. simpl.
  destruct (Z.eqb_spec (penaltyTime (getTeam s a)) (penaltyTime (getTeam s b))) as [Hp|Hp];
    simpl.
  2:{ destruct (Z.eqb_spec (penaltyTime (getTeam s b)) (penaltyTime (getTeam s a)));
        simpl; lia. }
  rewrite Hp, Z.eqb_refl. simpl. apply tieBreak_asym.
Qed.

Lemma ranksBefore_trans (s : System) (a b c : string) :
  countOk s a → countOk s b → countOk s c →
  ranksBefore s a b = true → ranksBefore s b c = true → ranksBefore s a c = true.
Proof.
  unfold countOk. intros Ha Hb Hc. rewrite !ranksBefore_unfold.
  pose proof (solveTimes_length (getTeam s a)) as La.
  pose proof (solveTimes_length (getTeam s b)) as Lb.
  pose proof (solveTimes_length (getTeam s c)) as Lc.
  destruct (Z.eqb_spec (solvedCount (getTeam s a)) (solvedCount (getTeam s b))) as [Hab|Hab],
           (Z.eqb_spec (solvedCount (getTeam s b)) (solvedCount (getTeam s c))) as [Hbc|Hbc],
           (Z.eqb_spec (solvedCount (getTeam s a)) (solvedCount (getTeam s c))) as [Hac|Hac];
    simpl; try lia.
  destruct (Z.eqb_spec (penaltyTime (getTeam s a)) (penaltyTime (getTeam s b))) as [Pab|Pab],
           (Z.eqb_spec (penaltyTime (getTeam s b)) (penaltyTime (getTeam s c))) as [Pbc|Pbc],
           (Z.eqb_spec (penaltyTime (getTeam s a)) (penaltyTime (getTeam s c))) as [Pac|Pac];
    simpl; try lia.
  apply tieBreak_trans; lia.
Qed.

(** The comparator decides the ranking rule of the specification. *)
Lemma ranksBefore_spec (s : System) (a b : string) :
  countOk s a → countOk s b →
  ranksBefore s a b = true ↔ RankedBefore s a b.
Proof.
  unfold countOk, RankedBefore. intros Ha Hb. rewrite ranksBefore_unfold.
  pose proof (solveTimes_length (getTeam s a)) as La.
  pose proof (solveTimes_length (getTeam s b)) as Lb.
  destruct (Z.eqb_spec (solvedCount (getTeam s a)) (solvedCount (getTeam s b))) as [Hc|Hc];
    simpl.
  2:{ rewrite Z.gtb_gt. split; [auto|]. intros [?|[? _]]; [done|lia]. }
  destruct (Z.eqb_spec (penaltyTime (getTeam s a)) (penaltyTime (getTeam s b))) as [Hp|Hp];
    simpl.
  2:{ rewrite Z.ltb_lt. split; [auto|]. intros [?|[_ [?|[? _]]]]; [lia|done|lia]. }
  unfold tieBreak.
  destruct (firstDiff (solveTimes (getTeam s a)) (solveTimes (getTeam s b)))
    as [[x y]|] eqn:Hd.
  - rewrite Z.ltb_lt. split.
    + intros Hxy. right. split; [done|]. right. split; [done|]. left.
      apply firstDiff_Some in Hd as (i & Ht & Hx & Hy & _). by exists i, x, y.
    + intros [?|[_ [?|[_ [(i & x' & y' & Ht & Hx & Hy & Hlt)|[Heq _]]]]]]; [lia..| |].
      * assert (firstDiff (solveTimes (getTeam s a)) (solveTimes (getTeam s b))
                = Some (x', y')) as Hd'.
        { apply firstDiff_Some. exists i. repeat split; [done..|lia]. }
        rewrite Hd in Hd'. by injection Hd' as -> ->.
      * rewrite Heq, firstDiff_refl in Hd. done.
  - split.
    + intros Hlt. right. split; [done|]. right. split; [done|]. right.
      split; [|done]. apply firstDiff_None; [lia|done].
    + intros [?|[_ [?|[_ [(i & x' & y' & Ht & Hx & Hy & Hlt)|[_ ?]]]]]]; [lia..| |done].
      assert (firstDiff (solveTimes (getTeam s a)) (solveTimes (getTeam s b))
              = Some (x', y')) as Hd'.
      { apply firstDiff_Some. exists i. repeat split; [done..|lia]. }
      congruence.
Qed.

Lemma rankBefore_pure (s : System) (a b : string) :
  (∀ p, solved (getTeam s a) p = true → is_Some (firstAcceptTime (getTeam s a) !! p)) →
  (∀ p, solved (getTeam s b) p = true → is_Some (firstAcceptTime (getTeam s b) !! p)) →
  rankBefore s a b = Ok (ranksBefore s a b).
Proof.
  intros Ha Hb. unfold rankBefore, ranksBefore.
  destruct (negb _); [done|]. destruct (negb _); [done|].
  rewrite (getSolveTimes_pure _ Ha), (getSolveTimes_pure _ Hb). simpl.
  by destruct (firstDiff _ _) as [[??]|].
Qed.

(** ** Team invariants *)

Lemma solvedProblems_nil (t : Team) :
  (∀ p, solved t p = false) → solvedProblems t = [].
Proof.
  intros H. destruct (solvedProblems t) as [|p l] eqn:E; [done|].
  assert (p ∈ solvedProblems t) as Hp by (rewrite E; left).
  apply elem_of_solvedProblems in Hp. congruence.
Qed.

Lemma TeamInv_fresh (t : Team) :
  solvedCount t = 0 → penaltyTime t = 0 →
  (∀ p, wrongCount t p = 0) → (∀ p, solved t p = false) →
  TeamInv t.
Proof.
  intros Hc Hp Hw Hs.
  split; try (intros p; rewrite ?Hw, ?Hs; done).
  - by rewrite Hc, (solvedProblems_nil t Hs).
  - by rewrite Hp, (solvedProblems_nil t Hs).
Qed.

Lemma TeamInv_newTeam (n : string) : TeamInv (newTeam n).
Proof. by apply TeamInv_fresh. Qed.

(** The invariant only looks at the counters and at what the maps say. *)
Lemma TeamInv_ext (t t' : Team) :
  TeamInv t →
  solvedCount t' = solvedCount t → penaltyTime t' = penaltyTime t →
  (∀ p, solved t' p = solved t p) →
  (∀ p, solved t p = true → wrongCount t' p = wrongCount t p) →
  (∀ p, 0 ≤ wrongCount t' p) →
  (∀ p, solved t p = true → acceptTime t' p = acceptTime t p) →
  (∀ p, is_Some (wrongSubmissions t !! p) → is_Some (wrongSubmissions t' !! p)) →
  (∀ p, is_Some (firstAcceptTime t !! p) → is_Some (firstAcceptTime t' !! p)) →
  TeamInv t'.
Proof.
  intros [Hw Hsw Hst Hc Hp] Hc' Hp' Hs Hwe Hw' Hae Hws Hts.
  pose proof (solvedProblems_perm t t' Hs) as Hperm.
  split.
  - done.
  - intros p. rewrite Hs. eauto.
  - intros p. rewrite Hs. eauto.
  - by rewrite Hc', Hc, Hperm.
  - rewrite Hp', Hp. rewrite (sumZ_perm _ _ (fmap_Permutation _ _ _ Hperm)).
    f_equal. apply list_fmap_ext. intros i p Hi.
    assert (solved t p = true) as Hsp.
    { apply elem_of_solvedProblems, list_elem_of_lookup. eauto. }
    unfold contribution. by rewrite Hwe, Hae.
Qed.

Lemma getProblemPenalty_Ok (t : Team) (p : string) (pen : Z) :
  getProblemPenalty t p = Ok pen →
  if solved t p then
    is_Some (wrongSubmissions t !! p) ∧ is_Some (firstAcceptTime t !! p)
    ∧ pen = contribution t p
  else pen = 0.
Proof.
  unfold getProblemPenalty, mapAt, solved, contribution, wrongCount, acceptTime, mapGet.
  destruct (isSolved t !! p) as [[]|]; simpl; try done.
  - destruct (wrongSubmissions t !! p); simpl; [|done].
    destruct (firstAcceptTime t !! p); simpl; [|done].
    intros [= <-]. eauto.
  - by intros [= <-].
Qed.

(** The solved-state transition on an unsolved problem. *)
Lemma solveProblem_Ok (t t' : Team) (p : string) (time : Z) :
  solveProblem t p time = Ok t' →
  is_Some (wrongSubmissions t !! p)
  ∧ t' = mkTeam (name t) (solvedCount t + 1)
               (penaltyTime t + (20 * wrongCount t p + time))
               (wrongSubmissions t) (<[p := time]> (firstAcceptTime t))
               (<[p := true]> (isSolved t)) (totalSubmissions t)
               (frozenSubmissions t).
Proof.
  unfold solveProblem, addPenalty. intros (pen & Hpen & [= <-])%bindR_Ok.
  apply getProblemPenalty_Ok in Hpen. unfold solved in Hpen. simpl in Hpen.
  rewrite mapGet_insert_eq in Hpen. destruct Hpen as (Hw & _ & ->).
  split; [done|]. unfold contribution, wrongCount, acceptTime. simpl.
  by rewrite mapGet_insert_eq.
Qed.

Lemma solveProblem_total (t : Team) (p : string) (time : Z) :
  is_Some (wrongSubmissions t !! p) → ∃ t', solveProblem t p time = Ok t'.
Proof.
  intros [w Hw]. unfold solveProblem, addPenalty, getProblemPenalty, mapAt. simpl.
  rewrite !lookup_insert_eq. simpl. rewrite Hw. simpl. eauto.
Qed.

Lemma solveProblem_throws (t : Team) (p : string) (time : Z) :
  wrongSubmissions t !! p = None → solveProblem t p time = Throw.
Proof.
  intros Hw. unfold solveProblem, addPenalty, getProblemPenalty, mapAt. simpl.
  rewrite !lookup_insert_eq. simpl. by rewrite Hw.
Qed.

Lemma solveProblem_inv (t t' : Team) (p : string) (time : Z) :
  TeamInv t → solved t p = false →
  solveProblem t p time = Ok t' →
  TeamInv t'.
Proof.
  intros [Hw Hsw Hst Hc Hp] Hunsolved [Hwp ->]%solveProblem_Ok.
  set (t' := mkTeam _ _ _ _ _ _ _ _).
  assert (∀ q, solved t' q = if decide (q = p) then true else solved t q) as Hs.
  { intros q. unfold solved, t'. simpl. case_decide as Hq.
    - subst q. by rewrite mapGet_insert_eq.
    - by rewrite mapGet_insert_ne. }
  assert (solvedProblems t' ≡ₚ p :: solvedProblems t) as Hperm.
  { apply solvedProblems_perm_cons; [done|..].
    - rewrite Hs. by case_decide.
    - intros q Hq. rewrite Hs. by case_decide. }
  split.
  - done.
  - intros q. rewrite Hs. case_decide; [by subst|]. apply Hsw.
  - intros q. rewrite Hs. unfold t'. simpl. case_decide.
    + subst q. rewrite lookup_insert_eq. eauto.
    + rewrite lookup_insert_ne by done. apply Hst.
  - rewrite Hperm. simpl. rewrite Hc. lia.
  - rewrite (sumZ_perm _ _ (fmap_Permutation _ _ _ Hperm)), fmap_cons, sumZ_cons.
    assert (contribution t' <$> solvedProblems t = contribution t <$> solvedProblems t)
      as ->.
    { apply list_fmap_ext. intros i q Hi.
      assert (q ≠ p) as Hq.
      { intros ->. assert (solved t p = true); [|congruence].
        apply elem_of_solvedProblems, list_elem_of_lookup. eauto. }
      unfold contribution, acceptTime, t'. simpl. by rewrite mapGet_insert_ne. }
    rewrite <- Hp. unfold t'. simpl. unfold contribution, acceptTime, wrongCount. simpl.
    rewrite mapGet_insert_eq. lia.
Qed.

(** ** Registration and start keep the invariant *)

Lemma initProblem_fresh (t : Team) (x : string) :
  (∀ p, wrongCount t p = 0) → (∀ p, solved t p = false) →
  (∀ p, wrongCount (initProblem t x) p = 0)
  ∧ (∀ p, solved (initProblem t x) p = false).
Proof.
  intros Hw Hs. unfold wrongCount, solved, initProblem. simpl.
  split; intros p; (destruct (decide (x = p)) as [->|];
    [by rewrite mapGet_insert_eq | rewrite mapGet_insert_ne by done]);
    [apply Hw | apply Hs].
Qed.

Lemma initTeam_fresh (names : list string) (t : Team) :
  (∀ p, wrongCount t p = 0) → (∀ p, solved t p = false) →
  solvedCount (initTeam names t) = solvedCount t
  ∧ penaltyTime (initTeam names t) = penaltyTime t
  ∧ (∀ p, wrongCount (initTeam names t) p = 0)
  ∧ (∀ p, solved (initTeam names t) p = false).
Proof.
  revert t. induction names as [|x names IH]; intros t Hw Hs; [done|].
  destruct (initProblem_fresh t x Hw Hs) as [Hw' Hs'].
  apply (IH (initProblem t x) Hw' Hs').
Qed.

Lemma initProblem_slots (t : Team) (x p : string) :
  hasSlots t p ∨ x = p → hasSlots (initProblem t x) p.
Proof.
  unfold hasSlots, initProblem. simpl. intros [(H1 & H2 & H3)| ->].
  - destruct (decide (x = p)) as [->|].
    + rewrite !lookup_insert_eq. eauto.
    + by rewrite !lookup_insert_ne.
  - rewrite !lookup_insert_eq. eauto.
Qed.

Lemma initTeam_slots (names : list string) (t : Team) (p : string) :
  hasSlots t p ∨ p ∈ names → hasSlots (initTeam names t) p.
Proof.
  revert t. induction names as [|x names IH]; intros t H; simpl.
  - destruct H as [H|H]; [done|]. by apply elem_of_nil in H.
  - apply IH. destruct H as [H|[H|H]%elem_of_cons]; [|subst p|by right].
    + left. apply initProblem_slots. by left.
    + left. apply initProblem_slots. by right.
Qed.

Lemma frozenSet_empty (n : string) : frozenSet ∅ n = ∅.
Proof. done. Qed.

Lemma addTeam_inv (n : string) (s : System) :
  Inv s → Inv (addTeam n s).1.
Proof.
  intros HI. unfold addTeam.
  destruct (competitionStarted s) eqn:Hstarted; [done|].
  case_decide as Hdup; [done|]. simpl.
  destruct HI as [Ht Ho Hn Hsl Hfu Hun Hpre].
  assert (teams s !! n = None) as Hfresh.
  { destruct (teams s !! n) eqn:E; [|done]. destruct Hdup. eauto. }
  destruct (Hpre Hstarted) as (Hnames & Hfreshall & Hnofrozen).
  split; simpl; unfold getTeam; simpl.
  - intros m t. destruct (decide (n = m)) as [->|Hne].
    + rewrite lookup_insert_eq. intros [= <-]. apply TeamInv_newTeam.
    + rewrite lookup_insert_ne by done. apply Ht.
  - intros m [Hm|Hm%list_elem_of_singleton]%elem_of_app; [|subst m].
    + destruct (decide (n = m)) as [->|Hne].
      * rewrite lookup_insert_eq. eauto.
      * rewrite lookup_insert_ne by done. by apply Ho.
    + rewrite lookup_insert_eq. eauto.
  - apply NoDup_app. split; [done|]. split; [|apply NoDup_singleton].
    intros m Hm Hm'%list_elem_of_singleton. subst m.
    apply Ho in Hm as [? Hm]. congruence.
  - intros m p _ Hp. rewrite Hnames in Hp. by apply elem_of_nil in Hp.
  - intros m p Hp. destruct (decide (n = m)) as [->|Hne].
    + by rewrite mapGet_insert_eq.
    + rewrite mapGet_insert_ne by done. by apply Hfu.
  - done.
  - intros _. split; [done|]. split; [|done]. intros m t.
    destruct (decide (n = m)) as [->|Hne].
    + rewrite lookup_insert_eq. by intros [= <-].
    + rewrite lookup_insert_ne by done. by apply Hfreshall.
Qed.

Lemma startCompetition_inv (duration problemCnt : Z) (s : System) :
  Inv s → Inv (startCompetition duration problemCnt s).1.
Proof.
  intros HI. unfold startCompetition.
  destruct (competitionStarted s) eqn:Hstarted; [done|]. simpl.
  destruct HI as [Ht Ho Hn Hsl Hfu Hun Hpre].
  destruct (Hpre Hstarted) as (Hnames & Hfreshall & Hnofrozen).
  split; simpl; unfold getTeam; simpl.
  - intros m t. rewrite lookup_fmap.
    destruct (teams s !! m) as [t0|] eqn:Hm; simpl; [|done]. intros [= <-].
    rewrite (Hfreshall m t0 Hm).
    destruct (initTeam_fresh (problemNames s ++ generatedNames problemCnt) (newTeam m))
      as (Hc & Hp & Hw & Hs); [done..|].
    by apply TeamInv_fresh.
  - intros m Hm. rewrite lookup_fmap. destruct (Ho m Hm) as [t ->]. simpl. eauto.
  - done.
  - intros m p Hm Hp. unfold mapGet. rewrite lookup_fmap.
    destruct (Ho m Hm) as [t ->]. simpl. apply initTeam_slots. by right.
  - intros m p Hp. unfold mapGet. rewrite lookup_fmap.
    destruct (teams s !! m) as [t0|] eqn:Hm; simpl; [|done].
    rewrite (Hfreshall m t0 Hm).
    by destruct (initTeam_fresh (problemNames s ++ generatedNames problemCnt) (newTeam m))
      as (_ & _ & _ & ->).
  - done.
  - done.
Qed.

(** ** Updating one team keeps the invariant *)

Lemma getTeam_inv (s : System) (n : string) : Inv s → TeamInv (getTeam s n).
Proof.
  intros HI. unfold getTeam, mapGet.
  destruct (teams s !! n) as [t|] eqn:Hn; simpl.
  - by apply (inv_teams s HI n).
  - apply TeamInv_newTeam.
Qed.

Lemma getTeam_lookup (s : System) (n : string) (t : Team) :
  teams s !! n = Some t → getTeam s n = t.
Proof. intros H. unfold getTeam, mapGet. by rewrite H. Qed.

(** The state after the record of team [n] was replaced by [t'], the log
    by [subs] and the frozen-problem sets by [fp']. *)
Lemma Inv_update_team (s : System) (n : string) (t' : Team)
    (subs : list Submission) (fp' : gmap string (gset string)) :
  Inv s →
  competitionStarted s = true →
  TeamInv t' →
  (∀ p, hasSlots (getTeam s n) p → hasSlots t' p) →
  (∀ p, p ∈ frozenSet fp' n → solved t' p = false) →
  (∀ m, m ≠ n → frozenSet fp' m ⊆ frozenSet (frozenProblems s) m) →
  (isFrozen s = false → ∀ m, frozenSet fp' m = ∅) →
  Inv (mkSystem (competitionStarted s) (isFrozen s) (durationTime s) (problemCount s)
                (problemNames s) (<[n := t']> (teams s)) subs (teamOrder s) fp').
Proof.
  intros [Ht Ho Hn Hsl Hfu Hun Hpre] Hstarted Ht' Hslots Hfrozen Hother Hempty.
  split; simpl; unfold getTeam; simpl.
  - intros m t. destruct (decide (n = m)) as [->|Hne].
    + rewrite lookup_insert_eq. by intros [= <-].
    + rewrite lookup_insert_ne by done. apply Ht.
  - intros m Hm. destruct (decide (n = m)) as [->|Hne].
    + rewrite lookup_insert_eq. eauto.
    + rewrite lookup_insert_ne by done. by apply Ho.
  - done.
  - intros m p Hm Hp. destruct (decide (n = m)) as [->|Hne].
    + rewrite mapGet_insert_eq. by apply Hslots, Hsl.
    + rewrite mapGet_insert_ne by done. by apply Hsl.
  - intros m p Hp. destruct (decide (n = m)) as [->|Hne].
    + rewrite mapGet_insert_eq. by apply Hfrozen.
    + rewrite mapGet_insert_ne by done. apply Hfu. by apply (Hother m).
  - done.
  - congruence.
Qed.

Lemma Inv_setTeamOrder (s : System) (o : list string) :
  Inv s → o ≡ₚ teamOrder s → Inv (setTeamOrder s o).
Proof.
  intros [Ht Ho Hn Hsl Hfu Hun Hpre] Hperm.
  split; simpl; try done.
  - intros n Hn'. apply Ho. by rewrite <- Hperm.
  - by rewrite Hperm.
  - intros n p Hn'. apply Hsl. by rewrite <- Hperm.
Qed.

Lemma Inv_setFrozenProblems (s : System) (fp' : gmap string (gset string)) :
  Inv s → (∀ n, frozenSet fp' n = frozenSet (frozenProblems s) n) →
  Inv (setFrozenProblems s fp').
Proof.
  intros [Ht Ho Hn Hsl Hfu Hun Hpre] Hsame.
  split; simpl; try done.
  - intros n p. rewrite Hsame. apply Hfu.
  - intros Hf n. rewrite Hsame. by apply Hun.
  - intros Hs. destruct (Hpre Hs) as (? & ? & ?). repeat split; [done..|].
    intros n. by rewrite Hsame.
Qed.

Lemma hasSlots_mono (t t' : Team) (p : string) :
  (is_Some (isSolved t !! p) → is_Some (isSolved t' !! p)) →
  (is_Some (wrongSubmissions t !! p) → is_Some (wrongSubmissions t' !! p)) →
  (is_Some (frozenSubmissions t !! p) → is_Some (frozenSubmissions t' !! p)) →
  hasSlots t p → hasSlots t' p.
Proof. unfold hasSlots. intros ??? (?&?&?). auto. Qed.

Lemma insert_is_Some {V} (m : gmap string V) (k k' : string) (v : V) :
  is_Some (m !! k') → is_Some (<[k := v]> m !! k').
Proof.
  intros H. destruct (decide (k = k')) as [->|].
  - rewrite lookup_insert_eq. eauto.
  - by rewrite lookup_insert_ne.
Qed.

Lemma frozenSet_insert_eq (fp : gmap string (gset string)) (n : string) (X : gset string) :
  frozenSet (<[n := X]> fp) n = X.
Proof. apply mapGet_insert_eq. Qed.

Lemma frozenSet_insert_ne (fp : gmap string (gset string)) (n m : string) (X : gset string) :
  n ≠ m → frozenSet (<[n := X]> fp) m = frozenSet fp m.
Proof. apply mapGet_insert_ne. Qed.

Lemma frozenSet_touch (fp : gmap string (gset string)) (n m : string) :
  frozenSet (touch ∅ fp n) m = frozenSet fp m.
Proof. apply mapGet_touch. Qed.

(** ** Submissions *)

(** [submitProblem], case by case. *)
Lemma submitProblem_cases (p n st : string) (time : Z) (s : System) :
  let t := getTeam s n in
  let subs := logged s p n st time in
  submitProblem p n st time s =
  if solved t p then Ok (updated s n (applySolved t p) subs (frozenProblems s))
  else if isFrozen s then
    Ok (updated s n (applyFrozen t p) subs
          (if decide (stringToStatus st = ACCEPTED)
           then <[n := {[p]} ∪ frozenSet (frozenProblems s) n]> (frozenProblems s)
           else frozenProblems s))
  else if decide (stringToStatus st = ACCEPTED) then
    match wrongSubmissions t !! p with
    | Some _ => Ok (updated s n (applyAccepted t p time) subs (frozenProblems s))
    | None => Throw
    end
  else Ok (updated s n (applyWrong t p) subs (frozenProblems s)).
Proof.
  intros t subs. unfold submitProblem, updated. fold t. simpl.
  change (mapGet false (isSolved t) p) with (solved t p).
  destruct (solved t p) eqn:Hs.
  - rewrite andb_false_r. simpl. done.
  - rewrite andb_true_r. destruct (isFrozen s); simpl; [done|].
    case_decide as Hst; simpl; [|done].
    unfold solveProblem, addPenalty, getProblemPenalty, mapAt. simpl.
    rewrite !lookup_insert_eq. simpl.
    destruct (wrongSubmissions t !! p) as [w|] eqn:Hw; simpl; [|done].
    unfold applyAccepted, wrongCount, mapGet. rewrite Hw. simpl.
    do 5 f_equal; lia.
Qed.

Lemma wrongCount_nonneg_incr (t : Team) (p q : string) :
  (∀ p, 0 ≤ wrongCount t p) → 0 ≤ mapGet 0 (mapIncr (wrongSubmissions t) p) q.
Proof.
  intros H. destruct (decide (p = q)) as [->|].
  - rewrite mapGet_incr_eq. specialize (H q). unfold wrongCount in H. lia.
  - rewrite mapGet_incr_ne by done. apply H.
Qed.

Lemma TeamInv_applyFrozen (t : Team) (p : string) :
  TeamInv t → TeamInv (applyFrozen t p).
Proof.
  intros HI. apply (TeamInv_ext t); try done.
  - intros q. apply mapGet_touch.
  - apply HI.
Qed.

Lemma TeamInv_applySolved (t : Team) (p : string) :
  TeamInv t → TeamInv (applySolved t p).
Proof.
  intros HI. apply (TeamInv_ext t); try done.
  - intros q. apply mapGet_touch.
  - apply HI.
Qed.

Lemma TeamInv_applyWrong (t : Team) (p : string) :
  TeamInv t → solved t p = false → TeamInv (applyWrong t p).
Proof.
  intros HI Hp. apply (TeamInv_ext t); try done.
  - intros q. apply mapGet_touch.
  - intros q Hq. unfold wrongCount. simpl. apply mapGet_incr_ne. congruence.
  - intros q. apply wrongCount_nonneg_incr, HI.
  - intros q. apply insert_is_Some.
Qed.

Lemma solveProblem_applySolved (t : Team) (p : string) (time : Z) :
  is_Some (wrongSubmissions t !! p) →
  solveProblem (applySolved t p) p time = Ok (applyAccepted t p time).
Proof.
  intros Hw. destruct (solveProblem_total (applySolved t p) p time Hw) as [t' Ht'].
  rewrite Ht'. by apply solveProblem_Ok in Ht' as [_ ->].
Qed.

Lemma TeamInv_applyAccepted (t : Team) (p : string) (time : Z) :
  TeamInv t → solved t p = false → is_Some (wrongSubmissions t !! p) →
  TeamInv (applyAccepted t p time).
Proof.
  intros HI Hp Hw.
  apply (solveProblem_inv (applySolved t p) _ p time).
  - by apply TeamInv_applySolved.
  - unfold solved. simpl. by rewrite mapGet_touch.
  - by apply solveProblem_applySolved.
Qed.

Lemma submitProblem_inv (p n st : string) (time : Z) (s s' : System) :
  Inv s → competitionStarted s = true →
  submitProblem p n st time s = Ok s' → Inv s'.
Proof.
  intros HI Hstarted. rewrite submitProblem_cases.
  pose proof (getTeam_inv s n HI) as Ht.
  assert (∀ (m : gmap string bool) q, is_Some (m !! q) → is_Some (touch false m p !! q))
    as Htouch by (intros; by apply touch_is_Some).
  destruct (solved (getTeam s n) p) eqn:Hs.
  { intros [= <-]. apply Inv_update_team; try done.
    - by apply TeamInv_applySolved.
    - intros q. apply hasSlots_mono; simpl; auto.
    - intros q Hq. unfold solved. simpl. rewrite mapGet_touch.
      by apply (inv_frozen_unsolved s HI).
    - apply (inv_unfrozen s HI). }
  destruct (isFrozen s) eqn:Hf.
  { intros [= <-]. apply Inv_update_team; try done.
    - by apply TeamInv_applyFrozen.
    - intros q. apply hasSlots_mono; simpl; unfold mapIncr; auto using insert_is_Some.
    - intros q Hq. unfold solved. simpl. rewrite mapGet_touch.
      case_decide.
      + rewrite frozenSet_insert_eq in Hq.
        apply elem_of_union in Hq as [->%elem_of_singleton|Hq]; [done|].
        by apply (inv_frozen_unsolved s HI).
      + by apply (inv_frozen_unsolved s HI).
    - intros m Hm. case_decide; [|done]. by rewrite frozenSet_insert_ne.
    - congruence. }
  case_decide as Hst.
  { destruct (wrongSubmissions (getTeam s n) !! p) eqn:Hw; [|done].
    intros [= <-]. apply Inv_update_team; try done.
    - by apply TeamInv_applyAccepted.
    - intros q. apply hasSlots_mono; simpl; unfold mapIncr; auto using insert_is_Some.
    - intros q Hq. rewrite (inv_unfrozen s HI Hf) in Hq. set_solver.
    - apply (inv_unfrozen s HI). }
  intros [= <-]. apply Inv_update_team; try done.
  - by apply TeamInv_applyWrong.
  - intros q. apply hasSlots_mono; simpl; unfold mapIncr; auto using insert_is_Some.
  - intros q Hq. rewrite (inv_unfrozen s HI Hf) in Hq. set_solver.
  - apply (inv_unfrozen s HI).
Qed.

(** ** Ranking and printing on well-formed states *)

Lemma ranksBefore_teams (s s' : System) (a b : string) :
  teams s' = teams s → ranksBefore s' a b = ranksBefore s a b.
Proof. intros H. unfold ranksBefore, getTeam. by rewrite H. Qed.

Lemma rankBefore_teams (s s' : System) (a b : string) :
  teams s' = teams s → rankBefore s' a b = rankBefore s a b.
Proof. intros H. unfold rankBefore, getTeam. by rewrite H. Qed.

Lemma TeamInv_countOk (s : System) (n : string) :
  TeamInv (getTeam s n) → countOk s n.
Proof. intros H. apply H. Qed.

(** On a state whose ranked teams satisfy the team invariant,
    [updateRankings] does not throw and puts the teams in ranking order. *)
Lemma updateRankings_sorted (s : System) :
  (∀ n, n ∈ teamOrder s → TeamInv (getTeam s n)) →
  NoDup (teamOrder s) →
  ∃ o, updateRankings s = Ok (setTeamOrder s o)
       ∧ o ≡ₚ teamOrder s
       ∧ StronglySorted (holds (ranksBefore s)) o.
Proof.
  intros Ht Hnodup. unfold updateRankings.
  destruct (sortBy_sorted (rankBefore s) (ranksBefore s) (teamOrder s))
    as (o & Ho & Hperm & Hsorted).
  - intros a b Ha Hb. apply rankBefore_pure; apply solved_has_time; auto.
  - intros a b _ _. apply ranksBefore_total.
  - intros a b c Ha Hb Hc. apply ranksBefore_trans; apply TeamInv_countOk; auto.
  - done.
  - exists o. rewrite Ho. done.
Qed.

(** The rule determines the order: whatever algorithm [std::sort] runs, a
    permutation of the teams that is sorted by the comparator is the one
    [updateRankings] computes. *)
Lemma sorted_perm_unique (s : System) (o o' : list string) :
  StronglySorted (holds (ranksBefore s)) o →
  StronglySorted (holds (ranksBefore s)) o' →
  o ≡ₚ o' → o = o'.
Proof.
  apply StronglySorted_unique_strong. intros a b _ _ Hab Hba.
  apply ranksBefore_asym in Hab. unfold holds in Hba. congruence.
Qed.

Lemma updateRankings_Ok (s s' : System) :
  updateRankings s = Ok s' →
  s' = setTeamOrder s (teamOrder s') ∧ teamOrder s' ≡ₚ teamOrder s.
Proof.
  unfold updateRankings. intros (o & Ho & [= <-])%bindR_Ok. split; [done|].
  by apply sortBy_perm in Ho.
Qed.

Lemma sameFrozen_refl (fp : gmap string (gset string)) : sameFrozen fp fp.
Proof. done. Qed.

Lemma sameFrozen_trans (fp1 fp2 fp3 : gmap string (gset string)) :
  sameFrozen fp1 fp2 → sameFrozen fp2 fp3 → sameFrozen fp1 fp3.
Proof. unfold sameFrozen. intros H1 H2 n. by rewrite H2, H1. Qed.

Lemma sameFrozen_touch (fp : gmap string (gset string)) (n : string) :
  sameFrozen fp (touch ∅ fp n).
Proof. intros m. apply frozenSet_touch. Qed.

Lemma printCell_pure (t : Team) (n : string) (fp : gmap string (gset string))
    (p : string) :
  hasSlots t p →
  ∃ fp', printCell t n fp p = Ok (cellText t (frozenSet fp n) p, fp')
         ∧ sameFrozen fp fp'.
Proof.
  intros (Hs & Hw & Hf). unfold printCell, cellText.
  rewrite (mapAt_Some false _ _ Hs). simpl. fold (solved t p).
  destruct (solved t p).
  - rewrite (mapAt_Some 0 _ _ Hw). simpl. fold (wrongCount t p).
    exists fp. by destruct (wrongCount t p =? 0).
  - case_decide.
    + rewrite (mapAt_Some 0 _ _ Hw), (mapAt_Some 0 _ _ Hf). simpl.
      fold (wrongCount t p) (frozenPending t p).
      exists (touch ∅ fp n). split; [|apply sameFrozen_touch].
      by destruct (wrongCount t p =? 0).
    + rewrite (mapAt_Some 0 _ _ Hw). simpl. fold (wrongCount t p).
      exists (touch ∅ fp n). split; [|apply sameFrozen_touch].
      by destruct (wrongCount t p =? 0).
Qed.

Lemma printCells_pure (t : Team) (n : string) (fp : gmap string (gset string))
    (problems : list string) :
  (∀ p, p ∈ problems → hasSlots t p) →
  ∃ fp', printCells t n fp problems
         = Ok (cellText t (frozenSet fp n) <$> problems, fp')
         ∧ sameFrozen fp fp'.
Proof.
  revert fp. induction problems as [|p problems IH]; intros fp Hslots; simpl.
  - by exists fp.
  - destruct (printCell_pure t n fp p) as (fp1 & -> & H1); [apply Hslots; by left|].
    simpl. destruct (IH fp1) as (fp2 & -> & H2); [intros; apply Hslots; by right|].
    simpl. exists fp2. rewrite (H1 n). split; [done|].
    by apply (sameFrozen_trans fp fp1 fp2).
Qed.

Lemma printRows_pure (s : System) (i : nat) (order : list string)
    (fp : gmap string (gset string)) :
  (∀ n p, n ∈ order → p ∈ problemNames s → hasSlots (getTeam s n) p) →
  sameFrozen (frozenProblems s) fp →
  ∃ fp', printRows s i order fp = Ok (imap (λ j, rowText s (i + j)) order, fp')
         ∧ sameFrozen fp fp'.
Proof.
  revert i fp. induction order as [|n order IH]; intros i fp Hslots Hfp; simpl.
  - by exists fp.
  - destruct (printCells_pure (getTeam s n) n fp (problemNames s))
      as (fp1 & -> & H1); [intros; apply Hslots; [by left|done]|].
    simpl.
    destruct (IH (S i) fp1) as (fp2 & -> & H2).
    { intros m p Hm. apply Hslots. by right. }
    { by apply (sameFrozen_trans _ fp). }
    simpl. exists fp2. split; [|by apply (sameFrozen_trans fp fp1 fp2)].
    rewrite (Hfp n).
    assert (imap (λ j, rowText s (S (i + j))) order
            = imap ((λ j, rowText s (i + j)) ∘ S) order) as ->.
    { apply imap_ext. intros j m _. simpl. by rewrite Nat.add_succ_r. }
    unfold rowText at 2. by rewrite Nat.add_0_r.
Qed.

(** With the slots in place the printer does not throw, prints
    [boardText] and leaves every frozen-problem set as it reads. *)
Lemma printScoreboard_pure (s : System) :
  (∀ n p, n ∈ teamOrder s → p ∈ problemNames s → hasSlots (getTeam s n) p) →
  ∃ fp', printScoreboard s = Ok (setFrozenProblems s fp', boardText s)
         ∧ sameFrozen (frozenProblems s) fp'.
Proof.
  intros Hslots. unfold printScoreboard.
  destruct (printRows_pure s 0 (teamOrder s) (frozenProblems s) Hslots)
    as (fp' & -> & H); [done|].
  simpl. by exists fp'.
Qed.

(** ** The reveal step *)

(** The comparator reads the counters, the solved flags and the acceptance
    times only. *)
Lemma getSolveTimes_ext (t t' : Team) :
  isSolved t' = isSolved t → firstAcceptTime t' = firstAcceptTime t →
  getSolveTimes t' = getSolveTimes t.
Proof. intros H1 H2. unfold getSolveTimes, solvedProblems. by rewrite H1, H2. Qed.

Lemma rankBefore_ext (s s' : System) (a b : string) :
  (∀ n, solvedCount (getTeam s' n) = solvedCount (getTeam s n)
        ∧ penaltyTime (getTeam s' n) = penaltyTime (getTeam s n)
        ∧ isSolved (getTeam s' n) = isSolved (getTeam s n)
        ∧ firstAcceptTime (getTeam s' n) = firstAcceptTime (getTeam s n)) →
  rankBefore s' a b = rankBefore s a b.
Proof.
  intros H. unfold rankBefore.
  destruct (H a) as (-> & -> & Ha1 & Ha2), (H b) as (-> & -> & Hb1 & Hb2).
  by rewrite (getSolveTimes_ext _ _ Ha1 Ha2), (getSolveTimes_ext _ _ Hb1 Hb2).
Qed.

Lemma sortBy_ext {A} (f g : A → A → Res bool) (l : list A) :
  (∀ a b, f a b = g a b) → sortBy f l = sortBy g l.
Proof.
  intros H. induction l as [|x l IH]; simpl; [done|]. rewrite IH.
  destruct (sortBy g l) as [r| |]; simpl; [|done..].
  clear IH. induction r as [|y r IH]; simpl; [done|].
  rewrite H. destruct (g x y) as [[]| |]; simpl; [done| |done..]. by rewrite IH.
Qed.

(** What a reveal that does not throw has done. *)
Lemma revealStep_Ok (n p : string) (s s' : System) (changes : list (string * string)) :
  revealStep n p s = Ok (s', changes) →
  let t := getTeam s n in
  let time := findFirstAC (submissions s) n p in
  (0 < frozenPending t p ∧ time ≠ -1
   ∧ is_Some (wrongSubmissions t !! p)
   ∧ sortBy (rankBefore s') (teamOrder s) = Ok (teamOrder s')
   ∧ s' = setTeamOrder
            (updated s n (revealSolved t p time) (submissions s) (revealedFrozen s n p))
            (teamOrder s')
   ∧ changes = recordedChanges (teamOrder s) (teamOrder s') n)
  ∨ ((frozenPending t p ≤ 0 ∨ time = -1)
     ∧ s' = updated s n (revealUnsolved t p) (submissions s) (revealedFrozen s n p)
     ∧ changes = []).
Proof.
  intros Hstep t time. unfold revealStep in Hstep. fold t in Hstep.
  change (mapGet 0 (frozenSubmissions t) p) with (frozenPending t p) in Hstep.
  fold time in Hstep.
  assert (∀ m : gmap string Z, <[p := 0]> (touch 0 m p) = <[p := 0]> m) as Htouch.
  { intros m. unfold touch. destruct (m !! p); [done|]. apply insert_insert_eq. }
  destruct (Z.gtb_spec (frozenPending t p) 0) as [Hpos|Hnpos];
    [destruct (Z.eqb_spec time (-1)) as [Htime|Htime]|]; simpl in Hstep.
  - right. injection Hstep as <- <-. split; [auto|]. split; [|done].
    unfold updated, revealUnsolved, setFrozenSubmissions, getTeam. simpl.
    rewrite mapGet_insert_eq. simpl. rewrite Htouch.
    unfold setTeams, setFrozenProblems. simpl. by rewrite insert_insert_eq.
  - left. apply bindR_Ok in Hstep as ([s2 ch] & Hmid & Hfin).
    apply bindR_Ok in Hmid as (team2 & Hsolve & Hmid).
    apply bindR_Ok in Hmid as (s1 & Hrank & Hch).
    apply solveProblem_Ok in Hsolve as [Hw ->]. simpl in *.
    unfold updateRankings in Hrank.
    apply bindR_Ok in Hrank as (o & Ho & [= <-]). simpl in *.
    assert (s2 = setTeamOrder
                   (setTeams (setFrozenProblems s (revealedFrozen s n p))
                      (<[n := mkTeam (name t) (solvedCount t + 1)
                                 (penaltyTime t + (20 * wrongCount t p + time))
                                 (wrongSubmissions t) (<[p := time]> (firstAcceptTime t))
                                 (<[p := true]> (isSolved t)) (totalSubmissions t)
                                 (touch 0 (frozenSubmissions t) p)]> (teams s))) o
            ∧ ch = recordedChanges (teamOrder s) o n) as [-> ->].
    { unfold recordedChanges. case_decide.
      - by injection Hch as <- <-.
      - destruct (String.eqb _ _); by injection Hch as <- <-. }
    injection Hfin as <- <-. simpl.
    split; [lia|]. split; [done|]. split; [done|]. split; [|split; [|done]].
    2:{ unfold getTeam, setTeams, setTeamOrder, setFrozenProblems, updated,
          revealSolved, setFrozenSubmissions. simpl.
        rewrite mapGet_insert_eq. simpl. by rewrite Htouch, insert_insert_eq. }
    erewrite sortBy_ext; [exact Ho|]. intros a b. apply rankBefore_ext.
    intros m. unfold getTeam. simpl.
    destruct (decide (n = m)) as [->|Hne].
    + by rewrite !mapGet_insert_eq.
    + by rewrite !mapGet_insert_ne.
  - right. injection Hstep as <- <-. split; [lia|]. split; [|done].
    unfold updated, revealUnsolved, setFrozenSubmissions, getTeam. simpl.
    rewrite mapGet_insert_eq. simpl. rewrite Htouch.
    unfold setTeams, setFrozenProblems. simpl. by rewrite insert_insert_eq.
Qed.

Lemma Inv_updated (s : System) (n : string) (t' : Team)
    (subs : list Submission) (fp' : gmap string (gset string)) :
  Inv s →
  competitionStarted s = true →
  TeamInv t' →
  (∀ p, hasSlots (getTeam s n) p → hasSlots t' p) →
  (∀ p, p ∈ frozenSet fp' n → solved t' p = false) →
  (∀ m, m ≠ n → frozenSet fp' m ⊆ frozenSet (frozenProblems s) m) →
  (isFrozen s = false → ∀ m, frozenSet fp' m = ∅) →
  Inv (updated s n t' subs fp').
Proof. apply Inv_update_team. Qed.

Lemma Inv_started (s : System) (n p : string) :
  Inv s → p ∈ frozenSet (frozenProblems s) n → competitionStarted s = true.
Proof.
  intros HI Hp. destruct (competitionStarted s) eqn:Hs; [done|].
  destruct (inv_prestart s HI Hs) as (_ & _ & Hempty).
  rewrite Hempty in Hp. set_solver.
Qed.

Lemma TeamInv_revealSolved (t : Team) (p : string) (time : Z) :
  TeamInv t → solved t p = false → is_Some (wrongSubmissions t !! p) →
  TeamInv (revealSolved t p time).
Proof.
  intros HI Hp Hw.
  destruct (solveProblem_total t p time Hw) as [t2 Ht2].
  pose proof (solveProblem_inv t t2 p time HI Hp Ht2) as HI2.
  apply solveProblem_Ok in Ht2 as [_ ->].
  apply (TeamInv_ext _ _ HI2); try done. apply HI2.
Qed.

Lemma TeamInv_revealUnsolved (t : Team) (p : string) :
  TeamInv t → TeamInv (revealUnsolved t p).
Proof. intros HI. apply (TeamInv_ext t); try done. apply HI. Qed.

Lemma revealedFrozen_eq (s : System) (n p : string) :
  frozenSet (revealedFrozen s n p) n = frozenSet (frozenProblems s) n ∖ {[p]}.
Proof. apply frozenSet_insert_eq. Qed.

Lemma revealedFrozen_ne (s : System) (n m p : string) :
  n ≠ m → frozenSet (revealedFrozen s n p) m = frozenSet (frozenProblems s) m.
Proof. apply frozenSet_insert_ne. Qed.

Lemma revealStep_inv (n p : string) (s s' : System) (changes : list (string * string)) :
  Inv s → p ∈ frozenSet (frozenProblems s) n →
  revealStep n p s = Ok (s', changes) → Inv s'.
Proof.
  intros HI Hp Hstep.
  pose proof (Inv_started s n p HI Hp) as Hstarted.
  pose proof (getTeam_inv s n HI) as Ht.
  pose proof (inv_frozen_unsolved s HI n p Hp) as Hunsolved.
  assert (isFrozen s = false → ∀ m, frozenSet (revealedFrozen s n p) m = ∅) as Hempty.
  { intros Hf m. pose proof (inv_unfrozen s HI Hf) as He.
    destruct (decide (n = m)) as [->|Hne].
    - rewrite revealedFrozen_eq, He. set_solver.
    - by rewrite revealedFrozen_ne. }
  assert (∀ m, m ≠ n → frozenSet (revealedFrozen s n p) m
                        ⊆ frozenSet (frozenProblems s) m) as Hother.
  { intros m Hm. by rewrite revealedFrozen_ne. }
  apply revealStep_Ok in Hstep as
    [(Hpos & Htime & Hw & Hsort & -> & _)|(_ & -> & _)].
  - apply Inv_setTeamOrder; [|by apply sortBy_perm in Hsort].
    apply Inv_updated; try done.
    + by apply TeamInv_revealSolved.
    + intros q. apply hasSlots_mono; simpl; auto using insert_is_Some.
    + intros q Hq. rewrite revealedFrozen_eq in Hq.
      apply elem_of_difference in Hq as [Hq Hne].
      unfold solved. simpl. rewrite mapGet_insert_ne by set_solver.
      by apply (inv_frozen_unsolved s HI).
  - apply Inv_updated; try done.
    + by apply TeamInv_revealUnsolved.
    + intros q. apply hasSlots_mono; simpl; auto using insert_is_Some.
    + intros q Hq. rewrite revealedFrozen_eq in Hq.
      apply elem_of_difference in Hq as [Hq Hne].
      by apply (inv_frozen_unsolved s HI).
Qed.

(** ** Choosing what to reveal *)

Lemma smallest_fold (xs : list string) (m : string) :
  let r := fold_left (λ m p, if String.ltb p m then p else m) xs m in
  r ∈ m :: xs ∧ ∀ q, q ∈ m :: xs → String.ltb q r = false.
Proof.
  revert m. induction xs as [|x xs IH]; intros m; simpl.
  - split; [left|]. intros q Hq%list_elem_of_singleton. subst q.
    apply string_ltb_irrefl.
  - destruct (IH (if String.ltb x m then x else m)) as [Hin Hmin].
    set (r := fold_left _ xs _) in *.
    assert (String.ltb (if String.ltb x m then x else m) r = false) as Hm'
      by (apply Hmin; left).
    split.
    { apply elem_of_cons in Hin as [Hin|Hin]; [|by do 2 right].
      rewrite Hin. destruct (String.ltb x m); [right; left|left]. }
    intros q [Hq|[Hq|Hq]%elem_of_cons]%elem_of_cons; [subst q..|].
    + destruct (String.ltb m r) eqn:E; [exfalso|done].
      destruct (String.ltb x m) eqn:Hxm; [|congruence].
      rewrite (string_ltb_trans x m r Hxm E) in Hm'. done.
    + destruct (String.ltb x r) eqn:E; [exfalso|done].
      destruct (String.ltb x m) eqn:Hxm; [congruence|].
      destruct (decide (x = m)) as [->|Hne]; [congruence|].
      pose proof (string_ltb_total x m Hne Hxm) as Hmx.
      rewrite (string_ltb_trans m x r Hmx E) in Hm'. done.
    + apply Hmin. by right.
Qed.

(** [smallest] picks the least problem of a non-empty set. *)
Lemma smallest_spec (X : gset string) :
  X ≠ ∅ → smallest X ∈ X ∧ ∀ q, q ∈ X → String.ltb q (smallest X) = false.
Proof.
  intros HX. unfold smallest.
  destruct (elements X) as [|x xs] eqn:E.
  { apply elements_empty_inv in E. by apply leibniz_equiv in E. }
  destruct (smallest_fold xs x) as [Hin Hmin].
  split.
  - apply elem_of_elements. by rewrite E.
  - intros q Hq. apply Hmin. rewrite <- E. by apply elem_of_elements.
Qed.

Lemma elem_of_rev {A} (x : A) (l : list A) : x ∈ rev l ↔ x ∈ l.
Proof. rewrite !list_elem_of_In. symmetry. apply in_rev. Qed.

(** The scan returns the first team of the list with a non-empty set,
    with its smallest problem, and changes no set. *)
Lemma findFrozenTeam_spec (l : list string) (fp fp' : gmap string (gset string))
    (t p : string) :
  findFrozenTeam l fp = (t, p, fp') →
  sameFrozen fp fp'
  ∧ ((t = "" ∧ p = "" ∧ ∀ n, n ∈ l → frozenSet fp n = ∅)
     ∨ (∃ l1 l2, l = l1 ++ t :: l2
                 ∧ (∀ n, n ∈ l1 → frozenSet fp n = ∅)
                 ∧ frozenSet fp t ≠ ∅
                 ∧ p = smallest (frozenSet fp t))).
Proof.
  revert fp. induction l as [|n l IH]; intros fp; simpl.
  - intros [= <- <- <-]. split; [done|]. left. set_solver.
  - case_decide as Hn.
    + intros Hrec. destruct (IH _ Hrec) as [Hsame Hcases]. split.
      { apply (sameFrozen_trans _ (touch ∅ fp n)); [apply sameFrozen_touch|done]. }
      destruct Hcases as [(-> & -> & Hall)|(l1 & l2 & -> & Hall & Hne & ->)].
      * left. repeat split; try done.
        intros m [->|Hm]%elem_of_cons; [done|].
        rewrite <- (Hall m Hm). symmetry. apply frozenSet_touch.
      * right. exists (n :: l1), l2. rewrite !frozenSet_touch in *.
        repeat split; try done.
        intros m [->|Hm]%elem_of_cons; [done|].
        rewrite <- (Hall m Hm). symmetry. apply frozenSet_touch.
    + intros [= <- <- <-]. split; [apply sameFrozen_touch|].
      right. exists [], l. repeat split; try done. set_solver.
Qed.

(** ** The scroll loop *)

(** A property kept by the scan and by every reveal holds when the loop
    ends. *)
Lemma scrollLoop_invariant (P : System → Prop) :
  (∀ s fp, P s → sameFrozen (frozenProblems s) fp → P (setFrozenProblems s fp)) →
  (∀ s n p s' changes,
     P s → n ∈ teamOrder s → p ∈ frozenSet (frozenProblems s) n →
     revealStep n p s = Ok (s', changes) → P s') →
  ∀ fuel s acc s' changes,
    P s → scrollLoop fuel s acc = Ok (s', changes) → P s'.
Proof.
  intros Hscan Hreveal. induction fuel as [|fuel IH]; intros s acc s' changes HP; [done|].
  simpl. destruct (findFrozenTeam _ _) as [[t p] fp] eqn:Hfind.
  apply findFrozenTeam_spec in Hfind as [Hsame Hcases].
  destruct (String.eqb_spec t "") as [->|Hne].
  - intros [= <- <-]. by apply Hscan.
  - destruct Hcases as [(-> & _)|(l1 & l2 & Hl & _ & Hnonempty & ->)]; [done|].
    intros ([s1 ch] & Hstep & Hloop)%bindR_Ok.
    apply (IH s1 (acc ++ ch) s' changes); [|done].
    apply (Hreveal (setFrozenProblems s fp) t
             (smallest (frozenSet (frozenProblems s) t)) s1 ch); [by apply Hscan| | |done].
    + simpl. apply elem_of_rev. rewrite Hl. set_solver.
    + simpl. rewrite (Hsame t). by apply smallest_spec.
Qed.

Lemma sum_list_cons (x : nat) (l : list nat) : sum_list (x :: l) = (x + sum_list l)%nat.
Proof. reflexivity. Qed.

Lemma sum_list_perm (l k : list nat) : l ≡ₚ k → sum_list l = sum_list k.
Proof. induction 1; rewrite ?sum_list_cons; lia. Qed.

(** Lowering the value at one member of the list lowers the sum. *)
Lemma sum_list_lower (f g : string → nat) (l : list string) (n : string) :
  n ∈ l → (g n < f n)%nat → (∀ m, m ≠ n → g m = f m) →
  (sum_list (g <$> l) < sum_list (f <$> l))%nat.
Proof.
  intros Hn Hlt Hsame.
  assert (∀ l, (sum_list (g <$> l) ≤ sum_list (f <$> l))%nat) as Hle.
  { clear Hn l. intros l. induction l as [|m l IH]; [done|].
    rewrite !fmap_cons, !sum_list_cons.
    destruct (decide (m = n)) as [->|Hne]; [lia|]. rewrite (Hsame m Hne). lia. }
  induction l as [|m l IH]; [by apply elem_of_nil in Hn|].
  rewrite !fmap_cons, !sum_list_cons.
  apply elem_of_cons in Hn as [<-|Hn].
  - specialize (Hle l). lia.
  - specialize (IH Hn). destruct (decide (m = n)) as [->|Hne]; [lia|].
    rewrite (Hsame m Hne). lia.
Qed.

Lemma frozenTotal_setFrozenProblems (s : System) (fp : gmap string (gset string)) :
  sameFrozen (frozenProblems s) fp →
  frozenTotal (setFrozenProblems s fp) = frozenTotal s.
Proof.
  intros H. unfold frozenTotal. simpl. f_equal.
  apply list_fmap_ext. intros i n _. by rewrite (H n).
Qed.

(** Every reveal takes one problem out of the frozen-problem sets of the
    ranked teams. *)
Lemma revealStep_frozenTotal (n p : string) (s s' : System)
    (changes : list (string * string)) :
  n ∈ teamOrder s → p ∈ frozenSet (frozenProblems s) n →
  revealStep n p s = Ok (s', changes) →
  (frozenTotal s' < frozenTotal s)%nat.
Proof.
  intros Hn Hp Hstep.
  assert (frozenTotal s'
          = sum_list ((λ m, size (frozenSet (revealedFrozen s n p) m)) <$> teamOrder s))
    as ->.
  { apply revealStep_Ok in Hstep as [(_ & _ & _ & Hsort & -> & _)|(_ & -> & _)];
      [|done].
    unfold frozenTotal. simpl. apply sum_list_perm, fmap_Permutation.
    by apply sortBy_perm in Hsort. }
  apply (sum_list_lower _ _ _ n); [done| |].
  - rewrite revealedFrozen_eq.
    assert (frozenSet (frozenProblems s) n
            = {[p]} ∪ frozenSet (frozenProblems s) n ∖ {[p]}) as Heq.
    { apply leibniz_equiv. apply union_difference_singleton. done. }
    set (X := frozenSet (frozenProblems s) n) in *.
    assert (size ({[p]} ∪ X ∖ {[p]}) = S (size (X ∖ {[p]}))) as Hsz.
    { rewrite size_union; [by rewrite size_singleton | set_solver]. }
    rewrite <- Heq in Hsz. lia.
  - intros m Hm. by rewrite revealedFrozen_ne.
Qed.

(** Only the loop counts iterations: nothing else returns [Fuel]. *)
Lemma mapR_no_fuel {A B} (f : A → Res B) (l : list A) :
  (∀ a, f a ≠ Fuel) → mapR f l ≠ Fuel.
Proof.
  intros Hf. induction l as [|a l IH]; simpl; [done|].
  destruct (f a) eqn:Ea; simpl; [|done|by apply Hf in Ea].
  by destruct (mapR f l).
Qed.

Lemma rankBefore_no_fuel (s : System) (a b : string) : rankBefore s a b ≠ Fuel.
Proof.
  assert (∀ t, getSolveTimes t ≠ Fuel) as Hg.
  { intros t. unfold getSolveTimes.
    destruct (mapR _ _) eqn:E; simpl; [done..|].
    apply mapR_no_fuel in E; [done|]. intros q. unfold mapAt.
    by destruct (firstAcceptTime t !! q). }
  unfold rankBefore.
  destruct (negb _); [done|]. destruct (negb _); [done|].
  destruct (getSolveTimes (getTeam s a)) eqn:Ea; simpl; [|done|by apply Hg in Ea].
  destruct (getSolveTimes (getTeam s b)) eqn:Eb; simpl; [|done|by apply Hg in Eb].
  by destruct (firstDiff _ _) as [[??]|].
Qed.

Lemma sortBy_no_fuel {A} (f : A → A → Res bool) (l : list A) :
  (∀ a b, f a b ≠ Fuel) → sortBy f l ≠ Fuel.
Proof.
  intros Hf. induction l as [|x l IHl]; simpl; [done|].
  destruct (sortBy f l) as [r| |]; simpl; [|done..].
  clear IHl. induction r as [|y r IHr]; simpl; [done|].
  destruct (f x y) as [[]| |] eqn:Exy; simpl; [done| |done|by apply Hf in Exy].
  by destruct (insertBy f x r).
Qed.

Lemma solveProblem_no_fuel (t : Team) (p : string) (time : Z) :
  solveProblem t p time ≠ Fuel.
Proof.
  unfold solveProblem, addPenalty, getProblemPenalty, mapAt. simpl.
  rewrite !lookup_insert_eq. simpl. by destruct (wrongSubmissions t !! p).
Qed.

Lemma updateRankings_no_fuel (s : System) : updateRankings s ≠ Fuel.
Proof.
  unfold updateRankings. destruct (sortBy _ _) eqn:Hsort; simpl; try done.
  apply sortBy_no_fuel in Hsort; [done|]. intros. apply rankBefore_no_fuel.
Qed.

Lemma revealStep_no_fuel (n p : string) (s : System) : revealStep n p s ≠ Fuel.
Proof.
  unfold revealStep.
  destruct (_ >? _); [destruct (negb _)|]; simpl; try done.
  destruct (solveProblem _ _ _) eqn:Hsolve; simpl; try done.
  - destruct (updateRankings _) eqn:Hrank; simpl; try done.
    + case_decide; [done|]. by destruct (String.eqb _ _).
    + by apply updateRankings_no_fuel in Hrank.
  - by apply solveProblem_no_fuel in Hsolve.
Qed.

(** The loop ends within its budget: it never runs out of fuel. *)
Lemma scrollLoop_enough_fuel (fuel : nat) (s : System) (acc : list (string * string)) :
  (frozenTotal s < fuel)%nat → scrollLoop fuel s acc ≠ Fuel.
Proof.
  revert s acc. induction fuel as [|fuel IH]; intros s acc Hlt; [lia|].
  simpl. destruct (findFrozenTeam _ _) as [[t p] fp] eqn:Hfind.
  apply findFrozenTeam_spec in Hfind as [Hsame Hcases].
  destruct (String.eqb_spec t "") as [->|Hne]; [done|].
  destruct Hcases as [(-> & _)|(l1 & l2 & Hl & _ & Hnonempty & ->)]; [done|].
  destruct (revealStep _ _ _) as [[s1 ch]| |] eqn:Hstep; simpl; [|done|].
  - apply IH.
    apply revealStep_frozenTotal in Hstep.
    + rewrite frozenTotal_setFrozenProblems in Hstep by done. lia.
    + simpl. apply elem_of_rev. rewrite Hl. set_solver.
    + simpl. rewrite (Hsame t). by apply smallest_spec.
  - by apply revealStep_no_fuel in Hstep.
Qed.

(** ** Every command keeps the invariant *)

Lemma Inv_initial : Inv initialSystem.
Proof.
  split; simpl; try done.
  - intros n Hn. by apply elem_of_nil in Hn.
  - constructor.
  - intros n p Hn. by apply elem_of_nil in Hn.
Qed.

Lemma Inv_slots_order (s : System) :
  Inv s → ∀ n p, n ∈ teamOrder s → p ∈ problemNames s → hasSlots (getTeam s n) p.
Proof. intros HI. apply HI. Qed.

Lemma updateRankings_inv (s s' : System) :
  Inv s → updateRankings s = Ok s' → Inv s'.
Proof.
  intros HI [-> Hperm]%updateRankings_Ok. by apply Inv_setTeamOrder.
Qed.

Lemma printScoreboard_Ok (s s' : System) (rows : list string) :
  Inv s → printScoreboard s = Ok (s', rows) →
  ∃ fp', s' = setFrozenProblems s fp' ∧ sameFrozen (frozenProblems s) fp'
         ∧ rows = boardText s.
Proof.
  intros HI Hprint.
  destruct (printScoreboard_pure s (Inv_slots_order s HI)) as (fp' & Heq & Hsame).
  rewrite Heq in Hprint. injection Hprint as <- <-. by exists fp'.
Qed.

Lemma printScoreboard_inv (s s' : System) (rows : list string) :
  Inv s → printScoreboard s = Ok (s', rows) → Inv s'.
Proof.
  intros HI (fp' & -> & Hsame & _)%printScoreboard_Ok; [|done].
  by apply Inv_setFrozenProblems.
Qed.

Lemma flushScoreboard_inv (s s' : System) (out : list string) :
  Inv s → flushScoreboard s = Ok (s', out) → Inv s'.
Proof.
  intros HI. unfold flushScoreboard.
  intros (s1 & Hrank & ([s2 rows] & Hprint & [= <- <-])%bindR_Ok)%bindR_Ok.
  apply (printScoreboard_inv s1 s2 rows); [|done].
  by apply (updateRankings_inv s s1).
Qed.

Lemma freezeScoreboard_inv (s : System) : Inv s → Inv (freezeScoreboard s).1.
Proof.
  intros HI. unfold freezeScoreboard. destruct (isFrozen s) eqn:Hf; [done|].
  destruct HI as [Ht Ho Hn Hsl Hfu Hun Hpre]. by split.
Qed.

Lemma Inv_unfreeze (s : System) :
  Inv s → Inv (setFrozenProblems (setIsFrozen s false) ∅).
Proof.
  intros [Ht Ho Hn Hsl Hfu Hun Hpre]. split; simpl; try done.
  intros Hs. destruct (Hpre Hs) as (? & ? & ?). by repeat split.
Qed.

Lemma scrollLoop_inv (fuel : nat) (s s' : System) (acc changes : list (string * string)) :
  Inv s → scrollLoop fuel s acc = Ok (s', changes) → Inv s'.
Proof.
  apply (scrollLoop_invariant Inv).
  - intros s0 fp HI Hsame. by apply Inv_setFrozenProblems.
  - intros s0 n p s1 ch HI _ Hp Hstep. by apply (revealStep_inv n p s0 s1 ch).
Qed.

Lemma scrollScoreboard_inv (s s' : System) (out : list string) :
  Inv s → scrollScoreboard s = Ok (s', out) → Inv s'.
Proof.
  intros HI. unfold scrollScoreboard.
  destruct (isFrozen s); simpl; [|by intros [= <- <-]].
  intros (s1 & Hrank & Hrest)%bindR_Ok.
  apply bindR_Ok in Hrest as ([s2 before] & Hprint1 & Hrest).
  apply bindR_Ok in Hrest as ([s3 changes] & Hloop & Hrest).
  apply bindR_Ok in Hrest as ([s4 after] & Hprint2 & [= <- <-]).
  apply Inv_unfreeze.
  apply (printScoreboard_inv s3 s4 after); [|done].
  apply (scrollLoop_inv (S (frozenTotal s2)) s2 s3 [] changes); [|exact Hloop].
  apply (printScoreboard_inv s1 s2 before); [|done].
  by apply (updateRankings_inv s s1).
Qed.

(** A command is admissible in a state when it is not a submission that
    comes before the start. *)
Lemma step_inv (c : Command) (s s' : System) (out : list string) :
  Inv s →
  (∀ p n st time, c = SUBMIT p n st time → competitionStarted s = true) →
  step c s = Ok (s', out) → Inv s'.
Proof.
  intros HI Hadm. destruct c; simpl.
  - intros [= H]. replace s' with (addTeam teamName s).1 by (by rewrite H).
    by apply addTeam_inv.
  - intros [= H].
    replace s' with (startCompetition duration problemCnt s).1 by (by rewrite H).
    by apply startCompetition_inv.
  - intros (s1 & Hsub & [= <- <-])%bindR_Ok.
    apply (submitProblem_inv problemName teamName statusStr time s s1); [done| |done].
    by eapply Hadm.
  - by apply flushScoreboard_inv.
  - intros [= H]. replace s' with (freezeScoreboard s).1 by (by rewrite H).
    by apply freezeScoreboard_inv.
  - by apply scrollScoreboard_inv.
  - by intros [= <- <-].
  - by intros [= <- <-].
  - by intros [= <- <-].
Qed.

Lemma scrollLoop_S (fuel : nat) (s : System) (acc : list (string * string)) :
  scrollLoop (S fuel) s acc
  = let '(teamToUnfreeze, problemToUnfreeze, fp) :=
      findFrozenTeam (rev (teamOrder s)) (frozenProblems s) in
    if String.eqb teamToUnfreeze "" then Ok (setFrozenProblems s fp, acc)
    else '(s1, changes) ← revealStep teamToUnfreeze problemToUnfreeze
                            (setFrozenProblems s fp);
         scrollLoop fuel s1 (acc ++ changes).
Proof. reflexivity. Qed.


(** From here on the loop is reasoned about through the lemmas above. *)
Arguments scrollLoop : simpl never.

(** ** What no reveal, print or ranking update touches *)

Lemma printScoreboard_state (s s' : System) (rows : list string) :
  printScoreboard s = Ok (s', rows) → ∃ fp, s' = setFrozenProblems s fp.
Proof.
  unfold printScoreboard. intros ([rows' fp] & _ & [= <- <-])%bindR_Ok. eauto.
Qed.

Lemma revealStep_started (n p : string) (s s' : System) (ch : list (string * string)) :
  revealStep n p s = Ok (s', ch) →
  competitionStarted s' = competitionStarted s
  ∧ problemNames s' = problemNames s
  ∧ submissions s' = submissions s
  ∧ isFrozen s' = isFrozen s.
Proof.
  intros [(_ & _ & _ & _ & -> & _)|(_ & -> & _)]%revealStep_Ok; done.
Qed.

Lemma scrollLoop_started (fuel : nat) (s s' : System) (acc ch : list (string * string)) :
  scrollLoop fuel s acc = Ok (s', ch) →
  competitionStarted s' = competitionStarted s
  ∧ problemNames s' = problemNames s
  ∧ submissions s' = submissions s
  ∧ isFrozen s' = isFrozen s.
Proof.
  apply (scrollLoop_invariant
           (λ x, competitionStarted x = competitionStarted s
                 ∧ problemNames x = problemNames s
                 ∧ submissions x = submissions s
                 ∧ isFrozen x = isFrozen s)); [done| |done].
  intros s0 n p s1 ch0 (H1 & H2 & H3 & H4) _ _ (-> & -> & -> & ->)%revealStep_started.
  done.
Qed.

Lemma scrollScoreboard_started (s s' : System) (out : list string) :
  scrollScoreboard s = Ok (s', out) →
  competitionStarted s' = competitionStarted s
  ∧ problemNames s' = problemNames s
  ∧ submissions s' = submissions s.
Proof.
  unfold scrollScoreboard.
  destruct (isFrozen s); simpl; [|by intros [= <- <-]].
  intros (s1 & [-> _]%updateRankings_Ok & Hrest)%bindR_Ok.
  apply bindR_Ok in Hrest as ([s2 before] & [fp1 ->]%printScoreboard_state & Hrest).
  apply bindR_Ok in Hrest as ([s3 changes] & Hloop & Hrest).
  apply bindR_Ok in Hrest as ([s4 after] & [fp2 ->]%printScoreboard_state & [= <- <-]).
  apply scrollLoop_started in Hloop as (H1 & H2 & H3 & _). simpl in *. done.
Qed.

Lemma step_started (c : Command) (s s' : System) (out : list string) :
  step c s = Ok (s', out) →
  competitionStarted s = true → competitionStarted s' = true.
Proof.
  intros Hstep Hs. destruct c; simpl in Hstep.
  - injection Hstep as H. unfold addTeam in H. rewrite Hs in H. by injection H as <- _.
  - injection Hstep as H. unfold startCompetition in H. rewrite Hs in H.
    by injection H as <- _.
  - apply bindR_Ok in Hstep as (s1 & Hsub & [= <- <-]).
    rewrite submitProblem_cases in Hsub.
    repeat (case_match; simplify_eq; try done).
  - unfold flushScoreboard in Hstep.
    apply bindR_Ok in Hstep as (s1 & [-> _]%updateRankings_Ok & Hrest).
    apply bindR_Ok in Hrest as ([s2 rows] & [fp ->]%printScoreboard_state & [= <- <-]).
    done.
  - injection Hstep as H. unfold freezeScoreboard in H.
    destruct (isFrozen s); by injection H as <- _.
  - apply scrollScoreboard_started in Hstep as (-> & _). done.
  - by injection Hstep as <- _.
  - by injection Hstep as <- _.
  - by injection Hstep as <- _.
Qed.

(** ** Contest runs keep the invariant *)

Lemma run_inv (cs : list Command) (s s' : System) (out : list string) :
  Inv s →
  competitionStarted s = true ∨ submitsAfterStart cs = true →
  run cs s = Ok (s', out) → Inv s'.
Proof.
  revert s out. induction cs as [|c cs IH]; intros s out HI Hguard; simpl.
  - by intros [= <- <-].
  - assert (c = END ∨ c ≠ END) as [->|Hc] by (destruct c; auto).
    { by intros [= <- <-]. }
    assert (run (c :: cs) s
            = '(s1, out1) ← step c s; '(s2, out2) ← run cs s1; Ok (s2, out1 ++ out2))
      as Hrun by (by destruct c).
    simpl in Hrun. rewrite Hrun. clear Hrun.
    intros ([s1 out1] & Hstep & ([s2 out2] & Hrest & [= <- <-])%bindR_Ok)%bindR_Ok.
    apply (IH s1 out2); [| |done].
    + apply (step_inv c s s1 out1); [done| |done].
      intros p n st time ->. destruct Hguard as [?|?]; done.
    + destruct (competitionStarted s) eqn:Hs.
      * left. by apply (step_started c s s1 out1).
      * destruct Hguard as [?|Hguard]; [done|].
        destruct c; simpl in *; try done; try by right.
        injection Hstep as H. unfold startCompetition in H. rewrite Hs in H.
        left. by injection H as <- _.
Qed.

Lemma reachable_inv (s : System) : reachable s → Inv s.
Proof.
  intros (cs & out & Hguard & Hrun).
  apply (run_inv cs initialSystem s out); [apply Inv_initial|by right|done].
Qed.

Lemma stateAfter_reachable (cs : list Command) :
  submitsAfterStart cs = true → reachable (stateAfter cs).
Proof.
  intros Hguard. unfold stateAfter.
  destruct (run cs initialSystem) as [[s out]| |] eqn:Hrun.
  - by exists cs, out.
  - by exists [], [].
  - by exists [], [].
Qed.

(** * The claims *)

(** ** Failing operations *)

(** C8.  An operation that fails leaves the whole state as it was:
    registering a team after the start or under a name already in use,
    freezing a frozen board, scrolling a board that is not frozen.  Each
    returns the state it was given, with its error line. *)
Theorem C8_failed_operations_change_nothing (s : System) (n : string) :
  (competitionStarted s = true →
   addTeam n s = (s, [errorMessage CompetitionAlreadyStarted]))
  ∧ (competitionStarted s = false → is_Some (teams s !! n) →
     addTeam n s = (s, [errorMessage DuplicateTeam]))
  ∧ (isFrozen s = true →
     freezeScoreboard s = (s, [errorMessage AlreadyFrozen]))
  ∧ (isFrozen s = false →
     scrollScoreboard s = Ok (s, [errorMessage NotFrozen])).
Proof.
  repeat split.
  - intros H. unfold addTeam. by rewrite H.
  - intros H Hn. unfold addTeam. rewrite H. by case_decide.
  - intros H. unfold freezeScoreboard. by rewrite H.
  - intros H. unfold scrollScoreboard. by rewrite H.
Qed.

Lemma C8_failed_operations_witness :
  let started := stateAfter [ADDTEAM "a"; START 10 1] in
  let registering := stateAfter [ADDTEAM "a"] in
  let frozen := stateAfter [ADDTEAM "a"; START 10 1; FREEZE] in
  addTeam "b" started = (started, [errorMessage CompetitionAlreadyStarted])
  ∧ addTeam "a" registering = (registering, [errorMessage DuplicateTeam])
  ∧ freezeScoreboard frozen = (frozen, [errorMessage AlreadyFrozen])
  ∧ scrollScoreboard started = Ok (started, [errorMessage NotFrozen]).
Proof.
  intros started registering frozen. split; [|split; [|split]].
  - apply (C8_failed_operations_change_nothing started "b"). reflexivity.
  - apply (C8_failed_operations_change_nothing registering "a"); [reflexivity|].
    vm_compute. eauto.
  - apply (C8_failed_operations_change_nothing frozen "a"). reflexivity.
  - apply (C8_failed_operations_change_nothing started "a"). reflexivity.
Defined.

(** ** Submission queries *)

Lemma find_rev_newest {A} (f : A → bool) (l : list A) :
  match List.find f (rev l) with
  | Some m => ∃ older newer, l = older ++ m :: newer ∧ f m = true
                             ∧ Forall (λ x, f x = false) newer
  | None => Forall (λ x, f x = false) l
  end.
Proof.
  induction l as [|x l IH] using rev_ind; simpl; [constructor|].
  rewrite rev_app_distr. simpl. destruct (f x) eqn:Hx.
  - exists l, []. by repeat split.
  - destruct (List.find f (rev l)) as [m|].
    + destruct IH as (older & newer & -> & Hm & Hnewer).
      exists older, (newer ++ [x]). rewrite <- app_assoc. simpl.
      repeat split; [done|]. apply Forall_app. split; [done|]. by constructor.
    + apply Forall_app. split; [done|]. by constructor.
Qed.

Lemma submissionMatches_spec (teamName problemName statusStr : string) (m : Submission) :
  statusStr ≠ "ALL" →
  submissionMatches teamName problemName statusStr m = true
  ↔ matchesFilter teamName problemName (stringToStatus statusStr) m.
Proof.
  intros Hall. unfold submissionMatches, matchesFilter.
  destruct (String.eqb_spec statusStr "ALL") as [?|_]; [done|]. simpl.
  rewrite !andb_true_iff, orb_true_iff, bool_decide_eq_true.
  rewrite !String.eqb_eq. tauto.
Qed.

Lemma stringToStatus_unknown (statusStr : string) :
  statusStr ≠ "Accepted" → statusStr ≠ "Wrong_Answer" →
  statusStr ≠ "Runtime_Error" → statusStr ≠ "Time_Limit_Exceed" →
  stringToStatus statusStr = WRONG_ANSWER.
Proof.
  intros H1 H2 H3 H4. unfold stringToStatus.
  destruct (String.eqb_spec statusStr "Accepted"); [done|].
  destruct (String.eqb_spec statusStr "Wrong_Answer"); [done|].
  destruct (String.eqb_spec statusStr "Runtime_Error"); [done|].
  by destruct (String.eqb_spec statusStr "Time_Limit_Exceed").
Qed.

(** C10.  A status filter that is neither ["ALL"] nor one of the four
    status labels is read as [Wrong_Answer]: the query answers exactly as
    the query with the filter ["Wrong_Answer"] does, and for a team in the
    registry that answer is the newest logged submission of the team that
    matches the problem filter and has status Wrong_Answer, or the line
    for "no result" when the log holds none. *)
Theorem C10_unknown_status_filter_is_wrong_answer
    (s : System) (teamName problemName statusStr : string) :
  statusStr ≠ "ALL" → statusStr ≠ "Accepted" → statusStr ≠ "Wrong_Answer" →
  statusStr ≠ "Runtime_Error" → statusStr ≠ "Time_Limit_Exceed" →
  querySubmission teamName problemName statusStr s
  = querySubmission teamName problemName "Wrong_Answer" s
  ∧ (is_Some (teams s !! teamName) →
     (∃ m, newestWith (matchesFilter teamName problemName WRONG_ANSWER)
                      (submissions s) m
           ∧ querySubmission teamName problemName statusStr s
             = ["[Info]Complete query submission."; submissionLine m])
     ∨ (Forall (λ m, ¬ matchesFilter teamName problemName WRONG_ANSWER m)
               (submissions s)
        ∧ querySubmission teamName problemName statusStr s
          = ["[Info]Complete query submission."; "Cannot find any submission."])).
Proof.
  intros Hall H1 H2 H3 H4.
  pose proof (stringToStatus_unknown statusStr H1 H2 H3 H4) as Hst.
  assert (∀ m, submissionMatches teamName problemName statusStr m = true
               ↔ matchesFilter teamName problemName WRONG_ANSWER m) as Hm.
  { intros m. by rewrite submissionMatches_spec, Hst. }
  assert (∀ m, submissionMatches teamName problemName statusStr m
               = submissionMatches teamName problemName "Wrong_Answer" m) as Heq.
  { intros m. unfold submissionMatches.
    destruct (String.eqb_spec statusStr "ALL") as [?|_]; [done|]. by rewrite Hst. }
  split.
  - unfold querySubmission. case_decide; [done|]. do 2 f_equal.
    induction (rev (submissions s)) as [|x l IH]; simpl; [done|].
    rewrite Heq. by destruct (submissionMatches _ _ "Wrong_Answer" x).
  - intros [t Ht]. unfold querySubmission. case_decide; [congruence|].
    pose proof (find_rev_newest (submissionMatches teamName problemName statusStr)
                  (submissions s)) as Hfind.
    destruct (List.find _ _) as [m|].
    + left. exists m. split; [|done].
      destruct Hfind as (older & newer & Hlog & Hmatch & Hnewer).
      exists older, newer. split; [done|]. split; [by apply Hm|].
      eapply Forall_impl; [exact Hnewer|]. intros x Hx Hx'%Hm. congruence.
    + right. split; [|done].
      eapply Forall_impl; [exact Hfind|]. intros x Hx Hx'%Hm. congruence.
Qed.

Lemma C10_unknown_status_filter_witness :
  let s := stateAfter [ADDTEAM "t"; START 10 2;
                       SUBMIT "A" "t" "Wrong_Answer" 3;
                       SUBMIT "B" "t" "Runtime_Error" 4] in
  querySubmission "t" "ALL" "Presentation_Error" s
  = ["[Info]Complete query submission."; "t A Wrong_Answer 3"].
Proof.
  intros s.
  destruct (C10_unknown_status_filter_is_wrong_answer s "t" "ALL" "Presentation_Error")
    as [-> _]; try discriminate.
  reflexivity.
Defined.

(** ** Submissions while the board is frozen *)




(** ** Submissions by a team that never registered *)

(** C9.  [submitProblem] creates the record of an unknown team with
    [teams[teamName]], a [Team()] without any per-problem entry; when the
    board is not frozen and the outcome is Accepted, [getProblemPenalty]
    then reads [wrongSubmissions.at(problem)], which does not exist, and
    the exception ends the program. *)
Theorem C9_accepted_submission_by_unknown_team_throws
    (s : System) (p n st : string) (time : Z) :
  teams s !! n = None → isFrozen s = false → stringToStatus st = ACCEPTED →
  submitProblem p n st time s = Throw.
Proof.
  intros Hn Hf Hst. rewrite submitProblem_cases.
  unfold getTeam, mapGet. rewrite Hn, Hf, Hst. done.
Qed.

Lemma C9_accepted_submission_by_unknown_team_witness :
  submitProblem "A" "ghost" "Accepted" 5 (stateAfter [ADDTEAM "t"; START 10 1])
  = Throw.
Proof.
  by apply C9_accepted_submission_by_unknown_team_throws.
Defined.

(** In the other cases the submission goes through as the claim says: the
    team gets a record, so the queries no longer report it missing, and it
    is in no ranking order, so [queryRanking] prints no position. *)
Lemma unknown_team_submission_otherwise (s : System) (p n st : string) (time : Z) :
  teams s !! n = None → n ∉ teamOrder s →
  isFrozen s = true ∨ stringToStatus st ≠ ACCEPTED →
  ∃ s', submitProblem p n st time s = Ok s'
        ∧ is_Some (teams s' !! n)
        ∧ teamOrder s' = teamOrder s
        ∧ queryRanking n s'
          = "[Info]Complete query ranking."
            :: (if isFrozen s
                then ["[Warning]Scoreboard is frozen. The ranking may be inaccurate until it were scrolled."]
                else [])
        ∧ head (querySubmission n p "ALL" s') = Some "[Info]Complete query submission.".
Proof.
  intros Hn Horder Hcase. rewrite submitProblem_cases.
  assert (getTeam s n = newTeam "") as -> by (unfold getTeam, mapGet; by rewrite Hn).
  assert (∀ l k, n ∉ l → findRank k l n = None) as Hrank.
  { intros l. induction l as [|x l IH]; intros k Hl; simpl; [done|].
    destruct (String.eqb_spec x n) as [->|]; [set_solver|]. apply IH. set_solver. }
  change (solved (newTeam "") p) with false. cbv iota.
  destruct (isFrozen s) eqn:Hf.
  - eexists. split; [done|]. unfold queryRanking, querySubmission. simpl.
    rewrite lookup_insert_eq, Hrank by done.
    rewrite !decide_False by done. rewrite Hf. by repeat split.
  - destruct Hcase as [?|Hst]; [done|]. rewrite decide_False by done.
    eexists. split; [done|]. unfold queryRanking, querySubmission. simpl.
    rewrite lookup_insert_eq, Hrank by done.
    rewrite !decide_False by done. rewrite Hf. by repeat split.
Qed.

(** ** The reveal and the log *)




(** C1.  The reveal looks for the accepted submission with the test
    [submission.time > 0], which the source comments as "time > 0 indicates
    after freeze".  An Accepted submission received while the board is
    frozen with the time 0 is therefore not found: after the run
    [acceptedAtZero] the reveal of problem A for team t leaves A unsolved,
    [solvedCount] and [penaltyTime] at 0, and only resets the frozen
    counter; the scoreboard printed by SCROLL shows the cell as ".". *)
Theorem C1_reveal_skips_accepted_at_time_zero :
  let s := stateAfter acceptedAtZero in
  isFrozen s = true
  ∧ submissions s = [mkSubmission "t" "A" ACCEPTED 0]
  ∧ frozenSet (frozenProblems s) "t" = {[ "A" ]}
  ∧ frozenPending (getTeam s "t") "A" = 1
  ∧ (∃ s', revealStep "t" "A" s = Ok (s', [])
           ∧ solved (getTeam s' "t") "A" = false
           ∧ solvedCount (getTeam s' "t") = 0
           ∧ penaltyTime (getTeam s' "t") = 0
           ∧ frozenPending (getTeam s' "t") "A" = 0)
  ∧ outputOf (acceptedAtZero ++ [SCROLL])
    = ["[Info]Add successfully."; "[Info]Competition starts.";
       "[Info]Freeze scoreboard."; "[Info]Scroll scoreboard.";
       "t 1 0 0 0/1"; "t 1 0 0 ."].
Proof.
  intros s. split; [reflexivity|]. split; [reflexivity|].
  split; [by vm_compute|]. split; [reflexivity|]. split; [|reflexivity].
  eexists. split; [vm_compute; reflexivity|]. by vm_compute.
Qed.


(** ** What the frozen-problem sets record *)

Lemma FrozenInv_no_frozen (s : System) :
  (∀ n p, 0 ≤ frozenPending (getTeam s n) p) →
  (∀ n, frozenSet (frozenProblems s) n = ∅) → FrozenInv s.
Proof.
  intros Hnn He. split; [done|..]; intros n p Hp; rewrite He in Hp; set_solver.
Qed.

Lemma initTeam_frozenPending (names : list string) (t : Team) (p : string) :
  0 ≤ frozenPending t p → 0 ≤ frozenPending (initTeam names t) p.
Proof.
  revert t. induction names as [|x names IH]; intros t Ht; simpl; [done|].
  apply IH. unfold frozenPending, initProblem. simpl.
  destruct (decide (x = p)) as [->|].
  - by rewrite mapGet_insert_eq.
  - by rewrite mapGet_insert_ne.
Qed.

Lemma revealStep_frozenInv (n p : string) (s s' : System) (ch : list (string * string)) :
  FrozenInv s → revealStep n p s = Ok (s', ch) → FrozenInv s'.
Proof.
  intros [Hnn Hpend Hlog] Hstep.
  assert (∀ m q, q ∈ frozenSet (revealedFrozen s n p) m
                 → q ∈ frozenSet (frozenProblems s) m ∧ (m = n → q ≠ p)) as Hsub.
  { intros m q. destruct (decide (n = m)) as [->|Hne].
    - rewrite revealedFrozen_eq. set_solver.
    - rewrite revealedFrozen_ne by done. intros ?. split; [done|congruence]. }
  apply revealStep_Ok in Hstep as [(_ & _ & _ & _ & -> & _)|(_ & -> & _)].
  - split; simpl; unfold getTeam; simpl.
    + intros m q. destruct (decide (n = m)) as [->|Hne].
      * rewrite mapGet_insert_eq. unfold frozenPending. simpl.
        destruct (decide (p = q)) as [->|].
        -- by rewrite mapGet_insert_eq.
        -- rewrite mapGet_insert_ne by done. apply Hnn.
      * rewrite mapGet_insert_ne by done. apply Hnn.
    + intros m q [Hq Hne]%Hsub. destruct (decide (n = m)) as [->|Hnm].
      * rewrite mapGet_insert_eq. unfold frozenPending. simpl.
        rewrite mapGet_insert_ne by (intros ->; by apply Hne). by apply Hpend.
      * rewrite mapGet_insert_ne by done. by apply Hpend.
    + intros m q [Hq _]%Hsub. by apply Hlog.
  - split; simpl; unfold getTeam; simpl.
    + intros m q. destruct (decide (n = m)) as [->|Hne].
      * rewrite mapGet_insert_eq. unfold frozenPending. simpl.
        destruct (decide (p = q)) as [->|].
        -- by rewrite mapGet_insert_eq.
        -- rewrite mapGet_insert_ne by done. apply Hnn.
      * rewrite mapGet_insert_ne by done. apply Hnn.
    + intros m q [Hq Hne]%Hsub. destruct (decide (n = m)) as [->|Hnm].
      * rewrite mapGet_insert_eq. unfold frozenPending. simpl.
        rewrite mapGet_insert_ne by (intros ->; by apply Hne). by apply Hpend.
      * rewrite mapGet_insert_ne by done. by apply Hpend.
    + intros m q [Hq _]%Hsub. by apply Hlog.
Qed.

Lemma FrozenInv_setFrozenProblems (s : System) (fp : gmap string (gset string)) :
  FrozenInv s → sameFrozen (frozenProblems s) fp → FrozenInv (setFrozenProblems s fp).
Proof.
  intros [Hnn Hpend Hlog] Hsame. split; simpl; [done|..];
    intros n p; rewrite (Hsame n).
  - apply Hpend.
  - apply Hlog.
Qed.

Lemma FrozenInv_setTeamOrder (s : System) (o : list string) :
  FrozenInv s → FrozenInv (setTeamOrder s o).
Proof. intros [Hnn Hpend Hlog]. by split. Qed.

Lemma scrollLoop_frozenInv (fuel : nat) (s s' : System) (acc ch : list (string * string)) :
  FrozenInv s → scrollLoop fuel s acc = Ok (s', ch) → FrozenInv s'.
Proof.
  apply (scrollLoop_invariant FrozenInv).
  - intros s0 fp. apply FrozenInv_setFrozenProblems.
  - intros s0 n p s1 ch0 HI _ _. by apply revealStep_frozenInv.
Qed.

Lemma submitProblem_frozenInv (p n st : string) (time : Z) (s s' : System) :
  Inv s → FrozenInv s →
  submitProblem p n st time s = Ok s' → FrozenInv s'.
Proof.
  intros HI [Hnn Hpend Hlog]. rewrite submitProblem_cases.
  assert (∀ (t' : Team) m q,
            (∀ q, frozenPending t' q = frozenPending (getTeam s n) q) →
            frozenPending (mapGet (newTeam "") (<[n := t']> (teams s)) m) q
            = frozenPending (getTeam s m) q) as Hsame.
  { intros t' m q Ht'. destruct (decide (n = m)) as [->|Hne].
    - by rewrite mapGet_insert_eq.
    - by rewrite mapGet_insert_ne. }
  assert (∀ m q time', mkSubmission m q ACCEPTED time' ∈ submissions s →
                       mkSubmission m q ACCEPTED time' ∈ logged s p n st time) as Hgrow.
  { intros m q time' H. unfold logged. apply elem_of_app. by left. }
  destruct (solved (getTeam s n) p) eqn:Hs.
  { intros [= <-]. split; simpl; unfold getTeam; simpl.
    - intros m q. by rewrite Hsame.
    - intros m q Hq. rewrite Hsame by done. by apply Hpend.
    - intros m q Hq. destruct (Hlog m q Hq) as [time' H]. eauto. }
  destruct (isFrozen s) eqn:Hf.
  { intros [= <-]. split; simpl; unfold getTeam; simpl.
    - intros m q. destruct (decide (n = m)) as [->|Hne].
      + rewrite mapGet_insert_eq. unfold frozenPending. simpl.
        destruct (decide (p = q)) as [->|].
        * rewrite mapGet_incr_eq. pose proof (Hnn m q) as Hq0.
          unfold frozenPending, getTeam in Hq0. lia.
        * rewrite mapGet_incr_ne by done. apply Hnn.
      + rewrite mapGet_insert_ne by done. apply Hnn.
    - intros m q Hq. destruct (decide (n = m)) as [->|Hne].
      + rewrite mapGet_insert_eq. unfold frozenPending. simpl.
        destruct (decide (p = q)) as [->|Hpq].
        * rewrite mapGet_incr_eq. pose proof (Hnn m q) as Hq0.
          unfold frozenPending, getTeam in Hq0. lia.
        * rewrite mapGet_incr_ne by done. apply Hpend.
          case_decide; [|done]. rewrite frozenSet_insert_eq in Hq. set_solver.
      + rewrite mapGet_insert_ne by done. apply Hpend.
        case_decide; [|done]. by rewrite frozenSet_insert_ne in Hq.
    - intros m q Hq. case_decide as Hst.
      + destruct (decide (n = m)) as [->|Hne].
        * rewrite frozenSet_insert_eq in Hq.
          apply elem_of_union in Hq as [Hq%elem_of_singleton|Hq].
          -- subst q. exists time. unfold logged. apply elem_of_app. right.
             rewrite Hst. by left.
          -- destruct (Hlog m q Hq) as [time' H]. eauto.
        * rewrite frozenSet_insert_ne in Hq by done.
          destruct (Hlog m q Hq) as [time' H]. eauto.
      + destruct (Hlog m q Hq) as [time' H]. eauto. }
  pose proof (inv_unfrozen s HI Hf) as Hempty.
  case_decide.
  { destruct (wrongSubmissions (getTeam s n) !! p); [|done].
    intros [= <-]. apply FrozenInv_no_frozen; [|done].
    intros m q. unfold getTeam. simpl. by rewrite Hsame. }
  intros [= <-]. apply FrozenInv_no_frozen; [|done].
  intros m q. unfold getTeam. simpl. by rewrite Hsame.
Qed.

Lemma updateRankings_frozenInv (s s' : System) :
  FrozenInv s → updateRankings s = Ok s' → FrozenInv s'.
Proof.
  intros HF [Heq _]%updateRankings_Ok. rewrite Heq. by apply FrozenInv_setTeamOrder.
Qed.

Lemma printScoreboard_frozenInv (s s' : System) (rows : list string) :
  Inv s → FrozenInv s → printScoreboard s = Ok (s', rows) → FrozenInv s'.
Proof.
  intros HI HF (fp' & -> & Hsame & _)%printScoreboard_Ok; [|done].
  by apply FrozenInv_setFrozenProblems.
Qed.

Lemma step_frozenInv (c : Command) (s s' : System) (out : list string) :
  Inv s → FrozenInv s → step c s = Ok (s', out) → FrozenInv s'.
Proof.
  intros HI HF. destruct c; simpl.
  - intros [= H]. unfold addTeam in H.
    destruct (competitionStarted s) eqn:Hs; [by injection H as <- _|].
    case_decide; [by injection H as <- _|]. injection H as <- _.
    destruct (inv_prestart s HI Hs) as (_ & _ & Hempty).
    apply FrozenInv_no_frozen; [|done].
    intros m q. unfold getTeam. simpl. destruct (decide (teamName = m)) as [->|].
    + by rewrite mapGet_insert_eq.
    + rewrite mapGet_insert_ne by done. apply HF.
  - intros [= H]. unfold startCompetition in H.
    destruct (competitionStarted s) eqn:Hs; [by injection H as <- _|].
    injection H as <- _.
    destruct (inv_prestart s HI Hs) as (_ & _ & Hempty).
    apply FrozenInv_no_frozen; [|done].
    intros m q. unfold getTeam, mapGet. simpl. rewrite lookup_fmap.
    destruct (teams s !! m) as [t|] eqn:Hm; simpl; [|done].
    apply initTeam_frozenPending.
    pose proof (fz_nonneg s HF m q) as Hnn. unfold getTeam, mapGet in Hnn.
    by rewrite Hm in Hnn.
  - intros (s1 & Hsub & [= <- <-])%bindR_Ok.
    by apply (submitProblem_frozenInv problemName teamName statusStr time s s1).
  - unfold flushScoreboard.
    intros (s1 & Hrank & Hrest)%bindR_Ok.
    apply bindR_Ok in Hrest as ([s2 rows] & Hprint & [= <- <-]).
    apply (printScoreboard_frozenInv s1 s2 rows); [|  |done].
    + by apply (updateRankings_inv s s1).
    + by apply (updateRankings_frozenInv s s1).
  - intros [= H]. unfold freezeScoreboard in H.
    destruct (isFrozen s); injection H as <- _; [done|].
    destruct HF as [Hnn Hpend Hlog]. by split.
  - unfold scrollScoreboard.
    destruct (isFrozen s); simpl; [|by intros [= <- <-]].
    intros (s1 & Hrank & Hrest)%bindR_Ok.
    apply bindR_Ok in Hrest as ([s2 before] & Hprint1 & Hrest).
    apply bindR_Ok in Hrest as ([s3 changes] & Hloop & Hrest).
    apply bindR_Ok in Hrest as ([s4 after] & [fp2 ->]%printScoreboard_state & [= <- <-]).
    apply FrozenInv_no_frozen; [|done]. simpl.
    assert (FrozenInv s2) as HF2.
    { apply (printScoreboard_frozenInv s1 s2 before); [| |done].
      - by apply (updateRankings_inv s s1).
      - by apply (updateRankings_frozenInv s s1). }
    apply (scrollLoop_frozenInv _ _ _ _ _ HF2) in Hloop. apply Hloop.
  - by intros [= <- <-].
  - by intros [= <- <-].
  - by intros [= <- <-].
Qed.

Lemma FrozenInv_initial : FrozenInv initialSystem.
Proof. by apply FrozenInv_no_frozen. Qed.

Lemma run_frozenInv (cs : list Command) (s s' : System) (out : list string) :
  Inv s → FrozenInv s →
  competitionStarted s = true ∨ submitsAfterStart cs = true →
  run cs s = Ok (s', out) → FrozenInv s'.
Proof.
  revert s out. induction cs as [|c cs IH]; intros s out HI HF Hguard; simpl.
  - by intros [= <- <-].
  - assert (c = END ∨ c ≠ END) as [->|Hc] by (destruct c; auto).
    { by intros [= <- <-]. }
    assert (run (c :: cs) s
            = '(s1, out1) ← step c s; '(s2, out2) ← run cs s1; Ok (s2, out1 ++ out2))
      as Hrun by (by destruct c).
    simpl in Hrun. rewrite Hrun. clear Hrun.
    intros ([s1 out1] & Hstep & ([s2 out2] & Hrest & [= <- <-])%bindR_Ok)%bindR_Ok.
    apply (IH s1 out2); [| | |done].
    + apply (step_inv c s s1 out1); [done| |done].
      intros p n st time ->. destruct Hguard as [?|?]; done.
    + by apply (step_frozenInv c s s1 out1).
    + destruct (competitionStarted s) eqn:Hs.
      * left. by apply (step_started c s s1 out1).
      * destruct Hguard as [?|Hguard]; [done|].
        destruct c; simpl in *; try done; try by right.
        injection Hstep as H. unfold startCompetition in H. rewrite Hs in H.
        left. by injection H as <- _.
Qed.

Lemma reachable_frozenInv (s : System) : reachable s → FrozenInv s.
Proof.
  intros (cs & out & Hguard & Hrun).
  apply (run_frozenInv cs initialSystem s out);
    [apply Inv_initial|apply FrozenInv_initial|by right|done].
Qed.

(** ** The scoreboard printed by FLUSH *)

Lemma cellText_spec (t : Team) (frozen : gset string) (p : string) :
  0 ≤ wrongCount t p → cellText t frozen p = cellSpec t frozen p.
Proof.
  intros Hw. unfold cellText, cellSpec, solvedForm, frozenForm, plainForm.
  destruct (Z.eqb_spec (wrongCount t p) 0) as [->|Hne].
  - done.
  - destruct (Z.ltb_spec 0 (wrongCount t p)); [done|lia].
Qed.

Lemma boardText_spec (s s' : System) :
  (∀ n p, 0 ≤ wrongCount (getTeam s n) p) →
  teams s' = teams s → problemNames s' = problemNames s →
  teamOrder s' = teamOrder s →
  sameFrozen (frozenProblems s) (frozenProblems s') →
  boardText s = boardSpec s'.
Proof.
  intros Hw Ht Hp Ho Hfp. unfold boardText, boardSpec. rewrite Ho.
  apply imap_ext. intros i n _. unfold rowText, rowSpec, getTeam.
  rewrite Ht, Hp, (Hfp n). do 3 f_equal.
  apply list_fmap_ext. intros j p _. apply cellText_spec. apply Hw.
Qed.

(** What FLUSH does on a state of a contest run. *)
Lemma flushScoreboard_reachable (s : System) :
  Inv s →
  ∃ o fp, flushScoreboard s
          = Ok (setFrozenProblems (setTeamOrder s o) fp,
                "[Info]Flush scoreboard." :: boardSpec (setFrozenProblems (setTeamOrder s o) fp))
          ∧ o ≡ₚ teamOrder s
          ∧ StronglySorted (holds (ranksBefore s)) o
          ∧ sameFrozen (frozenProblems s) fp.
Proof.
  intros HI. unfold flushScoreboard.
  destruct (updateRankings_sorted s) as (o & -> & Hperm & Hsorted).
  { intros n _. by apply getTeam_inv. }
  { apply HI. }
  simpl.
  pose proof (Inv_setTeamOrder s o HI Hperm) as HI1.
  destruct (printScoreboard_pure (setTeamOrder s o) (Inv_slots_order _ HI1))
    as (fp & -> & Hsame).
  simpl. exists o, fp. repeat split; try done.
  do 3 f_equal. apply boardText_spec; try done.
  intros n p. apply (getTeam_inv _ n HI1).
Qed.

(** C5, the claim as stated, fails: after the run [wrongWhileFrozen] the
    team has not solved A and has one submission pending on it, yet FLUSH
    prints the cell as "." where the frozen-pending form is "0/1". *)
Lemma C5_counterexample :
  let s := stateAfter wrongWhileFrozen in
  let t := getTeam s "t" in
  submitsAfterStart wrongWhileFrozen = true
  ∧ teamOrder s = ["t"] ∧ problemNames s = ["A"]
  ∧ solved t "A" = false
  ∧ frozenPending t "A" = 1
  ∧ frozenForm (wrongCount t "A") (frozenPending t "A") = "0/1"
  ∧ (∃ s', flushScoreboard s = Ok (s', ["[Info]Flush scoreboard."; "t 1 0 0 ."]))
  ∧ ¬ (∃ fp, printCell t "t" (frozenProblems s) "A"
             = Ok (frozenForm (wrongCount t "A") (frozenPending t "A"), fp)).
Proof.
  intros s t. repeat split; try reflexivity.
  - eexists. vm_compute. reflexivity.
  - intros [fp H]. vm_compute in H. discriminate H.
Qed.

(** C5, amended.  On every state of a contest run FLUSH does not throw and
    prints, after its header, one row per ranked team in the new order;
    each cell is [cellSpec]: [+] (with the wrong count when positive) for a
    solved problem, the frozen-pending form for an unsolved problem that is
    in the team's frozen-problem set, and [.] or [-w] for every other
    unsolved problem, whatever its pending count.  A problem is in a
    frozen-problem set only while the board is frozen, the team has not
    solved it, submissions on it are pending and an Accepted one is in the
    log. *)
Theorem C5_cells_follow_the_frozen_set (s : System) :
  reachable s →
  ∃ s', flushScoreboard s = Ok (s', "[Info]Flush scoreboard." :: boardSpec s')
        ∧ teams s' = teams s
        ∧ problemNames s' = problemNames s
        ∧ submissions s' = submissions s
        ∧ teamOrder s' ≡ₚ teamOrder s
        ∧ sameFrozen (frozenProblems s) (frozenProblems s')
        ∧ ∀ n p, p ∈ frozenSet (frozenProblems s') n →
                 isFrozen s' = true
                 ∧ solved (getTeam s' n) p = false
                 ∧ 0 < frozenPending (getTeam s' n) p
                 ∧ ∃ time, mkSubmission n p ACCEPTED time ∈ submissions s'.
Proof.
  intros Hreach.
  pose proof (reachable_inv s Hreach) as HI.
  pose proof (reachable_frozenInv s Hreach) as HF.
  destruct (flushScoreboard_reachable s HI) as (o & fp & -> & Hperm & _ & Hsame).
  eexists. split; [done|]. simpl. do 5 (split; [done|]).
  intros n p Hp. rewrite (Hsame n) in Hp. split; [|split; [|split]].
  - destruct (isFrozen s) eqn:Hf; [done|].
    rewrite (inv_unfrozen s HI Hf) in Hp. set_solver.
  - by apply (inv_frozen_unsolved s HI).
  - by apply (fz_pending s HF).
  - by apply (fz_logged s HF).
Qed.

Lemma C5_cells_follow_the_frozen_set_witness :
  ∃ s', flushScoreboard (stateAfter wrongWhileFrozen)
        = Ok (s', "[Info]Flush scoreboard." :: boardSpec s')
        ∧ boardSpec s' = ["t 1 0 0 ."].
Proof.
  destruct (C5_cells_follow_the_frozen_set (stateAfter wrongWhileFrozen))
    as (s' & Hflush & _).
  { by apply stateAfter_reachable. }
  exists s'. split; [done|].
  assert (flushScoreboard (stateAfter wrongWhileFrozen)
          = Ok (s', ["[Info]Flush scoreboard."; "t 1 0 0 ."])) as H.
  { rewrite Hflush. f_equal. f_equal. f_equal.
    assert (∃ x, flushScoreboard (stateAfter wrongWhileFrozen)
                 = Ok (x, ["[Info]Flush scoreboard."; "t 1 0 0 ."])) as [x Hx].
    { eexists. vm_compute. reflexivity. }
    rewrite Hx in Hflush. by injection Hflush as _ <-. }
  rewrite Hflush in H. by injection H as ->.
Defined.

(** ** Counters and solved flags only grow *)

Lemma getTeam_setTeamOrder (s : System) (o : list string) (n : string) :
  getTeam (setTeamOrder s o) n = getTeam s n.
Proof. reflexivity. Qed.

Lemma getTeam_setFrozenProblems (s : System) (fp : gmap string (gset string)) (n : string) :
  getTeam (setFrozenProblems s fp) n = getTeam s n.
Proof. reflexivity. Qed.

Lemma getTeam_updated (s : System) (n m : string) (t : Team)
    (subs : list Submission) (fp : gmap string (gset string)) :
  getTeam (updated s n t subs fp) m = if decide (n = m) then t else getTeam s m.
Proof.
  unfold getTeam. simpl. case_decide as H.
  - subst m. apply mapGet_insert_eq.
  - by apply mapGet_insert_ne.
Qed.










Lemma initTeam_counters (names : list string) (t : Team) :
  solvedCount (initTeam names t) = solvedCount t
  ∧ penaltyTime (initTeam names t) = penaltyTime t.
Proof.
  revert t. induction names as [|x names IH]; intros t; simpl; [done|].
  by destruct (IH (initProblem t x)) as [-> ->].
Qed.







Lemma run_cons (c : Command) (cs : list Command) (s : System) :
  c ≠ END →
  run (c :: cs) s
  = '(s1, out1) ← step c s; '(s2, out2) ← run cs s1; Ok (s2, out1 ++ out2).
Proof. by destruct c. Qed.

Lemma run_cons_Ok (c : Command) (cs : list Command) (s s' : System) (out : list string) :
  c ≠ END → run (c :: cs) s = Ok (s', out) →
  ∃ s1 out1 out2, step c s = Ok (s1, out1) ∧ run cs s1 = Ok (s', out2)
                  ∧ out = out1 ++ out2.
Proof.
  intros Hc. rewrite (run_cons c cs s Hc).
  intros ([s1 out1] & Hstep & ([s2 out2] & Hrest & [= <- <-])%bindR_Ok)%bindR_Ok.
  by exists s1, out1, out2.
Qed.

Lemma command_END_dec (c : Command) : c = END ∨ c ≠ END.
Proof. destruct c; auto. Qed.

Lemma wrongNonneg_Inv (s : System) : Inv s → wrongNonneg s.
Proof. intros HI n p. apply (getTeam_inv s n HI). Qed.






(** ** The ranking order and the registry *)

Lemma revealStep_order (n p : string) (s s' : System) (ch : list (string * string)) :
  revealStep n p s = Ok (s', ch) → teamOrder s' ≡ₚ teamOrder s.
Proof.
  intros [(_ & _ & _ & Hsort & _)|(_ & -> & _)]%revealStep_Ok; [|done].
  by apply sortBy_perm in Hsort.
Qed.

Lemma scrollLoop_order (fuel : nat) (s s' : System) (acc ch : list (string * string)) :
  scrollLoop fuel s acc = Ok (s', ch) → teamOrder s' ≡ₚ teamOrder s.
Proof.
  apply (scrollLoop_invariant (λ x, teamOrder x ≡ₚ teamOrder s)); [done| |done].
  intros x n p x' ch0 Hx _ _ Hstep. by rewrite (revealStep_order n p x x' ch0 Hstep).
Qed.

Lemma scrollScoreboard_order (s s' : System) (out : list string) :
  scrollScoreboard s = Ok (s', out) → teamOrder s' ≡ₚ teamOrder s.
Proof.
  unfold scrollScoreboard.
  destruct (isFrozen s); simpl; [|by intros [= <- <-]].
  intros (s1 & [Heq1 Hperm1]%updateRankings_Ok & Hrest)%bindR_Ok.
  apply bindR_Ok in Hrest as ([s2 before] & [fp1 ->]%printScoreboard_state & Hrest).
  apply bindR_Ok in Hrest as ([s3 changes] & Hloop & Hrest).
  apply bindR_Ok in Hrest as ([s4 after] & [fp2 ->]%printScoreboard_state & [= <- <-]).
  apply scrollLoop_order in Hloop. simpl in *. by rewrite Hloop.
Qed.

(** A command other than an acknowledged ADDTEAM rearranges the ranking
    order at most; an acknowledged ADDTEAM appends its team. *)
Lemma step_order (c : Command) (s s' : System) (out : list string) (registry : list string) :
  step c s = Ok (s', out) → teamOrder s ≡ₚ registry →
  teamOrder s' ≡ₚ registryAfter registry c out.
Proof.
  intros Hstep Hreg. destruct c; simpl in *.
  - injection Hstep as H. unfold addTeam in H.
    destruct (competitionStarted s); [by injection H as <- <-|].
    case_decide; injection H as <- <-; [done|]. simpl. by rewrite Hreg.
  - injection Hstep as H. unfold startCompetition in H.
    destruct (competitionStarted s); by injection H as <- <-.
  - apply bindR_Ok in Hstep as (s1 & Hsub & [= <- <-]).
    assert (teamOrder s1 = teamOrder s) as ->; [|done].
    rewrite submitProblem_cases in Hsub.
    repeat (case_match; simplify_eq; try done).
  - unfold flushScoreboard in Hstep.
    apply bindR_Ok in Hstep as (s1 & [Heq Hperm]%updateRankings_Ok & Hrest).
    apply bindR_Ok in Hrest as ([s2 rows] & [fp ->]%printScoreboard_state & [= <- <-]).
    simpl. by rewrite Hperm.
  - injection Hstep as H. unfold freezeScoreboard in H.
    destruct (isFrozen s); by injection H as <- _.
  - apply scrollScoreboard_order in Hstep. by rewrite Hstep.
  - by injection Hstep as <- _.
  - by injection Hstep as <- _.
  - by injection Hstep as <- _.
Qed.

(** Every visited state satisfies the invariants, and its ranking order
    holds exactly the registered teams. *)
Lemma visited_inv (registry : list string) (s : System) :
  visited registry s → Inv s ∧ FrozenInv s ∧ teamOrder s ≡ₚ registry.
Proof.
  induction 1 as [|registry c s s' out _ (HI & HF & Hreg) Hadm Hstep
                  |registry s s' _ (HI & HF & Hreg) Hrank
                  |registry s fp _ (HI & HF & Hreg) Hsame
                  |registry s n p s' ch _ (HI & HF & Hreg) Hn Hp Hstep].
  - split; [apply Inv_initial|]. split; [apply FrozenInv_initial|done].
  - split; [by apply (step_inv c s s' out)|].
    split; [by apply (step_frozenInv c s s' out)|].
    by apply (step_order c s s' out).
  - split; [by apply (updateRankings_inv s s')|].
    split; [by apply (updateRankings_frozenInv s s')|].
    apply updateRankings_Ok in Hrank as [_ Hperm]. by rewrite Hperm.
  - split; [by apply Inv_setFrozenProblems|].
    split; [by apply FrozenInv_setFrozenProblems|done].
  - split; [by apply (revealStep_inv n p s s' ch)|].
    split; [by apply (revealStep_frozenInv n p s s' ch)|].
    by rewrite (revealStep_order n p s s' ch Hstep).
Qed.

Lemma Inv_countOk (s : System) (a : string) : Inv s → countOk s a.
Proof. intros HI. apply TeamInv_countOk, getTeam_inv, HI. Qed.

Lemma StronglySorted_RankedBefore (s : System) (l : list string) :
  Inv s → StronglySorted (holds (ranksBefore s)) l ↔ StronglySorted (RankedBefore s) l.
Proof.
  intros HI. induction l as [|a l IH].
  - split; constructor.
  - rewrite !StronglySorted_cons, IH, !Forall_forall. unfold holds.
    split; intros [Ha Hl]; (split; [|done]); intros b Hb;
      apply (ranksBefore_spec s a b); auto using Inv_countOk.
Qed.

Lemma sortBy_ranked (s : System) (l : list string) :
  Inv s → NoDup l →
  ∃ o, sortBy (rankBefore s) l = Ok o ∧ o ≡ₚ l
       ∧ StronglySorted (holds (ranksBefore s)) o.
Proof.
  intros HI Hnodup.
  apply (sortBy_sorted (rankBefore s) (ranksBefore s) l); [| | |done].
  - intros a b _ _. apply rankBefore_pure; apply solved_has_time; by apply getTeam_inv.
  - intros a b _ _. apply ranksBefore_total.
  - intros a b c _ _ _. apply ranksBefore_trans; by apply Inv_countOk.
Qed.



Lemma run_visited (cs : list Command) (s s' : System) (out : list string)
    (registry : list string) :
  visited registry s →
  competitionStarted s = true ∨ submitsAfterStart cs = true →
  run cs s = Ok (s', out) →
  visited (registryOf cs s registry) s'.
Proof.
  revert s out registry. induction cs as [|c cs IH]; intros s out registry Hv Hguard.
  - by intros [= <- <-].
  - destruct (command_END_dec c) as [->|Hc].
    { by intros [= <- <-]. }
    intros (s1 & out1 & out2 & Hstep & Hrest & _)%run_cons_Ok; [|done].
    assert (registryOf (c :: cs) s registry
            = registryOf cs s1 (registryAfter registry c out1)) as ->.
    { destruct c; try done; cbn [registryOf]; by rewrite Hstep. }
    apply (IH s1 out2); [| |done].
    + apply (visited_command registry c s s1 out1); [done| |done].
      intros p n st time ->. destruct Hguard as [?|?]; done.
    + destruct (competitionStarted s) eqn:Hs.
      * left. by apply (step_started c s s1 out1).
      * destruct Hguard as [?|Hguard]; [done|].
        destruct c; simpl in *; try done; try by right.
        injection Hstep as H. unfold startCompetition in H. rewrite Hs in H.
        left. by injection H as <- _.
Qed.

Lemma stateAfter_visited (cs : list Command) :
  submitsAfterStart cs = true → runsOk cs = true →
  visited (registryOf cs initialSystem []) (stateAfter cs).
Proof.
  intros Hguard Hok. unfold runsOk, stateAfter in *.
  destruct (run cs initialSystem) as [[s out]| |] eqn:Hrun; [|done..].
  apply (run_visited cs initialSystem s out []); [constructor|by right|done].
Qed.


(** ** Ranking changes during SCROLL *)

Lemma ranksBefore_ext (s s' : System) (a b : string) :
  (∀ n, n = a ∨ n = b →
        solvedCount (getTeam s' n) = solvedCount (getTeam s n)
        ∧ penaltyTime (getTeam s' n) = penaltyTime (getTeam s n)
        ∧ isSolved (getTeam s' n) = isSolved (getTeam s n)
        ∧ firstAcceptTime (getTeam s' n) = firstAcceptTime (getTeam s n)) →
  ranksBefore s' a b = ranksBefore s a b.
Proof.
  intros H. unfold ranksBefore, solveTimes, solvedProblems, acceptTime.
  destruct (H a) as (-> & -> & -> & ->); [by left|].
  destruct (H b) as (-> & -> & -> & ->); [by right|]. done.
Qed.

Lemma StronglySorted_mono_elem {A} (R R' : relation A) (l : list A) :
  (∀ a b, a ∈ l → b ∈ l → R a b → R' a b) →
  StronglySorted R l → StronglySorted R' l.
Proof.
  induction l as [|x l IH]; intros HR Hs; [constructor|].
  apply StronglySorted_cons in Hs as [Hx Hl]. constructor.
  - apply IH; [|done]. intros a b Ha Hb. apply HR; by right.
  - rewrite Forall_forall in Hx |- *. intros y Hy.
    apply HR; [by left|by right|by apply Hx].
Qed.

(** A team with more solved problems ranks before. *)
Lemma ranksBefore_more_solved (s : System) (a b : string) :
  solvedCount (getTeam s b) < solvedCount (getTeam s a) → ranksBefore s a b = true.
Proof.
  intros H. unfold ranksBefore.
  destruct (Z.eqb_spec (solvedCount (getTeam s a)) (solvedCount (getTeam s b)));
    simpl; lia.
Qed.

Lemma ranksBefore_solved_ge (s : System) (a b : string) :
  ranksBefore s a b = true → solvedCount (getTeam s b) ≤ solvedCount (getTeam s a).
Proof.
  unfold ranksBefore.
  destruct (Z.eqb_spec (solvedCount (getTeam s a)) (solvedCount (getTeam s b)));
    simpl; lia.
Qed.

(** [findReplaced] returns the element just before the first occurrence. *)
Lemma findReplaced_first (prev : string) (l : list string) (n : string) :
  findReplaced prev (n :: l) n = prev.
Proof. simpl. by rewrite String.eqb_refl. Qed.




(** A reveal that does not solve the problem changes no comparison. *)
Lemma revealStep_unsolved_ranksBefore (n p : string) (s s' : System)
    (ch : list (string * string)) (a b : string) :
  revealStep n p s = Ok (s', ch) → solved (getTeam s' n) p = false →
  solved (getTeam s n) p = false →
  ranksBefore s' a b = ranksBefore s a b ∧ teamOrder s' = teamOrder s ∧ ch = [].
Proof.
  intros Hstep Hs' Hs.
  apply revealStep_Ok in Hstep as [(_ & _ & _ & _ & Heq & _)|(_ & -> & ->)].
  - exfalso. rewrite Heq, getTeam_setTeamOrder, getTeam_updated in Hs'.
    rewrite decide_True in Hs' by done. unfold solved in Hs'. simpl in Hs'.
    by rewrite mapGet_insert_eq in Hs'.
  - split; [|done]. apply ranksBefore_ext. intros m _. unfold getTeam. simpl.
    destruct (decide (n = m)) as [->|].
    + by rewrite mapGet_insert_eq.
    + by rewrite mapGet_insert_ne.
Qed.


Lemma boardText_sameFrozen (s : System) (fp : gmap string (gset string)) :
  sameFrozen (frozenProblems s) fp → boardText (setFrozenProblems s fp) = boardText s.
Proof.
  intros Hsame. unfold boardText. apply imap_ext. intros i n _.
  unfold rowText. simpl. by rewrite (Hsame n).
Qed.





(** ** Penalty time *)





(** Why contest runs are asked to start before they submit: START gives
    every problem a fresh slot, so a wrong attempt made before it is
    forgotten by the counters while the commands that were run still hold
    it. *)
Lemma submission_before_start_is_forgotten :
  let cs := [ADDTEAM "t"; SUBMIT "A" "t" "Wrong_Answer" 1; START 10 1;
             SUBMIT "A" "t" "Accepted" 10] in
  submitsAfterStart cs = false
  ∧ countWrong "t" "A" cs initialSystem = 1
  ∧ solved (getTeam (stateAfter cs) "t") "A" = true
  ∧ penaltyTime (getTeam (stateAfter cs) "t") = 10.
Proof. repeat split; vm_compute; reflexivity. Qed.



(** ** Contest input runs to the end

    The model has two ways not to return a result: [Throw], for an [at] on
    a missing key, and [Fuel], for a scroll loop cut short.  On contest
    input neither happens: every command returns. *)

Lemma Revealable_updated (s : System) (n : string) (t' : Team)
    (subs : list Submission) (fp' : gmap string (gset string)) :
  Revealable s →
  (∀ q, is_Some (wrongSubmissions (getTeam s n) !! q) →
        is_Some (wrongSubmissions t' !! q)) →
  (∀ m q, q ∈ frozenSet fp' m →
          q ∈ frozenSet (frozenProblems s) m
          ∨ (m = n ∧ is_Some (wrongSubmissions t' !! q))) →
  Revealable (updated s n t' subs fp').
Proof.
  intros HR Hw Hfp m q Hq. rewrite getTeam_updated.
  destruct (Hfp m q Hq) as [Hold|[-> Hnew]].
  - case_decide as Hm; [subst m; by apply Hw, HR|by apply HR].
  - by rewrite decide_True.
Qed.

Lemma Revealable_prestart (s s' : System) :
  Inv s → competitionStarted s = false →
  frozenProblems s' = frozenProblems s → Revealable s'.
Proof.
  intros HI Hs Hfp n p Hp. rewrite Hfp in Hp.
  destruct (inv_prestart s HI Hs) as (_ & _ & Hempty).
  rewrite Hempty in Hp. set_solver.
Qed.

Lemma Revealable_same (s s' : System) :
  Revealable s → teams s' = teams s →
  sameFrozen (frozenProblems s) (frozenProblems s') → Revealable s'.
Proof.
  intros HR Ht Hfp n p Hp. rewrite (Hfp n) in Hp.
  unfold getTeam. rewrite Ht. by apply HR.
Qed.

Lemma is_Some_mapIncr (m : gmap string Z) (p q : string) :
  is_Some (m !! q) → is_Some (mapIncr m p !! q).
Proof.
  intros H. unfold mapIncr. destruct (decide (p = q)) as [->|Hne].
  - rewrite lookup_insert_eq. eauto.
  - by rewrite lookup_insert_ne.
Qed.

Lemma accepts_started (s : System) (p : string) :
  Inv s → p ∈ problemNames s → competitionStarted s = true.
Proof.
  intros HI Hp. destruct (competitionStarted s) eqn:Hs; [done|].
  destruct (inv_prestart s HI Hs) as (Hnames & _). rewrite Hnames in Hp.
  by apply elem_of_nil in Hp.
Qed.

(** A submission of a ranked team on a problem of the contest is
    applied. *)
Lemma submitProblem_total (p n st : string) (time : Z) (s : System) :
  Inv s → Revealable s → n ∈ teamOrder s → p ∈ problemNames s →
  ∃ s', submitProblem p n st time s = Ok s' ∧ Inv s' ∧ Revealable s'.
Proof.
  intros HI HR Hn Hp.
  destruct (inv_slots s HI n p Hn Hp) as (_ & Hw & _).
  assert (∃ s', submitProblem p n st time s = Ok s') as [s' Hsub].
  { rewrite submitProblem_cases. cbv zeta. destruct Hw as [w ->].
    repeat case_match; eauto. }
  exists s'. split; [done|]. split.
  { apply (submitProblem_inv p n st time s s'); [done| |done].
    by apply (accepts_started s p). }
  rewrite submitProblem_cases in Hsub. cbv zeta in Hsub.
  destruct (solved (getTeam s n) p).
  { injection Hsub as <-. apply Revealable_updated; [done|done|auto]. }
  destruct (isFrozen s).
  { injection Hsub as <-. apply Revealable_updated; [done|done|].
    intros m q Hq. case_decide; [|by left].
    destruct (decide (n = m)) as [<-|Hne].
    - rewrite frozenSet_insert_eq in Hq.
      apply elem_of_union in Hq as [->%elem_of_singleton|Hq]; [|by left].
      right. done.
    - left. by rewrite frozenSet_insert_ne in Hq. }
  case_decide.
  { destruct (wrongSubmissions (getTeam s n) !! p); [|done].
    injection Hsub as <-. apply Revealable_updated; [done|done|auto]. }
  injection Hsub as <-. apply Revealable_updated; [done| |auto].
  intros q. apply is_Some_mapIncr.
Qed.

(** The reveal of a frozen problem with a wrong-count entry returns. *)
Lemma revealStep_total (n p : string) (s : System) :
  Inv s → p ∈ frozenSet (frozenProblems s) n →
  is_Some (wrongSubmissions (getTeam s n) !! p) →
  ∃ s' changes, revealStep n p s = Ok (s', changes).
Proof.
  intros HI Hp Hw.
  pose proof (inv_frozen_unsolved s HI n p Hp) as Hunsolved.
  unfold revealStep.
  destruct (_ >? 0); [|simpl; eauto].
  destruct (negb _); [|simpl; eauto].
  set (time := findFirstAC _ _ _).
  set (t1 := setFrozenSubmissions _ _).
  destruct (solveProblem_total t1 p time Hw) as [t2 Ht2]. rewrite Ht2. simpl.
  set (smid := setTeams _ _).
  assert (TeamInv t2) as HI2.
  { apply (solveProblem_inv t1 t2 p time); [|done|done].
    pose proof (getTeam_inv s n HI) as Ht.
    apply (TeamInv_ext (getTeam s n)); try done. apply Ht. }
  destruct (updateRankings_sorted smid) as (o & Hrank & _).
  { intros m _. unfold smid, getTeam. simpl.
    destruct (decide (n = m)) as [->|Hne].
    - by rewrite mapGet_insert_eq.
    - rewrite mapGet_insert_ne by done. by apply getTeam_inv. }
  { apply HI. }
  rewrite Hrank. simpl.
  case_decide; [|destruct (String.eqb _ _)]; simpl; eauto.
Qed.

Lemma revealStep_revealable (n p : string) (s s' : System)
    (changes : list (string * string)) :
  Revealable s → revealStep n p s = Ok (s', changes) → Revealable s'.
Proof.
  intros HR Hstep.
  assert (∀ m q, q ∈ frozenSet (revealedFrozen s n p) m →
                 q ∈ frozenSet (frozenProblems s) m) as Hsub.
  { intros m q. destruct (decide (n = m)) as [<-|Hne].
    - rewrite revealedFrozen_eq. set_solver.
    - by rewrite revealedFrozen_ne. }
  apply revealStep_Ok in Hstep as [(_ & _ & _ & _ & -> & _)|(_ & -> & _)].
  - apply (Revealable_same
             (updated s n (revealSolved (getTeam s n) p
                             (findFirstAC (submissions s) n p))
                (submissions s) (revealedFrozen s n p))); [|done..].
    apply Revealable_updated; [done|done|auto].
  - apply Revealable_updated; [done|done|auto].
Qed.

(** The loop returns within its budget. *)
Lemma scrollLoop_total (fuel : nat) (s : System) (acc : list (string * string)) :
  Inv s → Revealable s → (frozenTotal s < fuel)%nat →
  ∃ s' changes, scrollLoop fuel s acc = Ok (s', changes).
Proof.
  revert s acc. induction fuel as [|fuel IH]; intros s acc HI HR Hlt; [lia|].
  rewrite scrollLoop_S.
  destruct (findFrozenTeam _ _) as [[t p] fp] eqn:Hfind.
  apply findFrozenTeam_spec in Hfind as [Hsame Hcases].
  destruct (String.eqb_spec t "") as [->|Hne]; [eauto|].
  destruct Hcases as [(-> & _)|(l1 & l2 & Hl & _ & Hnonempty & ->)]; [done|].
  pose proof (smallest_spec _ Hnonempty) as [Hin _].
  assert (Inv (setFrozenProblems s fp)) as HI0 by (by apply Inv_setFrozenProblems).
  assert (Revealable (setFrozenProblems s fp)) as HR0
    by (by apply (Revealable_same s)).
  assert (t ∈ teamOrder (setFrozenProblems s fp)) as Ht.
  { simpl. apply elem_of_rev. rewrite Hl. set_solver. }
  assert (smallest (frozenSet (frozenProblems s) t)
          ∈ frozenSet (frozenProblems (setFrozenProblems s fp)) t) as Hp.
  { simpl. by rewrite (Hsame t). }
  destruct (revealStep_total t _ (setFrozenProblems s fp) HI0 Hp (HR0 _ _ Hp))
    as (s1 & ch & Hstep).
  rewrite Hstep. simpl. apply IH.
  - exact (revealStep_inv t _ _ s1 ch HI0 Hp Hstep).
  - exact (revealStep_revealable t _ _ s1 ch HR0 Hstep).
  - apply revealStep_frozenTotal in Hstep; [|done..].
    rewrite frozenTotal_setFrozenProblems in Hstep by done. lia.
Qed.

Lemma scrollScoreboard_total (s : System) :
  Inv s → Revealable s →
  ∃ s' out, scrollScoreboard s = Ok (s', out) ∧ Revealable s'.
Proof.
  intros HI HR. unfold scrollScoreboard.
  destruct (isFrozen s); simpl; [|eauto].
  destruct (updateRankings_sorted s) as (o & -> & Hperm & _).
  { intros n _. by apply getTeam_inv. }
  { apply HI. }
  simpl.
  pose proof (Inv_setTeamOrder s o HI Hperm) as HI1.
  destruct (printScoreboard_pure (setTeamOrder s o) (Inv_slots_order _ HI1))
    as (fp1 & -> & Hsame1).
  simpl. set (s2 := setFrozenProblems (setTeamOrder s o) fp1).
  assert (Inv s2) as HI2 by (by apply Inv_setFrozenProblems).
  assert (Revealable s2) as HR2 by (by apply (Revealable_same s)).
  destruct (scrollLoop_total (S (frozenTotal s2)) s2 [] HI2 HR2) as (s3 & ch & Hloop);
    [lia|].
  rewrite Hloop. simpl.
  pose proof (scrollLoop_inv _ _ _ _ _ HI2 Hloop) as HI3.
  destruct (printScoreboard_pure s3 (Inv_slots_order _ HI3)) as (fp2 & -> & _).
  simpl. eexists _, _. split; [done|].
  intros n p Hp. simpl in Hp. unfold frozenSet, mapGet in Hp.
  rewrite lookup_empty in Hp. set_solver.
Qed.

(** Every command of a contest returns and keeps what the next one
    needs. *)
Lemma step_total (c : Command) (s : System) :
  Inv s → Revealable s → accepts s c = true →
  ∃ s' out, step c s = Ok (s', out) ∧ Inv s' ∧ Revealable s'.
Proof.
  intros HI HR Hc.
  assert (∀ s' out, step c s = Ok (s', out) → Revealable s' →
                    (∀ p n st time, c ≠ SUBMIT p n st time) →
                    ∃ s' out, step c s = Ok (s', out) ∧ Inv s' ∧ Revealable s') as Hfin.
  { intros s' out Hstep HR' Hns. exists s', out. split; [done|]. split; [|done].
    apply (step_inv c s s' out); [done| |done].
    intros p n st time ->. by destruct (Hns p n st time). }
  destruct c; simpl in Hc.
  - apply (Hfin (addTeam teamName s).1 (addTeam teamName s).2);
      [simpl; by destruct (addTeam teamName s)| |done].
    unfold addTeam. destruct (competitionStarted s) eqn:Hs; [done|].
    case_decide; [done|]. by apply (Revealable_prestart s).
  - apply (Hfin (startCompetition duration problemCnt s).1
             (startCompetition duration problemCnt s).2);
      [simpl; by destruct (startCompetition duration problemCnt s)| |done].
    unfold startCompetition. destruct (competitionStarted s) eqn:Hs; [done|].
    by apply (Revealable_prestart s).
  - apply andb_true_iff in Hc as [Hn%bool_decide_eq_true Hp%bool_decide_eq_true].
    destruct (submitProblem_total problemName teamName statusStr time s HI HR Hn Hp)
      as (s' & Hsub & HI' & HR').
    exists s', []. simpl. rewrite Hsub. done.
  - destruct (flushScoreboard_reachable s HI) as (o & fp & Hflush & _ & _ & Hsame).
    apply (Hfin _ _ Hflush); [|done]. by apply (Revealable_same s).
  - apply (Hfin (freezeScoreboard s).1 (freezeScoreboard s).2);
      [simpl; by destruct (freezeScoreboard s)| |done].
    unfold freezeScoreboard. destruct (isFrozen s); [done|].
    by apply (Revealable_same s).
  - destruct (scrollScoreboard_total s HI HR) as (s' & out & Hscroll & HR').
    by apply (Hfin s' out).
  - by apply (Hfin s (queryRanking teamName s)).
  - by apply (Hfin s (querySubmission teamName problemName statusStr s)).
  - by apply (Hfin s endCompetition).
Qed.

Lemma Revealable_initial : Revealable initialSystem.
Proof. intros n p Hp. by apply elem_of_empty in Hp. Qed.

(** Contest input runs to the end: no command throws and no scroll runs
    out of its budget. *)
Theorem run_total (cs : list Command) (s : System) :
  Inv s → Revealable s → contestInput cs s = true →
  ∃ s' out, run cs s = Ok (s', out) ∧ Inv s' ∧ Revealable s'.
Proof.
  revert s. induction cs as [|c cs IH]; intros s HI HR Hin.
  - by exists s, [].
  - destruct (command_END_dec c) as [->|Hc]; [by exists s, endCompetition|].
    assert (contestInput (c :: cs) s
            = accepts s c && match step c s with
                             | Ok (s', _) => contestInput cs s'
                             | _ => true
                             end) as Heq by (by destruct c).
    rewrite Heq in Hin. apply andb_true_iff in Hin as [Hacc Hrest].
    destruct (step_total c s HI HR Hacc) as (s1 & out1 & Hstep & HI1 & HR1).
    rewrite Hstep in Hrest.
    destruct (IH s1 HI1 HR1 Hrest) as (s2 & out2 & Hrun & HI2 & HR2).
    exists s2, (out1 ++ out2). split; [|done].
    rewrite run_cons by done. rewrite Hstep. simpl. by rewrite Hrun.
Qed.

Lemma shortContest_runs :
  contestInput shortContest initialSystem = true
  ∧ outputOf shortContest
    = ["[Info]Add successfully."; "[Info]Add successfully.";
       "[Info]Competition starts."; "[Info]Freeze scoreboard.";
       "[Info]Flush scoreboard."; "x 1 1 29 +1 ."; "y 2 0 0 . 0/1";
       "[Info]Scroll scoreboard."; "x 1 1 29 +1 ."; "y 2 0 0 . 0/1";
       "y x 1 20";
       "y 1 1 20 . +"; "x 2 1 29 +1 .";
       "[Info]Complete query ranking."; "y NOW AT RANKING 1";
       "[Info]Complete query submission."; "y A Time_Limit_Exceed 25";
       "[Info]Competition ends."].
Proof. split; vm_compute; reflexivity. Qed.

(** ** Ranked names are registered

    No command, in any order, puts a name in the ranking order that has no
    record in [teams]; a read [teams[name]] of a ranked name inserts
    nothing. *)

Lemma orderRegistered_updated (s : System) (n : string) (t : Team)
    (subs : list Submission) (fp : gmap string (gset string)) :
  orderRegistered s → orderRegistered (updated s n t subs fp).
Proof.
  intros H m Hm. simpl in *. destruct (decide (n = m)) as [->|Hne].
  - rewrite lookup_insert_eq. eauto.
  - rewrite lookup_insert_ne by done. by apply H.
Qed.

Lemma orderRegistered_order (s : System) (o : list string) :
  orderRegistered s → o ≡ₚ teamOrder s → orderRegistered (setTeamOrder s o).
Proof. intros H Hperm m Hm. simpl in *. rewrite Hperm in Hm. by apply H. Qed.

Lemma revealStep_orderRegistered (n p : string) (s s' : System)
    (changes : list (string * string)) :
  orderRegistered s → revealStep n p s = Ok (s', changes) → orderRegistered s'.
Proof.
  intros H [(_ & _ & _ & Hsort & -> & _)|(_ & -> & _)]%revealStep_Ok.
  - apply orderRegistered_order; [by apply orderRegistered_updated|].
    simpl. by apply sortBy_perm in Hsort.
  - by apply orderRegistered_updated.
Qed.

Lemma step_orderRegistered (c : Command) (s s' : System) (out : list string) :
  orderRegistered s → step c s = Ok (s', out) → orderRegistered s'.
Proof.
  intros H. destruct c; simpl.
  - intros [= Hadd]. unfold addTeam in Hadd.
    destruct (competitionStarted s); [by injection Hadd as <- _|].
    case_decide; injection Hadd as <- _; [done|].
    intros m Hm. simpl in *. destruct (decide (teamName = m)) as [->|Hne].
    + rewrite lookup_insert_eq. eauto.
    + rewrite lookup_insert_ne by done. apply H.
      apply elem_of_app in Hm as [Hm|Hm%list_elem_of_singleton]; [done|].
      by subst m.
  - intros [= Hstart]. unfold startCompetition in Hstart.
    destruct (competitionStarted s); injection Hstart as <- _; [done|].
    intros m Hm. simpl in *. rewrite lookup_fmap.
    destruct (H m Hm) as [t ->]. simpl. eauto.
  - intros (s1 & Hsub & [= <- <-])%bindR_Ok.
    rewrite submitProblem_cases in Hsub.
    repeat (case_match; simplify_eq; try done); by apply orderRegistered_updated.
  - unfold flushScoreboard.
    intros (s1 & [-> Hperm]%updateRankings_Ok & Hrest)%bindR_Ok.
    apply bindR_Ok in Hrest as ([s2 rows] & [fp ->]%printScoreboard_state & [= <- <-]).
    by apply (orderRegistered_order s).
  - intros [= Hfreeze]. unfold freezeScoreboard in Hfreeze.
    destruct (isFrozen s); by injection Hfreeze as <- _.
  - unfold scrollScoreboard.
    destruct (isFrozen s); simpl; [|by intros [= <- <-]].
    intros (s1 & [-> Hperm]%updateRankings_Ok & Hrest)%bindR_Ok.
    apply bindR_Ok in Hrest as ([s2 before] & [fp1 ->]%printScoreboard_state & Hrest).
    apply bindR_Ok in Hrest as ([s3 changes] & Hloop & Hrest).
    apply bindR_Ok in Hrest as ([s4 after] & [fp2 ->]%printScoreboard_state & [= <- <-]).
    change (orderRegistered s3). revert Hloop.
    apply (scrollLoop_invariant orderRegistered).
    + by intros x fp Hx _.
    + intros x n p x' ch Hx _ _ Hstep.
      by apply (revealStep_orderRegistered n p x x' ch).
    + by apply (orderRegistered_order s).
  - by intros [= <- <-].
  - by intros [= <- <-].
  - by intros [= <- <-].
Qed.

Lemma run_orderRegistered (cs : list Command) (s : System) (out : list string) :
  run cs initialSystem = Ok (s, out) → orderRegistered s.
Proof.
  assert (∀ s0, orderRegistered s0 → run cs s0 = Ok (s, out) → orderRegistered s) as H.
  { revert out. induction cs as [|c cs IH]; intros out s0 H0.
    - by intros [= <- <-].
    - destruct (command_END_dec c) as [->|Hc]; [by intros [= <- <-]|].
      intros (s1 & out1 & out2 & Hstep & Hrest & _)%run_cons_Ok; [|done].
      apply (IH out2 s1); [|done]. by apply (step_orderRegistered c s0 s1 out1). }
  apply H. intros n Hn. by apply elem_of_nil in Hn.
Qed.

(** Before the start only START changes [competitionStarted]. *)
Lemma step_not_started (c : Command) (s s' : System) (out : list string) :
  (∀ duration problemCnt, c ≠ START duration problemCnt) →
  step c s = Ok (s', out) → competitionStarted s' = competitionStarted s.
Proof.
  intros Hc. destruct c; simpl.
  - intros [= Hadd]. unfold addTeam in Hadd.
    destruct (competitionStarted s) eqn:Hs; [by injection Hadd as <- _|].
    case_decide; by injection Hadd as <- _.
  - by destruct (Hc duration problemCnt).
  - intros (s1 & Hsub & [= <- <-])%bindR_Ok.
    rewrite submitProblem_cases in Hsub.
    repeat (case_match; simplify_eq; try done).
  - unfold flushScoreboard.
    intros (s1 & [-> _]%updateRankings_Ok & Hrest)%bindR_Ok.
    by apply bindR_Ok in Hrest as ([s2 rows] & [fp ->]%printScoreboard_state & [= <- <-]).
  - intros [= Hfreeze]. unfold freezeScoreboard in Hfreeze.
    destruct (isFrozen s); by injection Hfreeze as <- _.
  - by intros (-> & _)%scrollScoreboard_started.
  - by intros [= <- <-].
  - by intros [= <- <-].
  - by intros [= <- <-].
Qed.

(** Contest input submits nothing before the start. *)
Lemma contestInput_submitsAfterStart (cs : list Command) (s : System) :
  Inv s → Revealable s → competitionStarted s = false →
  contestInput cs s = true → submitsAfterStart cs = true.
Proof.
  revert s. induction cs as [|c cs IH]; intros s HI HR Hs Hin; [done|].
  destruct (inv_prestart s HI Hs) as (Hnames & _).
  assert ((∃ d k, c = START d k) ∨ c = END ∨ (∃ p n st time, c = SUBMIT p n st time)
          ∨ ((∀ d k, c ≠ START d k) ∧ c ≠ END
             ∧ submitsAfterStart (c :: cs) = submitsAfterStart cs))
    as [(d & k & ->)|[->|[(p & n & st & time & ->)|(Hc & Hend & ->)]]];
    [destruct c; eauto 10| done | done | |].
  - simpl in Hin. rewrite Hnames in Hin.
    apply andb_true_iff in Hin as [[_ Hp%bool_decide_eq_true]%andb_true_iff _].
    by apply elem_of_nil in Hp.
  - assert (contestInput (c :: cs) s
            = accepts s c && match step c s with
                             | Ok (s', _) => contestInput cs s'
                             | _ => true
                             end) as Heq by (by destruct c).
    rewrite Heq in Hin. apply andb_true_iff in Hin as [Hacc Hrest].
    destruct (step_total c s HI HR Hacc) as (s1 & out1 & Hstep & HI1 & HR1).
    rewrite Hstep in Hrest. apply (IH s1); [done|done| |done].
    by rewrite (step_not_started c s s1 out1 Hc Hstep).
Qed.

(** Contest input ends in a state of a contest run: what is proved of
    those states holds after it. *)
Theorem contestInput_reachable (cs : list Command) :
  contestInput cs initialSystem = true →
  ∃ s out, run cs initialSystem = Ok (s, out) ∧ reachable s ∧ s = stateAfter cs.
Proof.
  intros Hin.
  destruct (run_total cs initialSystem Inv_initial Revealable_initial Hin)
    as (s & out & Hrun & _).
  exists s, out. split; [done|]. split.
  - exists cs, out. split; [|done].
    by apply (contestInput_submitsAfterStart cs initialSystem
                Inv_initial Revealable_initial).
  - unfold stateAfter. by rewrite Hrun.
Qed.

(** * Further properties of the code *)

(** ** Status labels *)

(** X1.  [stringToStatus] reads back what [statusToString] writes, for
    every status; the other way round, a string survives the round trip
    exactly when it is one of the four labels, and every other string comes
    back as ["Wrong_Answer"]. *)
Theorem X1_status_labels_round_trip :
  (∀ status, stringToStatus (statusToString status) = status)
  ∧ (∀ str, statusToString (stringToStatus str) = str
            ↔ str ∈ ["Accepted"; "Wrong_Answer"; "Runtime_Error"; "Time_Limit_Exceed"])
  ∧ (∀ str, str ∉ ["Accepted"; "Wrong_Answer"; "Runtime_Error"; "Time_Limit_Exceed"] →
            statusToString (stringToStatus str) = "Wrong_Answer").
Proof.
  split; [by intros []|].
  assert (∀ str, str ∈ ["Accepted"; "Wrong_Answer"; "Runtime_Error"; "Time_Limit_Exceed"]
                 ↔ str = "Accepted" ∨ str = "Wrong_Answer" ∨ str = "Runtime_Error"
                   ∨ str = "Time_Limit_Exceed") as Hmem.
  { intros str. rewrite !elem_of_cons, elem_of_nil. tauto. }
  split.
  - intros str. rewrite Hmem. unfold stringToStatus.
    destruct (String.eqb_spec str "Accepted") as [->|H1]; [simpl; tauto|].
    destruct (String.eqb_spec str "Wrong_Answer") as [->|H2]; [simpl; tauto|].
    destruct (String.eqb_spec str "Runtime_Error") as [->|H3]; [simpl; tauto|].
    destruct (String.eqb_spec str "Time_Limit_Exceed") as [->|H4]; [simpl; tauto|].
    simpl. split; [intros <-; tauto|]. intros [?|[?|[?|?]]]; done.
  - intros str Hstr. rewrite Hmem in Hstr.
    rewrite stringToStatus_unknown; [done|intros ->; tauto..].
Qed.

(** ** Solve times *)








(** ** Registration and start *)

Lemma initTeam_freshSlots (names : list string) (t : Team) :
  name (initTeam names t) = name t
  ∧ (∀ p, p ∈ names → freshSlots (initTeam names t) p)
  ∧ (∀ p, p ∉ names →
          wrongSubmissions (initTeam names t) !! p = wrongSubmissions t !! p
          ∧ firstAcceptTime (initTeam names t) !! p = firstAcceptTime t !! p
          ∧ isSolved (initTeam names t) !! p = isSolved t !! p
          ∧ totalSubmissions (initTeam names t) !! p = totalSubmissions t !! p
          ∧ frozenSubmissions (initTeam names t) !! p = frozenSubmissions t !! p).
Proof.
  induction names as [|x names IH] using rev_ind; [by repeat split; try set_solver|].
  unfold initTeam in *. rewrite fold_left_app. simpl.
  destruct IH as (Hname & Hin & Hout). split; [done|]. split.
  - intros p Hp. unfold freshSlots. simpl.
    destruct (decide (x = p)) as [->|Hne].
    + by rewrite !lookup_insert_eq.
    + rewrite !lookup_insert_ne by done. apply Hin. set_solver.
  - intros p Hp. simpl. rewrite !lookup_insert_ne by set_solver. apply Hout. set_solver.
Qed.

Lemma generatedNames_lookup (problemCnt : Z) (i : nat) :
  (i < Z.to_nat problemCnt)%nat →
  generatedNames problemCnt !! i = Some (String (ascii_of_nat (65 + i)) EmptyString).
Proof.
  intros Hi. unfold generatedNames.
  change (List.map ?f ?l) with (f <$> l).
  rewrite list_lookup_fmap, lookup_seq_lt by done. done.
Qed.

Lemma generatedNames_NoDup (problemCnt : Z) :
  problemCnt ≤ 191 → NoDup (generatedNames problemCnt).
Proof.
  intros Hk. unfold generatedNames. change (List.map ?f ?l) with (f <$> l).
  apply NoDup_fmap_2_strong; [|apply NoDup_seq].
  intros i j Hi%elem_of_seq Hj%elem_of_seq [= Heq].
  apply (f_equal nat_of_ascii) in Heq.
  rewrite !nat_ascii_embedding in Heq by lia. lia.
Qed.

(** X4.  START works once.  The first one marks the contest started,
    keeps the teams, their counters, the ranking order and the log, names
    the problems with consecutive characters from 'A' on (none when the
    count is not positive; distinct names up to 191 problems) and gives
    every registered team the five zeroed entries for every problem.  Every
    later START is refused and leaves the state as it is. *)
Theorem X4_start_stamps_slots_once (duration problemCnt : Z) (s : System) :
  (competitionStarted s = true →
   startCompetition duration problemCnt s
   = (s, ["[Error]Start failed: competition has started."]))
  ∧ (competitionStarted s = false →
     ∃ s', startCompetition duration problemCnt s = (s', ["[Info]Competition starts."])
       ∧ competitionStarted s' = true
       ∧ durationTime s' = duration ∧ problemCount s' = problemCnt
       ∧ problemNames s' = problemNames s ++ generatedNames problemCnt
       ∧ length (generatedNames problemCnt) = Z.to_nat problemCnt
       ∧ (∀ i : nat, (i < Z.to_nat problemCnt)%nat →
            generatedNames problemCnt !! i
            = Some (String (ascii_of_nat (65 + i)) EmptyString))
       ∧ (problemCnt ≤ 191 → NoDup (generatedNames problemCnt))
       ∧ teamOrder s' = teamOrder s ∧ submissions s' = submissions s
       ∧ isFrozen s' = isFrozen s ∧ frozenProblems s' = frozenProblems s
       ∧ (∀ n, teams s !! n = None → teams s' !! n = None)
       ∧ (∀ n t, teams s !! n = Some t →
            ∃ t', teams s' !! n = Some t'
                  ∧ name t' = name t ∧ solvedCount t' = solvedCount t
                  ∧ penaltyTime t' = penaltyTime t
                  ∧ ∀ p, p ∈ problemNames s' → freshSlots t' p)
       ∧ ∀ duration' problemCnt',
           startCompetition duration' problemCnt' s'
           = (s', ["[Error]Start failed: competition has started."])).
Proof.
  split; intros Hs; unfold startCompetition at 1; rewrite Hs; [done|].
  eexists. split; [done|]. simpl. repeat split; try done.
  - unfold generatedNames. by rewrite length_map, length_seq.
  - apply generatedNames_lookup.
  - apply generatedNames_NoDup.
  - intros n Hn. by rewrite lookup_fmap, Hn.
  - intros n t Hn. rewrite lookup_fmap, Hn. simpl. eexists. split; [done|].
    destruct (initTeam_freshSlots (problemNames s ++ generatedNames problemCnt) t)
      as (Hname & Hin & _).
    destruct (initTeam_counters (problemNames s ++ generatedNames problemCnt) t)
      as [Hc Hp].
    done.
Qed.

Lemma X4_start_witness :
  ∃ s', startCompetition 300 2 (stateAfter [ADDTEAM "t"])
        = (s', ["[Info]Competition starts."])
        ∧ problemNames s' = ["A"; "B"]
        ∧ freshSlots (getTeam s' "t") "B".
Proof.
  destruct (X4_start_stamps_slots_once 300 2 (stateAfter [ADDTEAM "t"])) as [_ Hfirst].
  destruct (Hfirst eq_refl)
    as (s' & Hstart & _ & _ & _ & Hnames & _ & _ & _ & _ & _ & _ & _ & _ & Hteams & _).
  exists s'. split; [done|]. split; [by rewrite Hnames|].
  destruct (Hteams "t" (newTeam "t")) as (t' & Ht' & _ & _ & _ & Hslots);
    [vm_compute; reflexivity|].
  unfold getTeam, mapGet. rewrite Ht'. simpl. apply Hslots.
  rewrite Hnames. apply list_elem_of_In. vm_compute. tauto.
Defined.

Lemma findRank_last (ranking : Z) (order : list string) (n : string) :
  n ∉ order →
  findRank ranking (order ++ [n]) n = Some (ranking + Z.of_nat (length order)).
Proof.
  revert ranking. induction order as [|x order IH]; intros ranking Hn; simpl.
  - rewrite String.eqb_refl. f_equal. lia.
  - destruct (String.eqb_spec x n) as [->|_]; [set_solver|].
    rewrite IH by set_solver. f_equal. lia.
Qed.

(** X5.  Before the start, registering a name that is not in use adds a
    team with zeroed counters and empty maps at the END of the ranking
    order and touches no other team: until the next ranking update
    QUERY_RANKING reports it last, at position (number of teams), whatever
    the names.  The same name is refused from then on. *)
Theorem X5_new_team_is_ranked_last (n : string) (s : System) :
  competitionStarted s = false → teams s !! n = None → orderRegistered s →
  ∃ s', addTeam n s = (s', ["[Info]Add successfully."])
    ∧ teamOrder s' = teamOrder s ++ [n]
    ∧ teams s' !! n = Some (newTeam n)
    ∧ (∀ m, m ≠ n → teams s' !! m = teams s !! m)
    ∧ submissions s' = submissions s ∧ frozenProblems s' = frozenProblems s
    ∧ queryRanking n s'
      = "[Info]Complete query ranking."
        :: frozenWarning s
        ++ [rankingLine n (Z.of_nat (length (teamOrder s')))]
    ∧ addTeam n s' = (s', ["[Error]Add failed: duplicated team name."]).
Proof.
  intros Hs Hn Hreg.
  assert (n ∉ teamOrder s) as Hnotin.
  { intros Hin. destruct (Hreg n Hin) as [t Ht]. congruence. }
  unfold addTeam at 1. rewrite Hs.
  rewrite decide_False by (rewrite Hn; by intros [??]).
  eexists. split; [done|]. simpl. repeat split; try done.
  - apply lookup_insert_eq.
  - intros m Hm. by rewrite lookup_insert_ne.
  - unfold queryRanking, frozenWarning. simpl. rewrite lookup_insert_eq.
    rewrite decide_False by done. rewrite findRank_last by done.
    rewrite length_app. simpl.
    replace (1 + Z.of_nat (length (teamOrder s)))
      with (Z.of_nat (length (teamOrder s) + 1)) by lia.
    done.
  - unfold addTeam. simpl. rewrite lookup_insert_eq.
    by rewrite decide_True by eauto.
Qed.

Lemma X5_new_team_witness :
  queryRanking "a" (addTeam "a" (stateAfter [ADDTEAM "z"; ADDTEAM "m"])).1
  = ["[Info]Complete query ranking."; "a NOW AT RANKING 3"].
Proof.
  destruct (X5_new_team_is_ranked_last "a" (stateAfter [ADDTEAM "z"; ADDTEAM "m"]))
    as (s' & Hadd & Horder & _ & _ & _ & _ & Hquery & _).
  - reflexivity.
  - vm_compute. reflexivity.
  - apply (run_orderRegistered [ADDTEAM "z"; ADDTEAM "m"] _
             ["[Info]Add successfully."; "[Info]Add successfully."]).
    vm_compute. reflexivity.
  - rewrite Hadd. simpl. rewrite Hquery, Horder. vm_compute. reflexivity.
Defined.

(** ** Queries *)

Lemma submitProblem_updated (p n st : string) (time : Z) (s s' : System) :
  submitProblem p n st time s = Ok s' →
  ∃ t fp, s' = updated s n t (logged s p n st time) fp.
Proof.
  rewrite submitProblem_cases. cbv zeta.
  repeat (case_match; simplify_eq; try done); intros [= <-]; eauto.
Qed.



Lemma submissionMatches_query (teamName problemName statusStr : string) (m : Submission) :
  submissionMatches teamName problemName statusStr m = true
  ↔ matchesQuery teamName problemName statusStr m.
Proof.
  unfold submissionMatches, matchesQuery.
  rewrite !andb_true_iff, !orb_true_iff, !String.eqb_eq.
  destruct (String.eqb_spec statusStr "ALL") as [->|Hne].
  - rewrite bool_decide_eq_true. tauto.
  - rewrite bool_decide_eq_true. tauto.
Qed.

(** X7.  QUERY_SUBMISSION answers with an error line for a name without a
    record.  For a name with a record it prints the NEWEST logged
    submission of that team that passes both filters - the problem filter
    is a problem name or ["ALL"], the status filter is ["ALL"] or is read
    with [stringToStatus] - and the "cannot find" line when the log holds
    none. *)
Theorem X7_query_submission_finds_the_newest_match
    (s : System) (teamName problemName statusStr : string) :
  (teams s !! teamName = None →
   querySubmission teamName problemName statusStr s
   = ["[Error]Query submission failed: cannot find the team."])
  ∧ (is_Some (teams s !! teamName) →
     (∃ m, newestWith (matchesQuery teamName problemName statusStr) (submissions s) m
           ∧ querySubmission teamName problemName statusStr s
             = ["[Info]Complete query submission."; submissionLine m])
     ∨ (Forall (λ m, ¬ matchesQuery teamName problemName statusStr m) (submissions s)
        ∧ querySubmission teamName problemName statusStr s
          = ["[Info]Complete query submission."; "Cannot find any submission."])).
Proof.
  split.
  - intros Hn. unfold querySubmission. by rewrite decide_True.
  - intros [t Ht]. unfold querySubmission. rewrite decide_False by congruence.
    pose proof (find_rev_newest (submissionMatches teamName problemName statusStr)
                  (submissions s)) as Hfind.
    destruct (List.find _ _) as [m|].
    + left. exists m. split; [|done].
      destruct Hfind as (older & newer & Hlog & Hmatch & Hnewer).
      exists older, newer. split; [done|].
      split; [by apply submissionMatches_query|].
      eapply Forall_impl; [exact Hnewer|].
      intros x Hx Hx'%submissionMatches_query. congruence.
    + right. split; [|done].
      eapply Forall_impl; [exact Hfind|].
      intros x Hx Hx'%submissionMatches_query. congruence.
Qed.

Lemma X7_query_submission_witness :
  let s := stateAfter [ADDTEAM "t"; START 10 2;
                       SUBMIT "A" "t" "Wrong_Answer" 3;
                       SUBMIT "B" "t" "Accepted" 4;
                       SUBMIT "A" "t" "Wrong_Answer" 6] in
  querySubmission "ghost" "ALL" "ALL" s
  = ["[Error]Query submission failed: cannot find the team."]
  ∧ ((∃ m, newestWith (matchesQuery "t" "ALL" "Accepted") (submissions s) m
           ∧ querySubmission "t" "ALL" "Accepted" s
             = ["[Info]Complete query submission."; submissionLine m])
     ∨ (Forall (λ m, ¬ matchesQuery "t" "ALL" "Accepted" m) (submissions s)
        ∧ querySubmission "t" "ALL" "Accepted" s
          = ["[Info]Complete query submission."; "Cannot find any submission."])).
Proof.
  intros s. split.
  - apply (X7_query_submission_finds_the_newest_match s "ghost" "ALL" "ALL").
    vm_compute. reflexivity.
  - apply (X7_query_submission_finds_the_newest_match s "t" "ALL" "Accepted").
    vm_compute. eauto.
Defined.

(** X8.  A submission that was applied is in the log at once: the query
    of its team with both filters ["ALL"], and the query with its own
    problem and its own status label, both answer with that submission,
    the status being the one the label was read as. *)
Theorem X8_query_answers_with_the_submission_just_applied
    (p n st : string) (time : Z) (s s' : System) :
  submitProblem p n st time s = Ok s' →
  let answer := ["[Info]Complete query submission.";
                 submissionLine (mkSubmission n p (stringToStatus st) time)] in
  querySubmission n "ALL" "ALL" s' = answer
  ∧ querySubmission n p (statusToString (stringToStatus st)) s' = answer.
Proof.
  intros (t & fp & ->)%submitProblem_updated answer.
  assert (∀ problemName statusStr,
            matchesQuery n problemName statusStr
              (mkSubmission n p (stringToStatus st) time) →
            querySubmission n problemName statusStr
              (updated s n t (logged s p n st time) fp) = answer) as Hq.
  { intros problemName statusStr Hm%submissionMatches_query.
    unfold querySubmission. simpl. rewrite lookup_insert_eq.
    rewrite decide_False by done. unfold logged. rewrite rev_app_distr. simpl.
    by rewrite Hm. }
  split; apply Hq; unfold matchesQuery; simpl.
  - auto.
  - split; [done|]. split; [by right|]. right.
    by destruct (stringToStatus st).
Qed.

Lemma X8_query_answers_witness :
  ∃ s', submitProblem "A" "t" "Accepted" 7 (stateAfter [ADDTEAM "t"; START 10 1]) = Ok s'
        ∧ querySubmission "t" "ALL" "ALL" s'
          = ["[Info]Complete query submission."; "t A Accepted 7"].
Proof.
  assert (∃ s', submitProblem "A" "t" "Accepted" 7 (stateAfter [ADDTEAM "t"; START 10 1])
                = Ok s') as [s' Hsub] by (eexists; vm_compute; reflexivity).
  exists s'. split; [done|].
  destruct (X8_query_answers_with_the_submission_just_applied _ _ _ _ _ _ Hsub) as [-> _].
  vm_compute. reflexivity.
Defined.
(** ** FLUSH *)

Lemma flushScoreboard_sorted (s : System) :
  Inv s →
  ∃ o fp, flushScoreboard s
          = Ok (setFrozenProblems (setTeamOrder s o) fp,
                "[Info]Flush scoreboard." :: boardText (setTeamOrder s o))
          ∧ o ≡ₚ teamOrder s
          ∧ StronglySorted (holds (ranksBefore s)) o
          ∧ sameFrozen (frozenProblems s) fp.
Proof.
  intros HI. unfold flushScoreboard.
  destruct (updateRankings_sorted s) as (o & -> & Hperm & Hsorted).
  { intros n _. by apply getTeam_inv. }
  { apply HI. }
  simpl.
  pose proof (Inv_setTeamOrder s o HI Hperm) as HI1.
  destruct (printScoreboard_pure (setTeamOrder s o) (Inv_slots_order _ HI1))
    as (fp & -> & Hsame).
  simpl. by exists o, fp.
Qed.

(** A ranking order that is sorted is left as it is. *)
Lemma updateRankings_id (s : System) :
  Inv s → StronglySorted (holds (ranksBefore s)) (teamOrder s) →
  updateRankings s = Ok (setTeamOrder s (teamOrder s)).
Proof.
  intros HI Hsorted. unfold updateRankings.
  rewrite (sortBy_sorted_id (rankBefore s) (ranksBefore s)); [done| |done].
  intros a b _ _. apply rankBefore_pure; intros p; apply solved_has_time;
    by apply getTeam_inv.
Qed.

(** X9.  FLUSH is idempotent on the states of contest runs: it does not
    throw, and a second FLUSH right after it prints the same lines and
    leaves the same ranking order and the same teams. *)
Theorem X9_flush_twice_prints_the_same_board (s : System) :
  reachable s →
  ∃ s1 s2 out,
    flushScoreboard s = Ok (s1, out)
    ∧ flushScoreboard s1 = Ok (s2, out)
    ∧ teamOrder s2 = teamOrder s1 ∧ teams s2 = teams s1 ∧ teams s1 = teams s
    ∧ sameFrozen (frozenProblems s1) (frozenProblems s2)
    ∧ length out = S (length (teamOrder s)).
Proof.
  intros HI%reachable_inv.
  destruct (flushScoreboard_sorted s HI) as (o & fp & Hflush & Hperm & Hsorted & Hsame).
  set (s1 := setFrozenProblems (setTeamOrder s o) fp) in *.
  assert (Inv s1) as HI1.
  { apply Inv_setFrozenProblems; [by apply Inv_setTeamOrder|done]. }
  assert (updateRankings s1 = Ok s1) as Hrank.
  { rewrite updateRankings_id; [done|done|]. exact Hsorted. }
  destruct (printScoreboard_pure s1 (Inv_slots_order _ HI1)) as (fp2 & Hprint & Hsame2).
  exists s1, (setFrozenProblems s1 fp2), ("[Info]Flush scoreboard." :: boardText s1).
  split.
  { rewrite Hflush. do 3 f_equal. symmetry.
    by apply (boardText_sameFrozen (setTeamOrder s o) fp). }
  split.
  { unfold flushScoreboard. rewrite Hrank. simpl. by rewrite Hprint. }
  repeat split; try done.
  simpl. unfold boardText. rewrite length_imap. simpl. by rewrite Hperm.
Qed.

Lemma X9_flush_twice_witness :
  ∃ s1 s2 out, flushScoreboard (stateAfter threeTeams) = Ok (s1, out)
               ∧ flushScoreboard s1 = Ok (s2, out).
Proof.
  destruct (X9_flush_twice_prints_the_same_board (stateAfter threeTeams))
    as (s1 & s2 & out & Hfirst & Hsecond & _).
  - by apply stateAfter_reachable.
  - exists s1, s2, out. split; [exact Hfirst|exact Hsecond].
Defined.

(** ** The command loop *)

Lemma run_app (cs1 cs2 : list Command) (s : System) :
  END ∉ cs1 →
  run (cs1 ++ cs2) s
  = '(s1, out1) ← run cs1 s; '(s2, out2) ← run cs2 s1; Ok (s2, out1 ++ out2).
Proof.
  revert s. induction cs1 as [|c cs1 IH]; intros s Hend.
  - simpl. by destruct (run cs2 s) as [[??]| |].
  - assert (c ≠ END) as Hc by set_solver.
    rewrite <- app_comm_cons, !run_cons by done.
    destruct (step c s) as [[s1 out1]| |]; simpl; [|done..].
    rewrite IH by set_solver.
    destruct (run cs1 s1) as [[s2 out2]| |]; simpl; [|done..].
    destruct (run cs2 s2) as [[s3 out3]| |]; simpl; [|done..].
    by rewrite app_assoc.
Qed.

(** X12.  The command loop runs its commands in sequence - the second
    part of a stream starts in the state the first part left, and the
    outputs follow each other - until the first END: END prints its line
    and nothing after it is run. *)
Theorem X12_commands_run_in_sequence_until_END
    (cs1 cs2 : list Command) (s : System) :
  END ∉ cs1 →
  run (cs1 ++ cs2) s
  = ('(s1, out1) ← run cs1 s; '(s2, out2) ← run cs2 s1; Ok (s2, out1 ++ out2))
  ∧ run (cs1 ++ END :: cs2) s
    = ('(s1, out1) ← run cs1 s; Ok (s1, out1 ++ ["[Info]Competition ends."])).
Proof.
  intros Hend. split; [by apply run_app|].
  rewrite run_app by done. by destruct (run cs1 s) as [[??]| |].
Qed.

Lemma X12_commands_run_witness :
  outputOf ([ADDTEAM "t"; FREEZE] ++ END :: [ADDTEAM "u"; FLUSH])
  = ["[Info]Add successfully."; "[Info]Freeze scoreboard."; "[Info]Competition ends."].
Proof.
  unfold outputOf.
  destruct (X12_commands_run_in_sequence_until_END
              [ADDTEAM "t"; FREEZE] [ADDTEAM "u"; FLUSH] initialSystem) as [_ ->].
  - intros Hin. apply list_elem_of_In in Hin. simpl in Hin.
    destruct Hin as [?|[?|[]]]; discriminate.
  - vm_compute. reflexivity.
Defined.

(** ** Ranks after a FLUSH *)

Lemma findRank_split (ranking : Z) (order : list string) (n : string) (r : Z) :
  findRank ranking order n = Some r →
  ∃ l1 l2, order = l1 ++ n :: l2 ∧ (n ∉ l1) ∧ r = ranking + Z.of_nat (length l1).
Proof.
  revert ranking. induction order as [|x order IH]; intros ranking; simpl; [done|].
  destruct (String.eqb_spec x n) as [->|Hne].
  - intros [= <-]. exists [], order. simpl. split; [done|]. split; [set_solver|lia].
  - intros (l1 & l2 & -> & Hn & ->)%IH. exists (x :: l1), l2. simpl.
    split; [done|]. split; [set_solver|lia].
Qed.

(** In a sorted list without duplicates the earlier of two positions
    holds the smaller element. *)
Lemma sorted_positions {A} (R : relation A) (l1 l2 m1 m2 : list A) (a b : A) :
  StronglySorted R (l1 ++ a :: l2) → l1 ++ a :: l2 = m1 ++ b :: m2 →
  (length l1 < length m1)%nat → R a b.
Proof.
  intros Hsorted Heq Hlt.
  assert (b ∈ l2) as Hb.
  { assert ((l1 ++ a :: l2) !! length m1 = Some b) as Hlook.
    { rewrite Heq. by rewrite list_lookup_middle. }
    rewrite lookup_app_r in Hlook by lia.
    destruct (length m1 - length l1)%nat as [|k] eqn:Hk; [lia|].
    simpl in Hlook. by apply list_elem_of_lookup_2 in Hlook. }
  apply StronglySorted_app in Hsorted as (_ & _ & Hsorted).
  apply StronglySorted_inv in Hsorted as [_ Hall].
  rewrite Forall_forall in Hall. by apply Hall.
Qed.

(** X13.  After a FLUSH the positions QUERY_RANKING reads agree with the
    ranking rule: of two ranked teams, the one the rule puts before the
    other has the smaller position, and the other way round. *)
Theorem X13_ranks_after_flush_follow_the_rule
    (s s' : System) (out : list string) (a b : string) (ra rb : Z) :
  reachable s → flushScoreboard s = Ok (s', out) →
  findRank 1 (teamOrder s') a = Some ra →
  findRank 1 (teamOrder s') b = Some rb →
  (RankedBefore s' a b ↔ ra < rb).
Proof.
  intros HI%reachable_inv Hflush Ha Hb.
  destruct (flushScoreboard_sorted s HI) as (o & fp & Hflush' & Hperm & Hsorted & Hsame).
  rewrite Hflush' in Hflush. injection Hflush as <- _.
  assert (Inv (setFrozenProblems (setTeamOrder s o) fp)) as HI'.
  { apply Inv_setFrozenProblems; [by apply Inv_setTeamOrder|done]. }
  set (s' := setFrozenProblems (setTeamOrder s o) fp) in *.
  change (StronglySorted (holds (ranksBefore s')) (teamOrder s')) in Hsorted.
  apply findRank_split in Ha as (l1 & l2 & Hl & _ & ->).
  apply findRank_split in Hb as (m1 & m2 & Hm & _ & ->).
  rewrite <- ranksBefore_spec by (by apply Inv_countOk).
  assert (∀ x y k1 k2 j1 j2,
            teamOrder s' = k1 ++ x :: k2 → teamOrder s' = j1 ++ y :: j2 →
            (length k1 < length j1)%nat → ranksBefore s' x y = true) as Hlt.
  { intros x y k1 k2 j1 j2 Hk Hj Hlen.
    apply (sorted_positions (holds (ranksBefore s')) k1 k2 j1 j2 x y);
      [by rewrite <- Hk|congruence|done]. }
  split.
  - intros Hab.
    destruct (Nat.lt_trichotomy (length l1) (length m1)) as [?|[Heq|Hgt]]; [lia| |].
    + assert (a = b) as <-.
      { assert (teamOrder s' !! length l1 = Some a) as H1
          by (rewrite Hl; by rewrite list_lookup_middle).
        assert (teamOrder s' !! length l1 = Some b) as H2
          by (rewrite Hm, Heq; by rewrite list_lookup_middle).
        congruence. }
      by rewrite ranksBefore_irrefl in Hab.
    + pose proof (Hlt b a m1 m2 l1 l2 Hm Hl Hgt) as Hba.
      apply ranksBefore_asym in Hba. congruence.
  - intros Hr. apply (Hlt a b l1 l2 m1 m2 Hl Hm). lia.
Qed.

Lemma X13_ranks_after_flush_witness :
  let s := stateAfter [ADDTEAM "a"; ADDTEAM "b"; START 10 1;
                       SUBMIT "A" "b" "Accepted" 3] in
  ∃ s' out, flushScoreboard s = Ok (s', out) ∧ RankedBefore s' "b" "a".
Proof.
  intros s.
  assert (∃ s' out, flushScoreboard s = Ok (s', out)
                    ∧ findRank 1 (teamOrder s') "b" = Some 1
                    ∧ findRank 1 (teamOrder s') "a" = Some 2)
    as (s' & out & Hflush & Hb & Ha).
  { eexists _, _. split; [vm_compute; reflexivity|]. split; vm_compute; reflexivity. }
  exists s', out. split; [done|].
  apply (X13_ranks_after_flush_follow_the_rule s s' out "b" "a" 1 2);
    [by apply stateAfter_reachable|done|done|done|lia].
Defined.

(** ** What SCROLL reveals next *)

(** X14.  The scan that opens every round of SCROLL looks at the ranking
    order from its end.  It picks the LAST team of the order that has a
    frozen problem, and of that team's frozen problems the least one under
    the order of [std::string]; when no ranked team has a frozen problem it
    returns two empty strings.  The scan changes no frozen-problem set. *)
Theorem X14_scroll_picks_lowest_team_smallest_problem
    (order : list string) (fp fp' : gmap string (gset string)) (t p : string) :
  findFrozenTeam (rev order) fp = (t, p, fp') →
  sameFrozen fp fp'
  ∧ ((t = "" ∧ p = "" ∧ ∀ n, n ∈ order → frozenSet fp n = ∅)
     ∨ (∃ l1 l2, order = l1 ++ t :: l2
                 ∧ (∀ n, n ∈ l2 → frozenSet fp n = ∅)
                 ∧ p ∈ frozenSet fp t
                 ∧ ∀ q, q ∈ frozenSet fp t → q ≠ p → String.ltb p q = true)).
Proof.
  intros [Hsame Hcases]%findFrozenTeam_spec. split; [done|].
  destruct Hcases as [(-> & -> & Hall)|(l1 & l2 & Hl & Hall & Hne & ->)].
  - left. repeat split. intros n Hn. apply Hall. by apply elem_of_rev.
  - right. exists (rev l2), (rev l1).
    destruct (smallest_spec _ Hne) as [Hin Hmin].
    split.
    { rewrite <- (rev_involutive order), Hl, rev_app_distr. simpl.
      by rewrite <- app_assoc. }
    split; [intros n Hn; apply Hall; by apply elem_of_rev|].
    split; [done|].
    intros q Hq Hqp. apply string_ltb_total; [done|by apply Hmin].
Qed.

Lemma X14_scroll_picks_witness :
  ∃ fp', findFrozenTeam (rev (teamOrder (stateAfter threeTeams)))
           (frozenProblems (stateAfter threeTeams)) = ("c", "A", fp')
         ∧ sameFrozen (frozenProblems (stateAfter threeTeams)) fp'.
Proof.
  exists (findFrozenTeam (rev (teamOrder (stateAfter threeTeams)))
            (frozenProblems (stateAfter threeTeams))).2.
  assert (findFrozenTeam (rev (teamOrder (stateAfter threeTeams)))
            (frozenProblems (stateAfter threeTeams))
          = ("c", "A", (findFrozenTeam (rev (teamOrder (stateAfter threeTeams)))
                          (frozenProblems (stateAfter threeTeams))).2)) as Hfind
    by (vm_compute; reflexivity).
  split; [exact Hfind|].
  exact (proj1 (X14_scroll_picks_lowest_team_smallest_problem _ _ _ _ _ Hfind)).
Defined.

(** ** Contest input *)

(** X16.  On contest input - every submission names a team of the ranking
    order and a problem of the contest, whatever else the stream holds -
    no command throws and no SCROLL is cut short: the run returns a state
    and its output, and every state it ends in satisfies the invariant of
    contest runs. *)
Theorem X16_contest_input_never_throws (cs : list Command) :
  contestInput cs initialSystem = true →
  ∃ s out, run cs initialSystem = Ok (s, out) ∧ Inv s ∧ orderRegistered s.
Proof.
  intros Hin.
  destruct (run_total cs initialSystem Inv_initial Revealable_initial Hin)
    as (s & out & Hrun & HI & _).
  exists s, out. split; [done|]. split; [done|].
  by apply (run_orderRegistered cs s out).
Qed.

Lemma X16_contest_input_witness :
  ∃ s out, run shortContest initialSystem = Ok (s, out).
Proof.
  destruct (X16_contest_input_never_throws shortContest) as (s & out & Hrun & _).
  - vm_compute. reflexivity.
  - by exists s, out.
Defined.
(** ** SCROLL from start to end *)

(** A reveal keeps the ranking order sorted. *)
Lemma revealStep_sorted (n p : string) (s s' : System) (changes : list (string * string)) :
  Inv s → StronglySorted (holds (ranksBefore s)) (teamOrder s) →
  p ∈ frozenSet (frozenProblems s) n →
  revealStep n p s = Ok (s', changes) →
  StronglySorted (holds (ranksBefore s')) (teamOrder s').
Proof.
  intros HI Hsorted Hp Hstep.
  pose proof (revealStep_inv n p s s' changes HI Hp Hstep) as HI'.
  pose proof Hstep as [(_ & _ & _ & Hsort & Heq & _)|(_ & Heq & _)]%revealStep_Ok.
  - destruct (sortBy_ranked s' (teamOrder s) HI') as (o & Ho & _ & Hsorted');
      [apply HI|].
    rewrite Hsort in Ho. by injection Ho as <-.
  - assert (teamOrder s' = teamOrder s) as -> by (by rewrite Heq).
    eapply StronglySorted_mono_elem; [|exact Hsorted].
    intros a b _ _ Hab. unfold holds in *. rewrite <- Hab.
    apply ranksBefore_ext. intros m _.
    rewrite Heq, getTeam_updated. case_decide; [by subst|done].
Qed.

(** When the loop ends, no ranked team has a frozen problem left, unless
    a team with the empty name stopped it. *)
Lemma scrollLoop_exit (fuel : nat) (s s' : System) (acc changes : list (string * string)) :
  scrollLoop fuel s acc = Ok (s', changes) →
  "" ∉ teamOrder s →
  ∀ n, n ∈ teamOrder s' → frozenSet (frozenProblems s') n = ∅.
Proof.
  revert s acc. induction fuel as [|fuel IH]; intros s acc; [done|].
  rewrite scrollLoop_S.
  destruct (findFrozenTeam _ _) as [[t p] fp] eqn:Hfind.
  apply findFrozenTeam_spec in Hfind as [Hsame Hcases].
  destruct (String.eqb_spec t "") as [->|Hne].
  - intros [= <- <-] Hempty n Hn. simpl in *. rewrite (Hsame n).
    destruct Hcases as [(_ & _ & Hall)|(l1 & l2 & Hl & _)].
    + apply Hall. by apply elem_of_rev.
    + destruct Hempty. apply elem_of_rev. rewrite Hl. set_solver.
  - intros ([s1 ch] & Hstep & Hloop)%bindR_Ok Hempty.
    apply (IH s1 (acc ++ ch)); [done|].
    apply revealStep_order in Hstep. by rewrite Hstep.
Qed.

Lemma boardText_ranked_frozen (s : System) (fp : gmap string (gset string)) :
  (∀ n, n ∈ teamOrder s → frozenSet fp n = frozenSet (frozenProblems s) n) →
  boardText (setFrozenProblems s fp) = boardText s.
Proof.
  intros Hsame. unfold boardText. apply imap_ext. intros i n Hn.
  unfold rowText. simpl. rewrite Hsame; [done|].
  by apply list_elem_of_lookup_2 in Hn.
Qed.

(** On a sorted ranking order FLUSH prints the board and moves no team. *)
Lemma flushScoreboard_id (s : System) :
  Inv s → StronglySorted (holds (ranksBefore s)) (teamOrder s) →
  ∃ fp, flushScoreboard s
        = Ok (setFrozenProblems (setTeamOrder s (teamOrder s)) fp,
              "[Info]Flush scoreboard." :: boardText s).
Proof.
  intros HI Hsorted. unfold flushScoreboard.
  rewrite (updateRankings_id s HI Hsorted). simpl.
  destruct (printScoreboard_pure (setTeamOrder s (teamOrder s))) as (fp & -> & _).
  { apply (Inv_slots_order s HI). }
  simpl. by exists fp.
Qed.

(** X10.  A SCROLL on a frozen board of a contest run that returns leaves
    the board unfrozen with no frozen problem anywhere, the log and the
    problems as they were, and a ranking order that is a permutation of
    the registered teams sorted by the ranking rule: a FLUSH right after it
    prints the board of that state without moving a team.  Unless a team
    has the empty name, the last rows SCROLL prints are that same board. *)
Theorem X10_scroll_ends_unfrozen_and_ranked
    (registry : list string) (s s' : System) (out : list string) :
  visited registry s → isFrozen s = true →
  scrollScoreboard s = Ok (s', out) →
  isFrozen s' = false ∧ frozenProblems s' = ∅
  ∧ submissions s' = submissions s ∧ problemNames s' = problemNames s
  ∧ teamOrder s' ≡ₚ registry ∧ Ranked s'
  ∧ (∃ s'', flushScoreboard s' = Ok (s'', "[Info]Flush scoreboard." :: boardText s')
            ∧ teamOrder s'' = teamOrder s')
  ∧ ("" ∉ registry →
     ∃ rows, out = "[Info]Scroll scoreboard." :: rows ++ boardText s').
Proof.
  intros Hvisited Hfrozen Hscroll.
  destruct (visited_inv registry s Hvisited) as (HI & _ & Hreg).
  pose proof (scrollScoreboard_inv s s' out HI Hscroll) as HI'.
  pose proof (scrollScoreboard_order s s' out Hscroll) as Hperm.
  revert Hscroll. unfold scrollScoreboard. rewrite Hfrozen. simpl.
  destruct (updateRankings_sorted s) as (o & Hrank & Hperm1 & Hsorted1).
  { intros n _. by apply getTeam_inv. }
  { apply HI. }
  rewrite Hrank. simpl.
  pose proof (Inv_setTeamOrder s o HI Hperm1) as HI1.
  destruct (printScoreboard_pure (setTeamOrder s o) (Inv_slots_order _ HI1))
    as (fp1 & -> & Hsame1).
  simpl. set (s2 := setFrozenProblems (setTeamOrder s o) fp1).
  assert (Inv s2) as HI2 by (by apply Inv_setFrozenProblems).
  intros ([s3 changes] & Hloop & Hrest)%bindR_Ok.
  assert (Inv s3 ∧ StronglySorted (holds (ranksBefore s3)) (teamOrder s3)) as [HI3 Hsorted3].
  { revert Hloop.
    apply (scrollLoop_invariant
             (λ x, Inv x ∧ StronglySorted (holds (ranksBefore x)) (teamOrder x))).
    - intros x fp [HIx Hx] Hsame. split; [by apply Inv_setFrozenProblems|done].
    - intros x n p x' ch [HIx Hx] _ Hp Hstep. split.
      + by apply (revealStep_inv n p x x' ch).
      + by apply (revealStep_sorted n p x x' ch).
    - split; [done|exact Hsorted1]. }
  destruct (printScoreboard_pure s3 (Inv_slots_order _ HI3)) as (fp2 & Hprint & Hsame2).
  rewrite Hprint in Hrest. simpl in Hrest. injection Hrest as <- <-.
  set (s' := setFrozenProblems (setIsFrozen (setFrozenProblems s3 fp2) false) ∅) in *.
  assert (StronglySorted (holds (ranksBefore s')) (teamOrder s')) as Hsorted'
    by exact Hsorted3.
  split; [done|]. split; [done|].
  apply scrollLoop_started in Hloop as Hkept. destruct Hkept as (_ & Hnames & Hsubs & _).
  split; [exact Hsubs|]. split; [exact Hnames|].
  split; [by rewrite Hperm|].
  split; [by apply StronglySorted_RankedBefore|].
  split.
  - destruct (flushScoreboard_id s' HI' Hsorted') as (fp3 & Hflush).
    eexists. split; [exact Hflush|done].
  - intros Hempty. exists (boardText (setTeamOrder s o) ++ List.map (changeLine s3) changes).
    rewrite <- app_assoc. do 3 f_equal.
    symmetry. apply (boardText_ranked_frozen s3 ∅).
    intros n Hn. rewrite (scrollLoop_exit _ _ _ _ _ Hloop); [done| |done].
    simpl. rewrite Hperm1, Hreg. done.
Qed.

Lemma X10_scroll_witness :
  ∃ s' out, scrollScoreboard (stateAfter threeTeams) = Ok (s', out)
            ∧ isFrozen s' = false ∧ Ranked s'.
Proof.
  assert (∃ s' out, scrollScoreboard (stateAfter threeTeams) = Ok (s', out))
    as (s' & out & Hscroll) by (eexists _, _; vm_compute; reflexivity).
  exists s', out. split; [done|].
  destruct (X10_scroll_ends_unfrozen_and_ranked
              (registryOf threeTeams initialSystem []) (stateAfter threeTeams) s' out)
    as (Hf & _ & _ & _ & _ & Hranked & _).
  - apply stateAfter_visited; vm_compute; reflexivity.
  - vm_compute. reflexivity.
  - exact Hscroll.
  - by split.
Defined.

(** ** Pending counters and SCROLL *)

Lemma revealStep_team (n p : string) (s s' : System) (changes : list (string * string))
    (m : string) :
  revealStep n p s = Ok (s', changes) →
  (m ≠ n → getTeam s' m = getTeam s m)
  ∧ (∀ q, frozenPending (getTeam s' n) q
          = if decide (p = q) then 0 else frozenPending (getTeam s n) q)
  ∧ frozenSet (frozenProblems s') n = frozenSet (frozenProblems s) n ∖ {[p]}
  ∧ (m ≠ n → frozenSet (frozenProblems s') m = frozenSet (frozenProblems s) m).
Proof.
  intros Hstep.
  assert (∀ t : Team, ∀ q,
            mapGet 0 (<[p := 0]> (frozenSubmissions t)) q
            = if decide (p = q) then 0 else frozenPending t q) as Hpending.
  { intros t q. case_decide as Hq.
    - subst q. apply mapGet_insert_eq.
    - by apply mapGet_insert_ne. }
  apply revealStep_Ok in Hstep as [(_ & _ & _ & _ & -> & _)|(_ & -> & _)].
  - rewrite !getTeam_setTeamOrder, !getTeam_updated. simpl.
    split; [intros Hm; by rewrite decide_False|].
    split; [intros q; rewrite decide_True by done; apply Hpending|].
    split; [apply revealedFrozen_eq|]. intros Hm. by apply revealedFrozen_ne.
  - rewrite !getTeam_updated. simpl.
    split; [intros Hm; by rewrite decide_False|].
    split; [intros q; rewrite decide_True by done; apply Hpending|].
    split; [apply revealedFrozen_eq|]. intros Hm. by apply revealedFrozen_ne.
Qed.

(** Printing changes no frozen-problem set, also when it is not known
    beforehand that it will not throw. *)
Lemma printCell_sameFrozen (t : Team) (n : string) (fp fp' : gmap string (gset string))
    (p c : string) :
  printCell t n fp p = Ok (c, fp') → sameFrozen fp fp'.
Proof.
  unfold printCell.
  destruct (mapAt (isSolved t) p) as [[]| |]; simpl; [| |done..].
  - destruct (mapAt (wrongSubmissions t) p) as [w| |]; simpl; [|done..].
    destruct (w =? 0); by intros [= <- <-].
  - case_decide.
    + destruct (mapAt (wrongSubmissions t) p) as [w| |]; simpl; [|done..].
      destruct (mapAt (frozenSubmissions t) p) as [f| |]; simpl; [|done..].
      destruct (w =? 0); intros [= <- <-]; apply sameFrozen_touch.
    + destruct (mapAt (wrongSubmissions t) p) as [w| |]; simpl; [|done..].
      destruct (w =? 0); intros [= <- <-]; apply sameFrozen_touch.
Qed.

Lemma printCells_sameFrozen (t : Team) (n : string) (problems : list string)
    (fp fp' : gmap string (gset string)) (cells : list string) :
  printCells t n fp problems = Ok (cells, fp') → sameFrozen fp fp'.
Proof.
  revert fp cells. induction problems as [|p problems IH]; intros fp cells; simpl.
  - by intros [= <- <-].
  - intros ([c fpa] & Hcell & Hrest)%bindR_Ok.
    apply bindR_Ok in Hrest as ([cs fpb] & Hrest & [= <- <-]).
    apply (sameFrozen_trans fp fpa fpb); [by apply printCell_sameFrozen in Hcell|].
    by apply (IH fpa cs).
Qed.

Lemma printRows_sameFrozen (s : System) (order : list string) (i : nat)
    (fp fp' : gmap string (gset string)) (rows : list string) :
  printRows s i order fp = Ok (rows, fp') → sameFrozen fp fp'.
Proof.
  revert i fp rows. induction order as [|n order IH]; intros i fp rows; simpl.
  - by intros [= <- <-].
  - intros ([cells fpa] & Hcells & Hrest)%bindR_Ok.
    apply bindR_Ok in Hrest as ([rs fpb] & Hrest & [= <- <-]).
    apply (sameFrozen_trans fp fpa fpb); [by apply printCells_sameFrozen in Hcells|].
    by apply (IH (S i) fpa rs).
Qed.

Lemma printScoreboard_sameFrozen (s s' : System) (rows : list string) :
  printScoreboard s = Ok (s', rows) →
  ∃ fp, s' = setFrozenProblems s fp ∧ sameFrozen (frozenProblems s) fp.
Proof.
  unfold printScoreboard. intros ([rows' fp] & Hrows & [= <- <-])%bindR_Ok.
  exists fp. split; [done|]. by apply printRows_sameFrozen in Hrows.
Qed.

(** X15.  SCROLL sets a pending counter back to zero only for the problems
    it reveals, the members of the frozen-problem sets.  The counter of
    every other problem - one with nothing but non-accepted submissions
    while frozen - is left as it was and is carried into the next freeze.
    For a ranked team the counter of every frozen problem is zero after the
    SCROLL (no team bearing the empty name). *)
Theorem X15_scroll_resets_pending_counts_of_frozen_problems_only
    (s s' : System) (out : list string) (n p : string) :
  isFrozen s = true →
  scrollScoreboard s = Ok (s', out) →
  (p ∉ frozenSet (frozenProblems s) n →
   frozenPending (getTeam s' n) p = frozenPending (getTeam s n) p)
  ∧ (p ∈ frozenSet (frozenProblems s) n → n ∈ teamOrder s → "" ∉ teamOrder s →
     frozenPending (getTeam s' n) p = 0).
Proof.
  intros Hfrozen. unfold scrollScoreboard. rewrite Hfrozen. simpl.
  intros (s1 & [Heq1 Hperm1]%updateRankings_Ok & Hrest)%bindR_Ok.
  apply bindR_Ok in Hrest as ([s2 before] & Hprint & Hrest).
  apply bindR_Ok in Hrest as ([s3 changes] & Hloop & Hrest).
  apply bindR_Ok in Hrest as ([s4 after] & [fp2 ->]%printScoreboard_state & [= <- <-]).
  change (getTeam (setFrozenProblems (setIsFrozen (setFrozenProblems s3 fp2) false) ∅) n)
    with (getTeam s3 n).
  assert (getTeam s2 n = getTeam s n
          ∧ frozenSet (frozenProblems s2) n = frozenSet (frozenProblems s) n
          ∧ teamOrder s2 ≡ₚ teamOrder s) as (Ht2 & Hf2 & Ho2).
  { apply printScoreboard_sameFrozen in Hprint as (fp1 & -> & Hsame).
    simpl. rewrite (Hsame n), Heq1. by split. }
  split.
  - intros Hp.
    assert ((∀ q, q ∈ frozenSet (frozenProblems s3) n → q ∈ frozenSet (frozenProblems s2) n)
            ∧ frozenPending (getTeam s3 n) p = frozenPending (getTeam s2 n) p)
      as [_ ->]; [|by rewrite Ht2].
    revert Hloop.
    apply (scrollLoop_invariant
             (λ x, (∀ q, q ∈ frozenSet (frozenProblems x) n
                         → q ∈ frozenSet (frozenProblems s2) n)
                   ∧ frozenPending (getTeam x n) p = frozenPending (getTeam s2 n) p)).
    + intros x fp [Hsub Hpend] Hsame. split; [|done].
      intros q Hq. simpl in Hq. rewrite (Hsame n) in Hq. by apply Hsub.
    + intros x m q x' ch [Hsub Hpend] _ Hq Hstep.
      destruct (revealStep_team m q x x' ch n Hstep) as (Hother & Hself & Hfs & Hfo).
      destruct (decide (n = m)) as [->|Hne].
      * split.
        -- intros r Hr. rewrite Hfs in Hr. apply Hsub. set_solver.
        -- rewrite Hself. rewrite decide_False; [done|].
           intros ->. apply Hp. rewrite <- Hf2. by apply Hsub.
      * rewrite Hother, Hfo by done. by split.
    + by split.
  - intros Hp Hn Hempty.
    assert (∀ q, q ∈ frozenSet (frozenProblems s2) n →
                 q ∈ frozenSet (frozenProblems s3) n
                 ∨ frozenPending (getTeam s3 n) q = 0) as Hq.
    { revert Hloop.
      apply (scrollLoop_invariant
               (λ x, ∀ q, q ∈ frozenSet (frozenProblems s2) n →
                          q ∈ frozenSet (frozenProblems x) n
                          ∨ frozenPending (getTeam x n) q = 0)).
      - intros x fp Hx Hsame q Hq. simpl. rewrite (Hsame n). by apply Hx.
      - intros x m q x' ch Hx _ _ Hstep r Hr.
        destruct (revealStep_team m q x x' ch n Hstep) as (Hother & Hself & Hfs & Hfo).
        destruct (decide (n = m)) as [->|Hne].
        + rewrite Hself, Hfs. case_decide as Hqr; [by right|].
          destruct (Hx r Hr) as [?|?]; [left; set_solver|by right].
        + rewrite Hother, Hfo by done. by apply Hx.
      - intros q Hq. by left. }
    destruct (Hq p) as [Hin|Hzero]; [by rewrite Hf2| |done].
    rewrite (scrollLoop_exit _ _ _ _ _ Hloop) in Hin.
    + set_solver.
    + by rewrite Ho2.
    + apply scrollLoop_order in Hloop. rewrite Hloop, Ho2. done.
Qed.
Lemma X15_scroll_pending_witness :
  ∃ s' out, scrollScoreboard (stateAfter wrongAndAcceptedWhileFrozen) = Ok (s', out)
            ∧ frozenPending (getTeam s' "t") "A" = 1
            ∧ frozenPending (getTeam s' "t") "B" = 0.
Proof.
  assert (∃ s' out, scrollScoreboard (stateAfter wrongAndAcceptedWhileFrozen)
                    = Ok (s', out))
    as (s' & out & Hscroll) by (eexists _, _; vm_compute; reflexivity).
  assert (frozenSet (frozenProblems (stateAfter wrongAndAcceptedWhileFrozen)) "t"
          = {["B"]}) as Hset by (vm_compute; reflexivity).
  assert (teamOrder (stateAfter wrongAndAcceptedWhileFrozen) = ["t"]) as Horder
    by (vm_compute; reflexivity).
  exists s', out. split; [done|]. split.
  - destruct (X15_scroll_resets_pending_counts_of_frozen_problems_only
                (stateAfter wrongAndAcceptedWhileFrozen) s' out "t" "A" eq_refl Hscroll)
      as [Hkeep _].
    rewrite Hkeep; [vm_compute; reflexivity|].
    rewrite Hset. intros [=]%elem_of_singleton.
  - destruct (X15_scroll_resets_pending_counts_of_frozen_problems_only
                (stateAfter wrongAndAcceptedWhileFrozen) s' out "t" "B" eq_refl Hscroll)
      as [_ Hzero].
    apply Hzero; rewrite ?Hset, ?Horder.
    + by apply elem_of_singleton.
    + by apply list_elem_of_singleton.
    + intros [=]%list_elem_of_singleton.
Defined.

(** ** A solved problem stays as it was solved *)

Lemma solvedRecordsKept_refl (s : System) : solvedRecordsKept s s.
Proof. by intros n p Hp. Qed.

Lemma solvedRecordsKept_trans (s1 s2 s3 : System) :
  solvedRecordsKept s1 s2 → solvedRecordsKept s2 s3 → solvedRecordsKept s1 s3.
Proof.
  intros H12 H23 n p Hp. destruct (H12 n p Hp) as (Hs & Ha & Hw).
  destruct (H23 n p Hs) as (Hs' & Ha' & Hw'). split; [done|]. split; congruence.
Qed.

Lemma solvedRecordsKept_teams (s s' : System) :
  (∀ n, getTeam s' n = getTeam s n) → solvedRecordsKept s s'.
Proof. intros H n p Hp. by rewrite H. Qed.

Lemma solvedRecordsKept_updated (s : System) (n : string) (t : Team)
    (subs : list Submission) (fp : gmap string (gset string)) :
  (∀ p, solved (getTeam s n) p = true →
        solved t p = true ∧ acceptTime t p = acceptTime (getTeam s n) p
        ∧ wrongCount t p = wrongCount (getTeam s n) p) →
  solvedRecordsKept s (updated s n t subs fp).
Proof.
  intros H m p Hp. rewrite getTeam_updated. case_decide; [subst; by apply H|done].
Qed.

Lemma submitProblem_solvedRecordsKept (p n st : string) (time : Z) (s s' : System) :
  submitProblem p n st time s = Ok s' → solvedRecordsKept s s'.
Proof.
  rewrite submitProblem_cases. cbv zeta.
  assert (∀ q, solved (getTeam s n) q = true →
               mapGet false (touch false (isSolved (getTeam s n)) p) q = true) as Hkeep.
  { intros q Hq. by rewrite mapGet_touch. }
  destruct (solved (getTeam s n) p) eqn:Hs.
  { intros [= <-]. apply solvedRecordsKept_updated. intros q Hq.
    split; [exact (Hkeep q Hq)|done]. }
  destruct (isFrozen s).
  { intros [= <-]. apply solvedRecordsKept_updated. intros q Hq.
    split; [exact (Hkeep q Hq)|done]. }
  case_decide.
  { destruct (wrongSubmissions (getTeam s n) !! p); [|done].
    intros [= <-]. apply solvedRecordsKept_updated. intros q Hq.
    assert (p ≠ q) as Hne by (intros ->; congruence).
    unfold solved, acceptTime, wrongCount. simpl.
    rewrite !mapGet_insert_ne by done. split; [exact (Hkeep q Hq)|done]. }
  intros [= <-]. apply solvedRecordsKept_updated. intros q Hq.
  assert (p ≠ q) as Hne by (intros ->; congruence).
  unfold wrongCount at 1. simpl. rewrite mapGet_incr_ne by done.
  split; [exact (Hkeep q Hq)|done].
Qed.

Lemma revealStep_solvedRecordsKept (n p : string) (s s' : System)
    (changes : list (string * string)) :
  solved (getTeam s n) p = false →
  revealStep n p s = Ok (s', changes) → solvedRecordsKept s s'.
Proof.
  intros Hunsolved [(_ & _ & _ & _ & Heq & _)|(_ & Heq & _)]%revealStep_Ok.
  - apply (solvedRecordsKept_trans s
             (updated s n (revealSolved (getTeam s n) p (findFirstAC (submissions s) n p))
                (submissions s) (revealedFrozen s n p))).
    + apply solvedRecordsKept_updated. intros q Hq.
      assert (p ≠ q) as Hne by (intros ->; congruence).
      unfold solved, acceptTime. simpl. by rewrite !mapGet_insert_ne by done.
    + apply solvedRecordsKept_teams. intros m. by rewrite Heq.
  - rewrite Heq. by apply solvedRecordsKept_updated.
Qed.

Lemma scrollScoreboard_solvedRecordsKept (s s' : System) (out : list string) :
  Inv s → scrollScoreboard s = Ok (s', out) → solvedRecordsKept s s'.
Proof.
  intros HI. unfold scrollScoreboard.
  destruct (isFrozen s); simpl; [|intros [= <- <-]; apply solvedRecordsKept_refl].
  intros (s1 & Hrank & Hrest)%bindR_Ok.
  apply bindR_Ok in Hrest as ([s2 before] & Hprint & Hrest).
  apply bindR_Ok in Hrest as ([s3 changes] & Hloop & Hrest).
  apply bindR_Ok in Hrest as ([s4 after] & [fp2 ->]%printScoreboard_state & [= <- <-]).
  pose proof (updateRankings_inv s s1 HI Hrank) as HI1.
  pose proof (printScoreboard_inv s1 s2 before HI1 Hprint) as HI2.
  apply updateRankings_Ok in Hrank as [Heq1 _].
  apply printScoreboard_state in Hprint as [fp1 ->].
  assert (Inv s3 ∧ solvedRecordsKept s s3) as [_ Hkept]; [|exact Hkept].
  revert Hloop.
  apply (scrollLoop_invariant (λ x, Inv x ∧ solvedRecordsKept s x)).
  - intros x fp [HIx Hx] Hsame. split; [by apply Inv_setFrozenProblems|exact Hx].
  - intros x n p x' ch [HIx Hx] _ Hp Hstep. split.
    + by apply (revealStep_inv n p x x' ch).
    + apply (solvedRecordsKept_trans s x x'); [done|].
      apply (revealStep_solvedRecordsKept n p x x' ch); [|done].
      by apply (inv_frozen_unsolved x HIx).
  - split; [done|]. apply solvedRecordsKept_teams. intros n.
    by rewrite getTeam_setFrozenProblems, Heq1.
Qed.

Lemma step_solvedRecordsKept (c : Command) (s s' : System) (out : list string) :
  Inv s → competitionStarted s = true →
  step c s = Ok (s', out) → solvedRecordsKept s s'.
Proof.
  intros HI Hs. destruct c; simpl.
  - intros [= Hadd]. unfold addTeam in Hadd. rewrite Hs in Hadd.
    injection Hadd as <- _. apply solvedRecordsKept_refl.
  - intros [= Hstart]. unfold startCompetition in Hstart. rewrite Hs in Hstart.
    injection Hstart as <- _. apply solvedRecordsKept_refl.
  - intros (s1 & Hsub & [= <- <-])%bindR_Ok.
    by apply (submitProblem_solvedRecordsKept problemName teamName statusStr time).
  - unfold flushScoreboard.
    intros (s1 & [Heq _]%updateRankings_Ok & Hrest)%bindR_Ok.
    apply bindR_Ok in Hrest as ([s2 rows] & [fp ->]%printScoreboard_state & [= <- <-]).
    apply solvedRecordsKept_teams. intros n. by rewrite getTeam_setFrozenProblems, Heq.
  - intros [= Hfreeze]. unfold freezeScoreboard in Hfreeze.
    destruct (isFrozen s); injection Hfreeze as <- _; by apply solvedRecordsKept_teams.
  - by apply scrollScoreboard_solvedRecordsKept.
  - intros [= <- <-]. apply solvedRecordsKept_refl.
  - intros [= <- <-]. apply solvedRecordsKept_refl.
  - intros [= <- <-]. apply solvedRecordsKept_refl.
Qed.

Lemma run_solvedRecordsKept (cs : list Command) (s s' : System) (out : list string) :
  Inv s → competitionStarted s = true →
  run cs s = Ok (s', out) → solvedRecordsKept s s'.
Proof.
  revert s out. induction cs as [|c cs IH]; intros s out HI Hs.
  - intros [= <- <-]. apply solvedRecordsKept_refl.
  - destruct (command_END_dec c) as [->|Hc].
    { intros [= <- <-]. apply solvedRecordsKept_refl. }
    intros (s1 & out1 & out2 & Hstep & Hrest & _)%run_cons_Ok; [|done].
    apply (solvedRecordsKept_trans s s1 s').
    + by apply (step_solvedRecordsKept c s s1 out1).
    + apply (IH s1 out2); [|by apply (step_started c s s1 out1)|done].
      apply (step_inv c s s1 out1); [done| |done]. by intros.
Qed.

(** X11.  In a contest run, once a team has solved a problem, nothing that
    follows changes the record of that solve: whatever commands come after
    (more submissions on the problem, accepted or not, freezes, scrolls,
    further START commands), the problem stays solved with the same
    acceptance time and the same number of wrong attempts. *)
Theorem X11_solved_record_is_final
    (cs : list Command) (s s' : System) (out : list string) (n p : string) :
  reachable s → run cs s = Ok (s', out) →
  solved (getTeam s n) p = true →
  solved (getTeam s' n) p = true
  ∧ acceptTime (getTeam s' n) p = acceptTime (getTeam s n) p
  ∧ wrongCount (getTeam s' n) p = wrongCount (getTeam s n) p.
Proof.
  intros HI%reachable_inv Hrun Hp.
  assert (competitionStarted s = true) as Hs.
  { destruct (competitionStarted s) eqn:Hs; [done|].
    destruct (inv_prestart s HI Hs) as (_ & Hfresh & _).
    unfold getTeam, mapGet in Hp.
    destruct (teams s !! n) as [t|] eqn:Hn; simpl in Hp; [|done].
    by rewrite (Hfresh n t Hn) in Hp. }
  by apply (run_solvedRecordsKept cs s s' out HI Hs Hrun).
Qed.

Lemma X11_solved_record_witness :
  let before := [ADDTEAM "t"; START 10 1; SUBMIT "A" "t" "Wrong_Answer" 2;
                 SUBMIT "A" "t" "Accepted" 4] in
  let cs := [SUBMIT "A" "t" "Wrong_Answer" 6; FREEZE; SUBMIT "A" "t" "Accepted" 8;
             START 20 3; SCROLL] in
  acceptTime (getTeam (stateAfter (before ++ cs)) "t") "A" = 4
  ∧ wrongCount (getTeam (stateAfter (before ++ cs)) "t") "A" = 1.
Proof.
  intros before cs.
  assert (∃ out, run cs (stateAfter before) = Ok (stateAfter (before ++ cs), out))
    as [out Hrun] by (eexists; vm_compute; reflexivity).
  destruct (X11_solved_record_is_final cs (stateAfter before)
              (stateAfter (before ++ cs)) out "t" "A") as (_ & -> & ->).
  - by apply stateAfter_reachable.
  - exact Hrun.
  - vm_compute. reflexivity.
  - split; vm_compute; reflexivity.
Defined.

(** ** What a reveal finds *)



(** ** Reading the command stream *)

Example parse_examples :
  parseLine "" = Skip
  ∧ parseLine "   " = Skip
  ∧ parseLine "HELLO world" = Skip
  ∧ parseLine "ADDTEAM  alpha" = Run (ADDTEAM "alpha")
  ∧ parseLine "ADDTEAM" = Run (ADDTEAM "")
  ∧ parseLine "START DURATION 300 PROBLEM 12" = Run (START 300 12)
  ∧ parseLine "START DURATION 300 PROBLEM x" = Run (START 300 0)
  ∧ parseLine "START DURATION x PROBLEM 3" = Undefined
  ∧ parseLine "START DURATION 300" = Undefined
  ∧ parseLine "SUBMIT A BY t WITH Accepted AT 17" = Run (SUBMIT "A" "t" "Accepted" 17)
  ∧ parseLine "SUBMIT A BY t WITH Accepted AT -3" = Run (SUBMIT "A" "t" "Accepted" (-3))
  ∧ parseLine "SUBMIT A BY t WITH Accepted AT 99999999999"
    = Run (SUBMIT "A" "t" "Accepted" 2147483647)
  ∧ parseLine "START DURATION 99999999999 PROBLEM 3" = Undefined
  ∧ parseLine "QUERY_RANKING t" = Run (QUERY_RANKING "t")
  ∧ parseLine "QUERY_SUBMISSION t WHERE PROBLEM=A AND STATUS=Accepted"
    = Run (QUERY_SUBMISSION "t" "AND" "")
  ∧ parseLine "QUERY_SUBMISSION t WHERE x PROBLEM=A AND y STATUS=Accepted"
    = Run (QUERY_SUBMISSION "t" "A" "Accepted")
  ∧ parseLine "END now" = Run END
  ∧ commandsOf ["ADDTEAM a"; ""; "FLUSH"; "END"] = Some [ADDTEAM "a"; FLUSH; END]
  ∧ main ["ADDTEAM a"; ""; "ADDTEAM a"; "END"; "START"]
    = Some (Ok (stateAfter [ADDTEAM "a"],
                ["[Info]Add successfully."; "[Error]Add failed: duplicated team name.";
                 "[Info]Competition ends."])).
Proof. repeat split; vm_compute; reflexivity. Qed.

Lemma append_String (c : ascii) (w rest : string) :
  String.append (String c w) rest = String c (String.append w rest).
Proof. reflexivity. Qed.

Lemma append_nil (rest : string) : String.append EmptyString rest = rest.
Proof. reflexivity. Qed.

Lemma skipSpaces_word (w rest : string) :
  isWord w → skipSpaces (String.append w rest) = String.append w rest.
Proof.
  intros [Hne Hw]. destruct w as [|c w]; [done|].
  rewrite append_String. cbn [noSpace skipSpaces] in *.
  apply andb_true_iff in Hw as [Hc _]. by destruct (isSpace c).
Qed.

Lemma takeWord_word (w rest : string) :
  noSpace w = true → wordEnds rest = true →
  takeWord (String.append w rest) = (w, rest).
Proof.
  intros Hw Hrest.
  induction w as [|c w IH]; rewrite ?append_String, ?append_nil;
    cbn [noSpace takeWord] in *.
  - destruct rest as [|c rest]; [done|].
    cbn [wordEnds takeWord] in *. by rewrite Hrest.
  - apply andb_true_iff in Hw as [Hc Hw]. destruct (isSpace c); [done|].
    by rewrite IH.
Qed.

(** A word is read back whole. *)
Lemma readWord_word (w rest : string) :
  isWord w → wordEnds rest = true →
  readWord (String.append w rest) = (w, rest).
Proof.
  intros Hw Hrest. unfold readWord. rewrite skipSpaces_word by done.
  apply takeWord_word; [apply Hw|done].
Qed.

Lemma readWord_next (w rest : string) :
  isWord w → wordEnds rest = true →
  readWord (String " " (String.append w rest)) = (w, rest).
Proof. intros Hw Hrest. by rewrite <- (readWord_word w rest). Qed.

Lemma append_empty (w : string) : String.append w EmptyString = w.
Proof.
  induction w as [|c w IH]; [done|]. by rewrite append_String, IH.
Qed.

Lemma readWord_last (w : string) :
  isWord w → readWord (String " " w) = (w, EmptyString).
Proof.
  intros Hw. rewrite <- (append_empty w) at 1. by apply readWord_next.
Qed.

Lemma parseLine_word (w rest : string) :
  isWord w → wordEnds rest = true →
  parseLine (String.append w rest) = dispatch w rest.
Proof.
  intros Hw Hrest. unfold parseLine. rewrite readWord_word by done.
  destruct Hw as [Hne _]. by destruct w.
Qed.

Lemma afterPrefix_append (prefix s : string) :
  afterPrefix prefix (String.append prefix s) = Some s.
Proof.
  induction prefix as [|c prefix IH]; [done|].
  rewrite append_String. cbn [afterPrefix]. by rewrite Ascii.eqb_refl.
Qed.

Lemma afterPrefix_Some (prefix s r : string) :
  afterPrefix prefix s = Some r → s = String.append prefix r.
Proof.
  revert s. induction prefix as [|c prefix IH]; intros s; simpl.
  - by intros [= ->].
  - destruct s as [|b s]; [done|].
    destruct (Ascii.eqb_spec c b) as [->|]; [|done].
    intros H%IH. by rewrite H, append_String.
Qed.

Lemma dispatch_unknown (w rest : string) :
  w ∉ commandWords → dispatch w rest = Skip.
Proof.
  intros Hw. unfold dispatch.
  repeat match goal with
         | |- context [String.eqb w ?c] =>
             destruct (String.eqb_spec w c) as [->|_];
             [exfalso; apply Hw; unfold commandWords;
              apply list_elem_of_In; simpl; tauto|]
         end.
  done.
Qed.

(** X18.  How [main] takes a line apart.  An empty line, a line of white
    space only and a line whose first word is not one of the nine command
    words are skipped.  The first word may be preceded and must be followed
    by white space or the end of the line.  ADDTEAM and QUERY_RANKING take
    the next word as the team name, whatever follows it; without a next
    word they take the EMPTY name, so that a bare ADDTEAM registers a team
    with the empty name.  FLUSH, FREEZE, SCROLL and END ignore the rest of
    their line. *)
Theorem X18_lines_are_read_word_by_word :
  (∀ l, skipSpaces l = EmptyString → parseLine l = Skip)
  ∧ (∀ w rest, isWord w → w ∉ commandWords → wordEnds rest = true →
               parseLine (String.append w rest) = Skip)
  ∧ (∀ l c, isSpace c = true → l ≠ EmptyString →
            parseLine (String c l) = parseLine l)
  ∧ (∀ n rest, isWord n → wordEnds rest = true →
       parseLine (String.append "ADDTEAM" (String " " (String.append n rest)))
       = Run (ADDTEAM n)
       ∧ parseLine (String.append "QUERY_RANKING" (String " " (String.append n rest)))
         = Run (QUERY_RANKING n))
  ∧ (∀ rest, skipSpaces rest = EmptyString →
       parseLine (String.append "ADDTEAM" rest) = Run (ADDTEAM "")
       ∧ parseLine (String.append "QUERY_RANKING" rest) = Run (QUERY_RANKING ""))
  ∧ (∀ rest, wordEnds rest = true →
       parseLine (String.append "FLUSH" rest) = Run FLUSH
       ∧ parseLine (String.append "FREEZE" rest) = Run FREEZE
       ∧ parseLine (String.append "SCROLL" rest) = Run SCROLL
       ∧ parseLine (String.append "END" rest) = Run END).
Proof.
  assert (∀ rest, skipSpaces rest = EmptyString → wordEnds rest = true) as Hblank.
  { intros [|c rest]; [done|]. cbn [skipSpaces wordEnds]. by destruct (isSpace c). }
  split; [|split; [|split; [|split; [|split]]]].
  - intros l Hl. unfold parseLine, readWord. rewrite Hl.
    by destruct (String.eqb l "").
  - intros w rest Hw Hunknown Hrest. rewrite parseLine_word by done.
    by apply dispatch_unknown.
  - intros l c Hc Hl. unfold parseLine, readWord. cbn [skipSpaces]. rewrite Hc.
    by destruct l.
  - intros n rest Hn Hrest.
    rewrite !parseLine_word by done. unfold dispatch. simpl.
    by rewrite readWord_next.
  - intros rest Hrest.
    rewrite !parseLine_word by (done || by apply Hblank).
    unfold dispatch, readWord. simpl. by rewrite Hrest.
  - intros rest Hrest. by rewrite !parseLine_word.
Qed.

Lemma X18_lines_witness :
  parseLine "  ADDTEAM Team_1  extra" = Run (ADDTEAM "Team_1").
Proof.
  destruct X18_lines_are_read_word_by_word as (_ & _ & Hlead & Hadd & _).
  rewrite !Hlead by done.
  by apply (Hadd "Team_1" "  extra").
Defined.

Lemma noSpace_append (w1 w2 : string) :
  noSpace (String.append w1 w2) = noSpace w1 && noSpace w2.
Proof.
  induction w1 as [|c w1 IH]; [done|].
  rewrite append_String. cbn [noSpace]. by rewrite IH, andb_assoc.
Qed.

Lemma isWord_append (w1 w2 : string) :
  isWord w1 → noSpace w2 = true → isWord (String.append w1 w2).
Proof.
  intros [Hne Hw1] Hw2. split.
  - destruct w1; [done|]. by rewrite append_String.
  - by rewrite noSpace_append, Hw1, Hw2.
Qed.

(** X19.  QUERY_SUBMISSION takes the word after the command as the team,
    the FOURTH word after the command as the problem filter and the
    SEVENTH as the status filter, and removes a leading [PROBLEM=] and a
    leading [STATUS=] from them.  A line that gives the filters as the two
    single words [PROBLEM=p] and [STATUS=st] - only five words after the
    command - is therefore read with the problem filter [AND] and an empty
    status filter. *)
Theorem X19_query_submission_reads_fourth_and_seventh_word :
  (∀ t w2 w3 p w5 w6 st,
     isWord t → isWord w2 → isWord w3 → isWord p → isWord w5 → isWord w6 → isWord st →
     parseLine (joinWords ["QUERY_SUBMISSION"; t; w2; w3; p; w5; w6; st])
     = Run (QUERY_SUBMISSION t (stripPrefix "PROBLEM=" p) (stripPrefix "STATUS=" st)))
  ∧ (∀ prefix x, stripPrefix prefix (String.append prefix x) = x)
  ∧ (∀ prefix x, (∀ r, x ≠ String.append prefix r) → stripPrefix prefix x = x)
  ∧ (∀ t p st,
       isWord t → isWord p → isWord st →
       parseLine (joinWords ["QUERY_SUBMISSION"; t; "WHERE"; String.append "PROBLEM=" p;
                             "AND"; String.append "STATUS=" st])
       = Run (QUERY_SUBMISSION t "AND" "")).
Proof.
  split; [|split; [|split]].
  - intros t w2 w3 p w5 w6 st Ht H2 H3 Hp H5 H6 Hst. cbn [joinWords].
    rewrite parseLine_word by done.
    assert (dispatch "QUERY_SUBMISSION"
              (String " " (String.append t (String " " (String.append w2
                 (String " " (String.append w3 (String " " (String.append p
                    (String " " (String.append w5 (String " " (String.append w6
                       (String " " st)))))))))))))
            = let '(teamName, r1) :=
                readWord (String " " (String.append t (String " " (String.append w2
                  (String " " (String.append w3 (String " " (String.append p
                    (String " " (String.append w5 (String " " (String.append w6
                       (String " " st))))))))))))) in
              let '(_, r2) := readWord r1 in
              let '(_, r3) := readWord r2 in
              let '(problemName, r4) := readWord r3 in
              let '(_, r5) := readWord r4 in
              let '(_, r6) := readWord r5 in
              let '(statusStr, _) := readWord r6 in
              Run (QUERY_SUBMISSION teamName (stripPrefix "PROBLEM=" problemName)
                     (stripPrefix "STATUS=" statusStr))) as -> by reflexivity.
    by rewrite !readWord_next, readWord_last by done.
  - intros prefix x. unfold stripPrefix. by rewrite afterPrefix_append.
  - intros prefix x Hx. unfold stripPrefix.
    destruct (afterPrefix prefix x) as [r|] eqn:Hr; [|done].
    apply afterPrefix_Some in Hr. by destruct (Hx r).
  - intros t p st Ht Hp Hst. cbn [joinWords].
    rewrite parseLine_word by done.
    assert (isWord (String.append "PROBLEM=" p)) as Hp'
      by (apply isWord_append; [done|apply Hp]).
    assert (isWord (String.append "STATUS=" st)) as Hst'
      by (apply isWord_append; [done|apply Hst]).
    assert (dispatch "QUERY_SUBMISSION"
              (String " " (String.append t (String " " (String.append "WHERE"
                 (String " " (String.append (String.append "PROBLEM=" p)
                    (String " " (String.append "AND"
                       (String " " (String.append "STATUS=" st))))))))))
            = let '(teamName, r1) :=
                readWord (String " " (String.append t (String " " (String.append "WHERE"
                 (String " " (String.append (String.append "PROBLEM=" p)
                    (String " " (String.append "AND"
                       (String " " (String.append "STATUS=" st)))))))))) in
              let '(_, r2) := readWord r1 in
              let '(_, r3) := readWord r2 in
              let '(problemName, r4) := readWord r3 in
              let '(_, r5) := readWord r4 in
              let '(_, r6) := readWord r5 in
              let '(statusStr, _) := readWord r6 in
              Run (QUERY_SUBMISSION teamName (stripPrefix "PROBLEM=" problemName)
                     (stripPrefix "STATUS=" statusStr))) as -> by reflexivity.
    rewrite !readWord_next by done. by rewrite readWord_last by done.
Qed.

Lemma X19_query_submission_witness :
  parseLine "QUERY_SUBMISSION Team_1 WHERE PROBLEM=A AND STATUS=Accepted"
  = Run (QUERY_SUBMISSION "Team_1" "AND" "").
Proof.
  destruct X19_query_submission_reads_fourth_and_seventh_word as (_ & _ & _ & Hshort).
  by apply (Hshort "Team_1" "A" "Accepted").
Defined.

(** ** Numerals *)

Lemma takeDigits_stop (rest : string) :
  wordEnds rest = true → takeDigits rest = (EmptyString, rest).
Proof.
  destruct rest as [|c rest]; [done|]. cbn [wordEnds takeDigits]. intros Hc.
  assert (isDigit c = false) as ->; [|done].
  unfold isSpace, isDigit in *. revert Hc. generalize (nat_of_ascii c). intros n Hc.
  destruct (48 <=? n)%nat eqn:H1; [|done].
  destruct (n <=? 57)%nat eqn:H2; [|done].
  apply Nat.leb_le in H1, H2. exfalso.
  apply orb_true_iff in Hc as [Hc|Hc].
  - apply Nat.eqb_eq in Hc. lia.
  - apply andb_true_iff in Hc as [_ Hc]. apply Nat.leb_le in Hc. lia.
Qed.

Lemma takeDigits_uint (d : Decimal.uint) (rest : string) :
  wordEnds rest = true →
  takeDigits (String.append (NilEmpty.string_of_uint d) rest)
  = (NilEmpty.string_of_uint d, rest).
Proof.
  intros Hrest. induction d; cbn [NilEmpty.string_of_uint];
    rewrite ?append_String, ?append_nil; [by apply takeDigits_stop|..];
    cbn [takeDigits]; rewrite IHd; reflexivity.
Qed.

Lemma of_uint_nonneg (d : Decimal.uint) : 0 ≤ Z.of_uint d.
Proof. unfold Z.of_uint. lia. Qed.

Lemma readInt_uint (d : Decimal.uint) (rest : string) :
  d ≠ Decimal.Nil → wordEnds rest = true →
  (Z.of_uint d ≤ 2147483647 →
   readInt (String.append (NilEmpty.string_of_uint d) rest) = IntValue (Z.of_uint d) rest)
  ∧ (Z.of_uint d ≤ 2147483648 →
     readInt (String "-" (String.append (NilEmpty.string_of_uint d) rest))
     = IntValue (- Z.of_uint d) rest).
Proof.
  intros Hd Hrest. pose proof (of_uint_nonneg d) as Hnonneg.
  assert (NilZero.uint_of_string (NilEmpty.string_of_uint d) = Some d) as Hparse.
  { rewrite <- (NilZero.usu d Hd). by destruct d. }
  split.
  - intros Hfit.
    assert (∀ body, body = String.append (NilEmpty.string_of_uint d) rest →
              (let '(digits, rest') := takeDigits body in
               match NilZero.uint_of_string digits with
               | Some d0 =>
                   if (-2147483648 <=? Z.of_uint d0) && (Z.of_uint d0 <=? 2147483647)
                   then IntValue (Z.of_uint d0) rest' else IntClamped 2147483647
               | None => IntZero
               end) = IntValue (Z.of_uint d) rest) as Hpos.
    { intros body ->. rewrite takeDigits_uint, Hparse by done.
      destruct (Z.leb_spec (-2147483648) (Z.of_uint d)); [|lia].
      destruct (Z.leb_spec (Z.of_uint d) 2147483647); [done|lia]. }
    unfold readInt.
    destruct d; try done; cbn [NilEmpty.string_of_uint] in *;
      rewrite append_String in *; cbn [skipSpaces isSpace]; simpl isSpace;
      cbv iota; (rewrite <- append_String; by apply Hpos).
  - intros Hfit. unfold readInt. cbn [skipSpaces]. simpl.
    rewrite takeDigits_uint, Hparse by done.
    destruct (Z.leb_spec (-2147483648) (- Z.of_uint d)); simpl; [|lia].
    destruct (Z.leb_spec (- Z.of_uint d) 2147483647); [done|lia].
Qed.

(** A numeral written by [cout << int] is read back by [iss >> int]. *)
Lemma readInt_showZ (z : Z) (rest : string) :
  fitsInt z → wordEnds rest = true →
  readInt (String.append (showZ z) rest) = IntValue z rest.
Proof.
  intros [Hlo Hhi] Hrest. unfold showZ.
  pose proof (DecimalZ.of_to z) as Hz.
  destruct z as [|p|p]; cbn [Z.to_int] in *.
  - destruct (readInt_uint (Decimal.D0 Decimal.Nil) rest) as [Hpos _]; [done..|].
    by apply Hpos.
  - pose proof (DecimalPos.Unsigned.to_uint_nonnil p) as Hnil.
    cbn [Z.of_int] in Hz.
    destruct (readInt_uint (Pos.to_uint p) rest) as [Hpos _]; [done..|].
    rewrite Hz in Hpos. unfold NilZero.string_of_int, NilZero.string_of_uint.
    destruct (Pos.to_uint p) eqn:Hu; try done; by apply Hpos.
  - pose proof (DecimalPos.Unsigned.to_uint_nonnil p) as Hnil.
    cbn [Z.of_int] in Hz.
    destruct (readInt_uint (Pos.to_uint p) rest) as [_ Hneg]; [done..|].
    assert (Z.of_uint (Pos.to_uint p) = Z.pos p) as Hz' by lia.
    rewrite Hz' in Hneg. unfold NilZero.string_of_int, NilZero.string_of_uint.
    rewrite append_String.
    destruct (Pos.to_uint p) eqn:Hu; try done; apply Hneg; lia.
Qed.

Lemma showZ_word (z : Z) : isWord (showZ z).
Proof.
  assert (∀ d, noSpace (NilEmpty.string_of_uint d) = true) as Hd
    by (induction d; cbn [NilEmpty.string_of_uint noSpace]; by rewrite ?IHd).
  unfold showZ.
  destruct z as [|p|p]; cbn [Z.to_int]; [done| |];
    pose proof (DecimalPos.Unsigned.to_uint_nonnil p) as Hnil;
    unfold NilZero.string_of_int, NilZero.string_of_uint; split.
  - destruct (Pos.to_uint p); try done.
  - destruct (Pos.to_uint p) eqn:Hu; try done; rewrite <- Hu; apply Hd.
  - done.
  - cbn [noSpace]. destruct (Pos.to_uint p) eqn:Hu; try done;
      rewrite <- Hu; by rewrite Hd.
Qed.

Lemma readInt_no_numeral (x rest : string) :
  isWord x → opensNoNumeral x = true →
  readInt (String " " (String.append x rest)) = IntZero.
Proof.
  intros Hx Hno. unfold readInt.
  change (skipSpaces (String " " (String.append x rest)))
    with (skipSpaces (String.append x rest)).
  rewrite skipSpaces_word by done.
  destruct x as [|c x]; [done|]. rewrite append_String.
  cbn [opensNoNumeral] in Hno.
  apply andb_true_iff in Hno as [Hno Hp%negb_true_iff].
  apply andb_true_iff in Hno as [Hd%negb_true_iff Hm%negb_true_iff].
  rewrite Hm, Hp. cbn [takeDigits]. by rewrite Hd.
Qed.

(** X20.  The numerals of START and SUBMIT.  A line made of the command
    word and its operands, one space apart, with the numbers written the
    way [cout] writes an [int], is read back as that command: the third
    and the fifth word of START are its duration and problem count, the
    second, fourth and sixth word of SUBMIT its problem, team and status
    label and the eighth its time; the words in between are read and
    dropped, whatever they are.  A SUBMIT line that ends before the time
    uses a variable no extraction has written; a word that opens no
    numeral in the place of the time (or of the problem count) stores
    0. *)
Theorem X20_numerals_are_read_back :
  (∀ p w_by t w_with st w_at time,
     isWord p → isWord w_by → isWord t → isWord w_with → isWord st → isWord w_at →
     fitsInt time →
     parseLine (joinWords ["SUBMIT"; p; w_by; t; w_with; st; w_at; showZ time])
     = Run (SUBMIT p t st time))
  ∧ (∀ w_duration duration w_problem problemCnt,
       isWord w_duration → isWord w_problem → fitsInt duration → fitsInt problemCnt →
       parseLine (joinWords ["START"; w_duration; showZ duration; w_problem;
                             showZ problemCnt])
       = Run (START duration problemCnt))
  ∧ (∀ p w_by t w_with st w_at,
       isWord p → isWord w_by → isWord t → isWord w_with → isWord st → isWord w_at →
       parseLine (joinWords ["SUBMIT"; p; w_by; t; w_with; st; w_at]) = Undefined)
  ∧ (∀ p w_by t w_with st w_at x,
       isWord p → isWord w_by → isWord t → isWord w_with → isWord st → isWord w_at →
       isWord x → opensNoNumeral x = true →
       parseLine (joinWords ["SUBMIT"; p; w_by; t; w_with; st; w_at; x])
       = Run (SUBMIT p t st 0))
  ∧ (∀ w_duration duration w_problem x,
       isWord w_duration → isWord w_problem → fitsInt duration →
       isWord x → opensNoNumeral x = true →
       parseLine (joinWords ["START"; w_duration; showZ duration; w_problem; x])
       = Run (START duration 0)).
Proof.
  assert (∀ r0, dispatch "SUBMIT" r0
                = let '(problemName, r1) := readWord r0 in
                  let '(_, r2) := readWord r1 in
                  let '(teamName, r3) := readWord r2 in
                  let '(_, r4) := readWord r3 in
                  let '(statusStr, r5) := readWord r4 in
                  let '(_, r6) := readWord r5 in
                  match readInt r6 with
                  | IntValue time _ => Run (SUBMIT problemName teamName statusStr time)
                  | IntZero => Run (SUBMIT problemName teamName statusStr 0)
                  | IntClamped bound => Run (SUBMIT problemName teamName statusStr bound)
                  | IntUntouched => Undefined
                  end) as Hsubmit by reflexivity.
  assert (∀ r0, dispatch "START" r0
                = let '(_, r1) := readWord r0 in
                  match readInt r1 with
                  | IntValue duration r2 =>
                      let '(_, r3) := readWord r2 in
                      match readInt r3 with
                      | IntValue problemCount _ => Run (START duration problemCount)
                      | IntZero => Run (START duration 0)
                      | IntClamped bound => Run (START duration bound)
                      | IntUntouched => Undefined
                      end
                  | _ => Undefined
                  end) as Hstart by reflexivity.
  assert (∀ z rest, fitsInt z → wordEnds rest = true →
                    readInt (String " " (String.append (showZ z) rest))
                    = IntValue z rest) as Hint.
  { intros z rest Hz Hrest. by rewrite <- (readInt_showZ z rest). }
  assert (∀ z, fitsInt z → readInt (String " " (showZ z)) = IntValue z EmptyString)
    as Hint_last.
  { intros z Hz. rewrite <- (append_empty (showZ z)) at 1. by apply Hint. }
  pose proof showZ_word as Hshow.
  split; [|split; [|split; [|split]]].
  - intros p w_by t w_with st w_at time Hp Hby Ht Hwith Hst Hat Htime.
    cbn [joinWords]. rewrite parseLine_word, Hsubmit by done.
    rewrite !readWord_next by done. by rewrite Hint_last.
  - intros w_duration duration w_problem problemCnt Hd Hp Hdur Hcnt.
    cbn [joinWords]. rewrite parseLine_word, Hstart by done.
    rewrite readWord_next, Hint, readWord_next by done. by rewrite Hint_last.
  - intros p w_by t w_with st w_at Hp Hby Ht Hwith Hst Hat.
    cbn [joinWords]. rewrite parseLine_word, Hsubmit by done.
    rewrite !readWord_next by done. by rewrite readWord_last.
  - intros p w_by t w_with st w_at x Hp Hby Ht Hwith Hst Hat Hx Hno.
    cbn [joinWords]. rewrite parseLine_word, Hsubmit by done.
    rewrite !readWord_next by done.
    rewrite <- (append_empty x). by rewrite readInt_no_numeral.
  - intros w_duration duration w_problem x Hd Hp Hdur Hx Hno.
    cbn [joinWords]. rewrite parseLine_word, Hstart by done.
    rewrite readWord_next, Hint, readWord_next by done.
    rewrite <- (append_empty x). by rewrite readInt_no_numeral.
Qed.

Lemma X20_numerals_witness :
  parseLine (joinWords ["SUBMIT"; "A"; "BY"; "Team_1"; "WITH"; "Accepted"; "AT"; showZ 17])
  = Run (SUBMIT "A" "Team_1" "Accepted" 17).
Proof.
  destruct X20_numerals_are_read_back as (Hsubmit & _).
  apply Hsubmit; done.
Defined.

(** ** The loop of [main] *)

(** X21.  [main] is the command loop [run] on the commands of its
    lines: when every line can be taken apart, reading and running them
    one by one gives what running the list of their commands from the
    initial system gives (blank lines and unknown commands dropped).  And
    [main] reads nothing after the first END line: whatever follows it,
    lines that would be undefined included, changes nothing. *)
Theorem X21_main_runs_the_commands_of_its_lines :
  (∀ lines cs, commandsOf lines = Some cs → main lines = Some (run cs initialSystem))
  ∧ (∀ lines rest tail,
       wordEnds tail = true →
       main (lines ++ String.append "END" tail :: rest) = main (lines ++ ["END"])).
Proof.
  split.
  - intros lines. unfold main. generalize initialSystem.
    induction lines as [|l lines IH]; intros s cs; simpl.
    { by intros [= <-]. }
    destruct (parseLine l) as [c| |]; [|by apply IH|done].
    destruct (commandsOf lines) as [cs'|] eqn:Hcs; [|done]. simpl. intros [= <-].
    destruct c; try done;
      (rewrite run_cons by done;
       destruct (step _ s) as [[s1 out1]| |]; simpl; [|done..];
       rewrite (IH s1 cs') by done;
       by destruct (run cs' s1) as [[s2 out2]| |]).
  - intros lines rest tail Htail. unfold main. generalize initialSystem.
    assert (parseLine (String.append "END" tail) = Run END) as Hend
      by (by rewrite parseLine_word).
    induction lines as [|l lines IH]; intros s.
    { simpl. by rewrite Hend. }
    rewrite <- !app_comm_cons. cbn [mainLoop].
    destruct (parseLine l) as [c| |]; [|by apply IH|done].
    destruct c; try done; (destruct (step _ s) as [[s1 out1]| |]; [|done..]);
      by rewrite IH.
Qed.

Lemma X21_main_witness :
  main ["ADDTEAM a"; ""; "HELLO"; "ADDTEAM a"; "END of the input"; "START"]
  = Some (Ok (stateAfter [ADDTEAM "a"],
              ["[Info]Add successfully."; "[Error]Add failed: duplicated team name.";
               "[Info]Competition ends."])).
Proof.
  destruct X21_main_runs_the_commands_of_its_lines as [Hrun Hend].
  change (main (["ADDTEAM a"; ""; "HELLO"; "ADDTEAM a"]
                ++ String.append "END" " of the input" :: ["START"])
          = Some (Ok (stateAfter [ADDTEAM "a"],
                      ["[Info]Add successfully.";
                       "[Error]Add failed: duplicated team name.";
                       "[Info]Competition ends."]))).
  rewrite Hend by reflexivity.
  rewrite (Hrun _ [ADDTEAM "a"; ADDTEAM "a"; END]) by (vm_compute; reflexivity).
  vm_compute. reflexivity.
Defined.

(** ** What moves a team on the board *)

Lemma sortDesc_unique (l k : list Z) : l ≡ₚ k → sortDesc l = sortDesc k.
Proof.
  intros Hperm. apply (StronglySorted_unique_strong Z.ge).
  - intros x y _ _ Hxy Hyx. lia.
  - apply sortDesc_sorted.
  - apply sortDesc_sorted.
  - by rewrite !sortDesc_perm.
Qed.

Lemma solveTimes_ext (t t' : Team) :
  (∀ p, solved t' p = solved t p) →
  (∀ p, solved t p = true → acceptTime t' p = acceptTime t p) →
  solveTimes t' = solveTimes t.
Proof.
  intros Hs Ha. unfold solveTimes. apply sortDesc_unique.
  rewrite (solvedProblems_perm t t' Hs).
  assert (acceptTime t' <$> solvedProblems t = acceptTime t <$> solvedProblems t) as ->;
    [|done].
  apply list_fmap_ext. intros i p Hp%list_elem_of_lookup_2.
  by apply Ha, elem_of_solvedProblems.
Qed.

Lemma ranksBefore_same (s s' : System) (a b : string) :
  (∀ m, m = a ∨ m = b →
        solvedCount (getTeam s' m) = solvedCount (getTeam s m)
        ∧ penaltyTime (getTeam s' m) = penaltyTime (getTeam s m)
        ∧ solveTimes (getTeam s' m) = solveTimes (getTeam s m)) →
  ranksBefore s' a b = ranksBefore s a b.
Proof.
  intros H. rewrite !ranksBefore_unfold.
  destruct (H a) as (-> & -> & ->); [by left|].
  destruct (H b) as (-> & -> & ->); [by right|]. done.
Qed.

(** The submissions that leave the ranking keys of their team alone. *)
Lemma submitProblem_keys (p n st : string) (time : Z) (s s' : System) :
  isFrozen s = true ∨ stringToStatus st ≠ ACCEPTED ∨ solved (getTeam s n) p = true →
  submitProblem p n st time s = Ok s' →
  teamOrder s' = teamOrder s
  ∧ ∀ m, solvedCount (getTeam s' m) = solvedCount (getTeam s m)
         ∧ penaltyTime (getTeam s' m) = penaltyTime (getTeam s m)
         ∧ solveTimes (getTeam s' m) = solveTimes (getTeam s m).
Proof.
  intros Hcase. rewrite submitProblem_cases. cbv zeta.
  assert (∀ t' subs fp,
            solvedCount t' = solvedCount (getTeam s n) →
            penaltyTime t' = penaltyTime (getTeam s n) →
            isSolved t' = touch false (isSolved (getTeam s n)) p →
            firstAcceptTime t' = firstAcceptTime (getTeam s n) →
            teamOrder (updated s n t' subs fp) = teamOrder s
            ∧ ∀ m, solvedCount (getTeam (updated s n t' subs fp) m)
                   = solvedCount (getTeam s m)
                   ∧ penaltyTime (getTeam (updated s n t' subs fp) m)
                     = penaltyTime (getTeam s m)
                   ∧ solveTimes (getTeam (updated s n t' subs fp) m)
                     = solveTimes (getTeam s m)) as Hsame.
  { intros t' subs fp Hc Hp Hs Ha. split; [done|]. intros m.
    rewrite getTeam_updated. case_decide as Hm; [subst m|done].
    split; [done|]. split; [done|]. apply solveTimes_ext.
    - intros q. unfold solved. rewrite Hs. apply mapGet_touch.
    - intros q _. unfold acceptTime. by rewrite Ha. }
  destruct (solved (getTeam s n) p) eqn:Hs.
  { intros [= <-]. by apply Hsame. }
  destruct (isFrozen s) eqn:Hf.
  { intros [= <-]. by apply Hsame. }
  case_decide as Hst.
  { destruct Hcase as [?|[?|?]]; done. }
  intros [= <-]. by apply Hsame.
Qed.

(** X22.  Only an Accepted submission that is applied - on a board that
    is not frozen, to a problem its team has not solved - can move a team.
    Every other submission of a contest run (any submission while the
    board is frozen, a non-accepted one, one on a solved problem) changes
    no team's [solvedCount] or [penaltyTime] and nothing the ranking rule
    looks at: a FLUSH after it gives the order a FLUSH before it gives. *)
Theorem X22_only_an_applied_accept_moves_the_board
    (s s' : System) (p n st : string) (time : Z) :
  reachable s → competitionStarted s = true →
  isFrozen s = true ∨ stringToStatus st ≠ ACCEPTED ∨ solved (getTeam s n) p = true →
  submitProblem p n st time s = Ok s' →
  (∀ m, solvedCount (getTeam s' m) = solvedCount (getTeam s m)
        ∧ penaltyTime (getTeam s' m) = penaltyTime (getTeam s m))
  ∧ (∀ a b, RankedBefore s' a b ↔ RankedBefore s a b)
  ∧ ∃ s1 s1' out out',
      flushScoreboard s = Ok (s1, out) ∧ flushScoreboard s' = Ok (s1', out')
      ∧ teamOrder s1' = teamOrder s1.
Proof.
  intros HI%reachable_inv Hstarted Hcase Hsub.
  pose proof (submitProblem_inv p n st time s s' HI Hstarted Hsub) as HI'.
  destruct (submitProblem_keys p n st time s s' Hcase Hsub) as [Horder Hkeys].
  assert (∀ a b, ranksBefore s' a b = ranksBefore s a b) as Hranks.
  { intros a b. apply ranksBefore_same. intros m _. apply Hkeys. }
  split; [intros m; by destruct (Hkeys m) as (? & ? & _)|].
  split.
  { intros a b. rewrite <- !ranksBefore_spec by (by apply Inv_countOk).
    by rewrite Hranks. }
  destruct (flushScoreboard_sorted s HI) as (o & fp & Hflush & Hperm & Hsorted & _).
  destruct (flushScoreboard_sorted s' HI') as (o' & fp' & Hflush' & Hperm' & Hsorted' & _).
  eexists _, _, _, _. split; [exact Hflush|]. split; [exact Hflush'|].
  simpl. apply (sorted_perm_unique s).
  - eapply StronglySorted_mono_elem; [|exact Hsorted'].
    intros a b _ _. unfold holds. by rewrite Hranks.
  - done.
  - by rewrite Hperm', Horder, Hperm.
Qed.

Lemma X22_board_witness :
  let s := stateAfter [ADDTEAM "a"; ADDTEAM "b"; START 10 1;
                       SUBMIT "A" "a" "Accepted" 3; FREEZE] in
  ∃ s', submitProblem "A" "b" "Accepted" 1 s = Ok s'
        ∧ solvedCount (getTeam s' "b") = 0.
Proof.
  intros s.
  assert (∃ s', submitProblem "A" "b" "Accepted" 1 s = Ok s') as [s' Hsub]
    by (eexists; vm_compute; reflexivity).
  exists s'. split; [exact Hsub|].
  destruct (X22_only_an_applied_accept_moves_the_board s s' "A" "b" "Accepted" 1)
    as (Hkeys & _).
  - by apply stateAfter_reachable.
  - vm_compute. reflexivity.
  - left. vm_compute. reflexivity.
  - exact Hsub.
  - destruct (Hkeys "b") as [-> _]. vm_compute. reflexivity.
Defined.

(** ** Solving a problem never costs a place *)

(** In a sorted list without duplicates the teams before [n] are the ones
    the order puts before [n]. *)
Lemma sorted_before (R : string → string → bool) (l1 l2 : list string) (n : string) :
  (∀ a, R a a = false) → (∀ a b, R a b = true → R b a = false) →
  StronglySorted (holds R) (l1 ++ n :: l2) →
  filter (λ m, R m n = true) (l1 ++ n :: l2) = l1.
Proof.
  intros Hirr Hasym Hsorted.
  apply StronglySorted_app in Hsorted as (Hcross & _ & Hs2).
  apply StronglySorted_inv in Hs2 as [_ Hafter].
  rewrite filter_app, filter_cons_False by (by rewrite Hirr).
  assert (filter (λ m, R m n = true) l2 = []) as ->.
  { clear Hcross. induction l2 as [|m l2 IH]; [done|].
    apply Forall_cons in Hafter as [Hm Hafter].
    rewrite filter_cons_False by (by rewrite (Hasym n m)). by apply IH. }
  rewrite app_nil_r. clear Hafter. induction l1 as [|m l1 IH]; [done|].
  rewrite filter_cons_True.
  - f_equal. apply IH. intros a b Ha Hb. apply Hcross; [by right|done].
  - apply Hcross; left.
Qed.

Lemma filter_length_mono (P Q : string → Prop) `{∀ m, Decision (P m)}
    `{∀ m, Decision (Q m)} (l k : list string) :
  l ≡ₚ k → (∀ m, P m → Q m) → (length (filter P l) ≤ length (filter Q k))%nat.
Proof.
  intros Hperm Himp. rewrite <- Hperm. clear Hperm k.
  induction l as [|m l IH]; [done|].
  destruct (decide (P m)) as [HP|HP].
  - rewrite filter_cons_True, (filter_cons_True Q) by auto. simpl. lia.
  - rewrite filter_cons_False by done.
    destruct (decide (Q m)); [rewrite filter_cons_True by done; simpl; lia|].
    by rewrite filter_cons_False.
Qed.

(** X23.  Solving a problem never costs a place.  In a contest run, after
    an Accepted submission applied on an unfrozen board to a problem the
    team had not solved, a FLUSH puts that team at a position that is no
    worse than the one a FLUSH before the submission gives it, and it
    leaves the order among the other teams as the rule had it. *)
Theorem X23_solving_never_costs_a_place
    (s s' s1 s1' : System) (out out' : list string) (p n st : string) (time r r' : Z) :
  reachable s → competitionStarted s = true →
  isFrozen s = false → stringToStatus st = ACCEPTED → solved (getTeam s n) p = false →
  submitProblem p n st time s = Ok s' →
  flushScoreboard s = Ok (s1, out) → flushScoreboard s' = Ok (s1', out') →
  findRank 1 (teamOrder s1) n = Some r → findRank 1 (teamOrder s1') n = Some r' →
  r' ≤ r
  ∧ solvedCount (getTeam s' n) = solvedCount (getTeam s n) + 1
  ∧ ∀ a b, a ≠ n → b ≠ n → (RankedBefore s' a b ↔ RankedBefore s a b).
Proof.
  intros HI%reachable_inv Hstarted Hf Hst Hunsolved Hsub Hflush Hflush' Hr Hr'.
  pose proof (submitProblem_inv p n st time s s' HI Hstarted Hsub) as HI'.
  assert (s' = updated s n (applyAccepted (getTeam s n) p time)
                 (logged s p n st time) (frozenProblems s)) as Heq.
  { rewrite submitProblem_cases in Hsub. cbv zeta in Hsub.
    rewrite Hunsolved, Hf, decide_True in Hsub by done.
    destruct (wrongSubmissions (getTeam s n) !! p); [|done]. by injection Hsub as <-. }
  assert (solvedCount (getTeam s' n) = solvedCount (getTeam s n) + 1) as Hcount.
  { rewrite Heq, getTeam_updated, decide_True by done. done. }
  assert (∀ m, m ≠ n → getTeam s' m = getTeam s m) as Hother.
  { intros m Hm. rewrite Heq, getTeam_updated. by rewrite decide_False. }
  destruct (flushScoreboard_sorted s HI) as (o & fp & Hfl & Hperm & Hsorted & _).
  destruct (flushScoreboard_sorted s' HI') as (o' & fp' & Hfl' & Hperm' & Hsorted' & _).
  rewrite Hfl in Hflush. injection Hflush as <- _.
  rewrite Hfl' in Hflush'. injection Hflush' as <- _.
  simpl in Hr, Hr'.
  apply findRank_split in Hr as (l1 & l2 & Ho & _ & ->).
  apply findRank_split in Hr' as (l1' & l2' & Ho' & _ & ->).
  split; [|split; [done|]].
  - rewrite Ho in Hsorted. rewrite Ho' in Hsorted'.
    pose proof (sorted_before (ranksBefore s) l1 l2 n (ranksBefore_irrefl s)
                  (ranksBefore_asym s) Hsorted) as Hbefore.
    pose proof (sorted_before (ranksBefore s') l1' l2' n (ranksBefore_irrefl s')
                  (ranksBefore_asym s') Hsorted') as Hbefore'.
    assert (length l1' ≤ length l1)%nat; [|lia].
    rewrite <- Hbefore, <- Hbefore'.
    apply filter_length_mono.
    + rewrite <- Ho, <- Ho', Hperm, Hperm'. by rewrite Heq.
    + intros m Hm. destruct (decide (m = n)) as [->|Hne].
      { by rewrite ranksBefore_irrefl in Hm. }
      apply ranksBefore_solved_ge in Hm.
      apply ranksBefore_more_solved. rewrite (Hother m), Hcount in Hm by done. lia.
  - intros a b Ha Hb. rewrite <- !ranksBefore_spec by (by apply Inv_countOk).
    assert (ranksBefore s' a b = ranksBefore s a b) as ->; [|done].
    apply ranksBefore_same. intros m [Hm|Hm]; subst m; by rewrite Hother.
Qed.

Lemma X23_solving_witness :
  let s := stateAfter [ADDTEAM "a"; ADDTEAM "b"; START 10 2;
                       SUBMIT "A" "a" "Accepted" 3] in
  ∃ s', submitProblem "B" "b" "Accepted" 1 s = Ok s'
        ∧ solvedCount (getTeam s' "b") = 1.
Proof.
  intros s.
  assert (∃ s' s1 s1' out out',
            submitProblem "B" "b" "Accepted" 1 s = Ok s'
            ∧ flushScoreboard s = Ok (s1, out) ∧ flushScoreboard s' = Ok (s1', out')
            ∧ findRank 1 (teamOrder s1) "b" = Some 2
            ∧ findRank 1 (teamOrder s1') "b" = Some 1)
    as (s' & s1 & s1' & out & out' & Hsub & Hfl & Hfl' & Hr & Hr').
  { eexists _, _, _, _, _. split; [vm_compute; reflexivity|].
    split; [vm_compute; reflexivity|]. split; [vm_compute; reflexivity|].
    split; vm_compute; reflexivity. }
  exists s'. split; [exact Hsub|].
  destruct (X23_solving_never_costs_a_place s s' s1 s1' out out' "B" "b" "Accepted" 1 2 1)
    as (_ & Hcount & _).
  - by apply stateAfter_reachable.
  - vm_compute. reflexivity.
  - vm_compute. reflexivity.
  - vm_compute. reflexivity.
  - vm_compute. reflexivity.
  - exact Hsub.
  - exact Hfl.
  - exact Hfl'.
  - exact Hr.
  - exact Hr'.
  - rewrite Hcount. vm_compute. reflexivity.
Defined.
